(** * itk::fem::Solver — a shallow embedding of itkFEMSolver.cxx

    The file follows Code/Numerics/FEM/itkFEMSolver.cxx function by function:
    [ReadAnyObjectFromStream], [GenerateGFN], [AssembleK], [AssembleF],
    [Solve].  Calls on the linear system wrapper [m_ls] are recorded in
    call order; exceptions and reads outside a vnl container are explicit
    results. *)

From Stdlib Require Import ZArith String Ascii Lia.
From stdpp Require Import base option list list_numbers gmap strings.

Local Open Scope Z_scope.

(** ** Results of a call *)

(** The exceptions that leave the functions of the solver.  The two FEM
    exception classes carry the location and the message they are built
    with (the file name and line are left out). *)
Inductive exception : Type :=
| FEMExceptionSolution (location message : string)
| FEMExceptionIO (location message : string)
| std_out_of_range
| other_exception (what : string).

(** Accesses the C++ code performs without a check and that have no
    defined result. *)
Inductive undefined : Type :=
| vnl_vector_out_of_range (index size : Z)
| vnl_matrix_out_of_range (row col : Z)
| remainder_by_zero.

Inductive result (A : Type) : Type :=
| Returned (a : A)
| Thrown (e : exception)
| Undefined (u : undefined).
Arguments Returned {A} a.
Arguments Thrown {A} e.
Arguments Undefined {A} u.

(** ** The scalar type and the load payload *)

(** [Float] is a typedef of a missing header (a C++ floating point type).
    The solver only compares a value with [Float(0.0)]; the linear system
    adds values.  [Float_nonzero v] is the C++ test [v != Float(0.0)].
    [LoadElementData] stands for what an element reads from a
    [LoadElement] object when it computes [Fe]. *)
Class FEMTypes := {
  Float : Type;
  Float_zero : Float;
  Float_add : Float -> Float -> Float;
  Float_nonzero : Float -> bool;
  LoadElementData : Type
}.

(** unsigned int arithmetic *)
Definition uint32 (z : Z) : Z := z mod 2 ^ 32.

(** [v[i]] on a vnl_vector: no result outside [0, size). *)
Definition vnl_get {A : Type} (v : list A) (i : Z) : option A :=
  if 0 <=? i then v !! Z.to_nat i else None.

Section Model.
Context `{FT : FEMTypes}.

(** ** The linear system wrapper *)

(** One constructor per member function of LinearSystemWrapper the solver
    calls, with the arguments of the call. *)
Inductive ls_call : Type :=
| SetSystemOrder (N : Z)
| InitializeMatrix
| AddMatrixValue (i j : Z) (value : Float)
| SetMatrixValue (i j : Z) (value : Float)
| InitializeVector
| AddVectorValue (i : Z) (value : Float)
| SetVectorValue (i : Z) (value : Float)
| InitializeSolution
| ls_Solve.

(** Modelled from the spec: LinearSystemWrapper itself is missing.  The spec
    gives it as a sparse matrix and a vector with "set system order;
    initialize matrix to zero; accumulate a matrix entry; overwrite a matrix
    entry; initialize vector to zero; accumulate a vector entry; overwrite a
    vector entry".  An entry that was never materialised is absent from the
    map and reads as zero.  The spec does not say what setting the order
    does to the entries that are stored: in [ls_apply] they stay, and no
    property of the assemblers is stated through that choice. *)
Record LinearSystem : Type := {
  ls_order : Z;
  ls_matrix : gmap (Z * Z) Float;
  ls_vector : gmap Z Float
}.

Definition ls_empty : LinearSystem :=
  {| ls_order := 0; ls_matrix := ∅; ls_vector := ∅ |}.

Definition GetMatrixValue (L : LinearSystem) (i j : Z) : Float :=
  default Float_zero (ls_matrix L !! (i, j)).

Definition GetVectorValue (L : LinearSystem) (i : Z) : Float :=
  default Float_zero (ls_vector L !! i).

Definition ls_apply (L : LinearSystem) (c : ls_call) : LinearSystem :=
  match c with
  | SetSystemOrder N =>
      {| ls_order := N; ls_matrix := ls_matrix L; ls_vector := ls_vector L |}
  | InitializeMatrix =>
      {| ls_order := ls_order L; ls_matrix := ∅; ls_vector := ls_vector L |}
  | AddMatrixValue i j v =>
      {| ls_order := ls_order L;
         ls_matrix := <[(i, j) := Float_add (GetMatrixValue L i j) v]> (ls_matrix L);
         ls_vector := ls_vector L |}
  | SetMatrixValue i j v =>
      {| ls_order := ls_order L;
         ls_matrix := <[(i, j) := v]> (ls_matrix L);
         ls_vector := ls_vector L |}
  | InitializeVector =>
      {| ls_order := ls_order L; ls_matrix := ls_matrix L; ls_vector := ∅ |}
  | AddVectorValue i v =>
      {| ls_order := ls_order L;
         ls_matrix := ls_matrix L;
         ls_vector := <[i := Float_add (GetVectorValue L i) v]> (ls_vector L) |}
  | SetVectorValue i v =>
      {| ls_order := ls_order L;
         ls_matrix := ls_matrix L;
         ls_vector := <[i := v]> (ls_vector L) |}
  | InitializeSolution => L
  | ls_Solve => L
  end.

(** The linear system after a sequence of calls. *)
Definition ls_run (L : LinearSystem) (calls : list ls_call) : LinearSystem :=
  fold_left ls_apply calls L.

(** ** Elements and loads *)

(** What the solver asks of an element.  The DOF tables are total: the
    member functions return an identifier for every argument.
    DegreeOfFreedomIDType and the count types come from a missing header;
    they are integers here, and the comparisons with NGFN below are only
    reached with NGFN > 0, where the C++ conversions agree with the
    comparison of the mathematical values. *)
Record Element : Type := {
  GetNumberOfDegreesOfFreedom : Z;
  GetNumberOfDegreesOfFreedomPerPoint : Z;
  GetDegreeOfFreedom : Z -> Z;
  GetDegreeOfFreedomAtPoint : Z -> Z -> Z;
  Ke : list (list Float);
  Fe : LoadElementData -> list Float
}.

(** [Ke(j,k)] on the vnl_matrix copy. *)
Definition Ke_at (e : Element) (j k : Z) : option Float :=
  row ← vnl_get (Ke e) j; vnl_get row k.

(** The loads point to elements; the assemblers never change an element, so
    a load holds the element it points to. *)
Record LoadNode : Type := {
  m_element : Element;
  m_pt : Z;
  F : list Float
}.

Record LoadElement : Type := {
  LoadElement_el : list Element;
  LoadElement_data : LoadElementData
}.

(** One term of [LoadBCMFC::lhs]. *)
Record MFCTerm : Type := {
  MFCTerm_m_element : Element;
  dof : Z;
  value : Float
}.

Record LoadBCMFC : Type := {
  Index : Z;
  lhs : list MFCTerm;
  rhs : list Float
}.

(** The outcome of the dynamic_casts on a load. *)
Inductive Load : Type :=
| Load_LoadNode (l1 : LoadNode)
| Load_LoadElement (l1 : LoadElement)
| Load_LoadBCMFC (l1 : LoadBCMFC)
| Load_other (class_name : string).

Definition set_Index (l1 : LoadBCMFC) (i : Z) : LoadBCMFC :=
  {| Index := i; lhs := lhs l1; rhs := rhs l1 |}.

(** ** The solver *)

(** [m_ls] is the history of the calls made on the linear system. *)
Record Solver : Type := {
  el : list Element;
  load : list Load;
  NGFN : Z;
  NMFC : Z;
  m_ls : list ls_call
}.

(** ** Code that calls the linear system and may throw *)

(** The calls made on [m_ls], in order, and how the code ends.  The solver
    never reads the linear system back, so the calls are all it does to it. *)
Definition M (A : Type) : Type := (list ls_call * result A)%type.

Definition ret {A : Type} (a : A) : M A := ([], Returned a).

Definition bind {A B : Type} (m : M A) (k : A -> M B) : M B :=
  match m with
  | (calls, Returned a) => let '(calls', r) := k a in (calls ++ calls', r)
  | (calls, Thrown e) => (calls, Thrown e)
  | (calls, Undefined u) => (calls, Undefined u)
  end.

Definition throw {A : Type} (e : exception) : M A := ([], Thrown e).

Definition undefined_behaviour {A : Type} (u : undefined) : M A :=
  ([], Undefined u).

Definition call (c : ls_call) : M unit := ([c], Returned tt).

Fixpoint for_each {A : Type} (body : A -> M unit) (l : list A) : M unit :=
  match l with
  | [] => ret tt
  | x :: l' => bind (body x) (fun _ => for_each body l')
  end.

End Model.

Declare Scope fem_scope.
Delimit Scope fem_scope with fem.
Notation "m1 ;; m2" := (bind m1 (fun _ => m2))
  (at level 100, m2 at level 200, right associativity) : fem_scope.

Section Assembly.
Context `{FT : FEMTypes}.
Local Open Scope fem_scope.

(** ** Solver::AssembleK *)

Definition AssembleK_IllegalGFN : exception :=
  FEMExceptionSolution "Solver::AssembleK()" "Illegal GFN!".

(** The search for MFCs in the load array (lines 321-330): [n] is NMFC when
    the scan reaches [loads].  The result is the load array with the indices
    stored, [mfcLoads], and the final NMFC. *)
Fixpoint collect_MFC (loads : list Load) (n : Z)
  : list Load * list LoadBCMFC * Z :=
  match loads with
  | [] => ([], [], n)
  | Load_LoadBCMFC l1 :: rest =>
      let l1' := set_Index l1 n in
      let '(rest', mfcLoads, n') := collect_MFC rest (n + 1) in
      (Load_LoadBCMFC l1' :: rest', l1' :: mfcLoads, n')
  | l :: rest =>
      let '(rest', mfcLoads, n') := collect_MFC rest n in
      (l :: rest', mfcLoads, n')
  end.

(** The body of the two inner loops (lines 359-375). *)
Definition AssembleK_entry (ngfn : Z) (e : Element) (j k : Z) : M unit :=
  if (ngfn <=? GetDegreeOfFreedom e j) || (ngfn <=? GetDegreeOfFreedom e k)
  then throw AssembleK_IllegalGFN
  else
    match Ke_at e j k with
    | None => undefined_behaviour (vnl_matrix_out_of_range j k)
    | Some v =>
        if Float_nonzero v
        then call (AddMatrixValue (GetDegreeOfFreedom e j) (GetDegreeOfFreedom e k) v)
        else ret tt
    end.

(** The body of the loop over the elements (lines 350-379). *)
Definition AssembleK_element (ngfn : Z) (e : Element) : M unit :=
  let Ne := GetNumberOfDegreesOfFreedom e in
  for_each (fun j => for_each (fun k => AssembleK_entry ngfn e j k) (seqZ 0 Ne))
           (seqZ 0 Ne).

(** The body of the loop over the terms of an MFC (lines 395-405). *)
Definition AssembleK_term (ngfn : Z) (c : LoadBCMFC) (q : MFCTerm) : M unit :=
  let gfn := GetDegreeOfFreedom (MFCTerm_m_element q) (dof q) in
  if ngfn <=? gfn
  then throw AssembleK_IllegalGFN
  else
    call (SetMatrixValue gfn (ngfn + Index c) (value q)) ;;
    call (SetMatrixValue (ngfn + Index c) gfn (value q)).

Definition AssembleK_MFC (ngfn : Z) (c : LoadBCMFC) : M unit :=
  for_each (AssembleK_term ngfn c) (lhs c).

(** What AssembleK does with the linear system once the MFCs are known. *)
Definition AssembleK_body (ngfn nmfc : Z) (els : list Element)
    (mfcLoads : list LoadBCMFC) : M unit :=
  call (SetSystemOrder (ngfn + nmfc)) ;;
  call InitializeMatrix ;;
  for_each (AssembleK_element ngfn) els ;;
  for_each (AssembleK_MFC ngfn) mfcLoads.

Definition AssembleK (s : Solver) : Solver * result unit :=
  if NGFN s <=? 0 then (s, Returned tt)
  else
    let '(load', mfcLoads, nmfc) := collect_MFC (load s) 0 in
    let '(calls, r) := AssembleK_body (NGFN s) nmfc (el s) mfcLoads in
    ({| el := el s; load := load'; NGFN := NGFN s; NMFC := nmfc;
        m_ls := m_ls s ++ calls |}, r).

(** ** Solver::AssembleF *)

Definition AssembleF_IllegalGFN : exception :=
  FEMExceptionSolution "Solver::AssembleF()" "Illegal GFN!".

Definition AssembleF_IllegalSize : exception :=
  FEMExceptionSolution "Solver::AssembleF()"
    "Illegal size of a force vector in LoadNode object!".

(** The index [dof + P*dim] of line 470: [dof] is an unsigned int, so the sum
    is computed in unsigned int. *)
Definition LoadNode_index (P dim dof : Z) : Z := uint32 (dof + P * dim).

(** The body of the loop over the DOFs of the point (lines 458-470).  The
    arguments of AddVectorValue are evaluated before the call. *)
Definition AssembleF_LoadNode_dof (ngfn dim : Z) (l1 : LoadNode) (d : Z) : M unit :=
  let P := GetNumberOfDegreesOfFreedomPerPoint (m_element l1) in
  let gfn := GetDegreeOfFreedomAtPoint (m_element l1) (m_pt l1) d in
  if ngfn <=? gfn
  then throw AssembleF_IllegalGFN
  else
    match vnl_get (F l1) (LoadNode_index P dim d) with
    | None => undefined_behaviour
                (vnl_vector_out_of_range (LoadNode_index P dim d) (Z.of_nat (length (F l1))))
    | Some v => call (AddVectorValue gfn v)
    end.

(** Nodal loads (lines 446-475). *)
Definition AssembleF_LoadNode (ngfn dim : Z) (l1 : LoadNode) : M unit :=
  let P := GetNumberOfDegreesOfFreedomPerPoint (m_element l1) in
  if P =? 0 then undefined_behaviour remainder_by_zero
  else if negb (Z.of_nat (length (F l1)) `mod` P =? 0)
  then throw AssembleF_IllegalSize
  else for_each (AssembleF_LoadNode_dof ngfn dim l1) (seqZ 0 P).

(** The index [j + dim*Ne] of lines 507 and 530, in unsigned int. *)
Definition LoadElement_index (Ne dim j : Z) : Z := uint32 (j + dim * Ne).

(** The body of the loop over the DOFs of an element (lines 500-507 and
    524-530). *)
Definition AssembleF_LoadElement_dof (ngfn dim : Z) (el0 : Element)
    (Fe0 : list Float) (j : Z) : M unit :=
  let Ne := GetNumberOfDegreesOfFreedom el0 in
  if ngfn <=? GetDegreeOfFreedom el0 j
  then throw AssembleF_IllegalGFN
  else
    match vnl_get Fe0 (LoadElement_index Ne dim j) with
    | None => undefined_behaviour
                (vnl_vector_out_of_range (LoadElement_index Ne dim j) (Z.of_nat (length Fe0)))
    | Some v => call (AddVectorValue (GetDegreeOfFreedom el0 j) v)
    end.

(** One element under an element load (lines 493-508 and 519-532). *)
Definition AssembleF_LoadElement_on (ngfn dim : Z) (l1 : LoadElement)
    (el0 : Element) : M unit :=
  let Fe0 := Fe el0 (LoadElement_data l1) in
  let Ne := GetNumberOfDegreesOfFreedom el0 in
  for_each (AssembleF_LoadElement_dof ngfn dim el0 Fe0) (seqZ 0 Ne).

(** Element loads (lines 481-540). *)
Definition AssembleF_LoadElement (ngfn dim : Z) (els : list Element)
    (l1 : LoadElement) : M unit :=
  match LoadElement_el l1 with
  | [] => for_each (AssembleF_LoadElement_on ngfn dim l1) els
  | targets => for_each (AssembleF_LoadElement_on ngfn dim l1) targets
  end.

(** MFC loads (lines 545-551); [rhs[dim]] converts [dim] to unsigned int. *)
Definition AssembleF_LoadBCMFC (ngfn dim : Z) (l1 : LoadBCMFC) : M unit :=
  match vnl_get (rhs l1) (uint32 dim) with
  | None => undefined_behaviour
              (vnl_vector_out_of_range (uint32 dim) (Z.of_nat (length (rhs l1))))
  | Some r => call (SetVectorValue (ngfn + Index l1) r)
  end.

(** The body of the loop over the loads (lines 430-559): what it calls on
    the wrapper and how it ends.  [l0->SetSolution(m_ls)] of line 441 is a
    call on the load, whose class is in a missing file: it hands the pointer
    to the wrapper to the load and calls nothing on the wrapper.  The loads
    of this model hold no such pointer, so the model says nothing about the
    state of the load objects after AssembleF. *)
Definition AssembleF_load (ngfn dim : Z) (els : list Element) (l0 : Load) : M unit :=
  match l0 with
  | Load_LoadNode l1 => AssembleF_LoadNode ngfn dim l1
  | Load_LoadElement l1 => AssembleF_LoadElement ngfn dim els l1
  | Load_LoadBCMFC l1 => AssembleF_LoadBCMFC ngfn dim l1
  | Load_other _ => ret tt
  end.

Definition AssembleF_body (ngfn dim : Z) (els : list Element)
    (loads : list Load) : M unit :=
  call InitializeVector ;;
  for_each (AssembleF_load ngfn dim els) loads.

Definition with_m_ls (s : Solver) (ls : list ls_call) : Solver :=
  {| el := el s; load := load s; NGFN := NGFN s; NMFC := NMFC s; m_ls := ls |}.

Definition AssembleF (dim : Z) (s : Solver) : Solver * result unit :=
  if NGFN s <=? 0 then (s, Returned tt)
  else
    let '(calls, r) := AssembleF_body (NGFN s) dim (el s) (load s) in
    (with_m_ls s (m_ls s ++ calls), r).

(** ** Solver::DecomposeK, Solver::Solve, Solver::UpdateDisplacements *)

Definition DecomposeK (s : Solver) : Solver := s.

Definition Solve (s : Solver) : Solver :=
  with_m_ls s (m_ls s ++ [InitializeSolution; ls_Solve]).

Definition UpdateDisplacements (s : Solver) : Solver := s.

End Assembly.

(** ** Solver::GenerateGFN *)

(** int arithmetic on values that are converted to int *)
Definition int32 (z : Z) : Z := (z + 2 ^ 31) mod 2 ^ 32 - 2 ^ 31.

(** Node and Element are classes of missing files.  [Objects] is the state of
    the node and element objects the arrays [node] and [el] point to,
    together with the static DOF counter of Element; a node or an element is
    named by its position in its array.  Each operation is one call of the
    source. *)
Class ElementClass := {
  Objects : Type;
  m_elements_clear : nat -> Objects -> Objects;
  ClearDegreesOfFreedom : nat -> Objects -> Objects;
  GetNumberOfPoints : nat -> Objects -> Z;
  m_elements_insert : nat -> Z -> Objects -> Objects;
  ResetGlobalDOFCounter : Objects -> Objects;
  LinkDegreesOfFreedom : nat -> Objects -> Objects;
  GetGlobalDOFCounter : Objects -> Z
}.

Section Numbering.
Context `{EC : ElementClass}.

(** The body of the first loop over the elements (lines 265-274). *)
Definition GenerateGFN_clear (o : Objects) (e : nat) : Objects :=
  let o := ClearDegreesOfFreedom e o in
  let Npts := GetNumberOfPoints e o in
  foldl (fun o pt => m_elements_insert e pt o) o (seqZ 0 Npts).

(** [n_node] and [n_el] are the sizes of the arrays.  The result is the
    objects, NGFN and how the call ends.  Nothing follows the test of line
    294, so both branches return. *)
Definition GenerateGFN (n_node n_el : nat) (o : Objects)
  : Objects * Z * result unit :=
  let o := foldl (fun o n => m_elements_clear n o) o (seq 0 n_node) in
  let o := foldl GenerateGFN_clear o (seq 0 n_el) in
  let o := ResetGlobalDOFCounter o in
  let o := foldl (fun o e => LinkDegreesOfFreedom e o) o (seq 0 n_el) in
  let ngfn := int32 (GetGlobalDOFCounter o + 1) in
  if 0 <? ngfn then (o, ngfn, Returned tt)
  else (o, ngfn, Returned tt).

End Numbering.

(** ** std::istream and std::string *)

(** The stream as the reader sees it: the characters, the get position and
    the state bits (badbit is never set by the operations below).  The
    operations follow the text of the C++ standard of 1998, the one the
    source was written for: [tellg] and [seekg] only look at failbit, and
    [seekg] leaves eofbit as it is. *)
Record istream : Type := {
  content : list ascii;
  gpos : nat;
  eofbit : bool;
  failbit : bool
}.

Definition good (f : istream) : bool := negb (eofbit f) && negb (failbit f).

Definition setstate (eof fail : bool) (f : istream) : istream :=
  {| content := content f; gpos := gpos f;
     eofbit := eofbit f || eof; failbit := failbit f || fail |}.

Definition set_gpos (p : nat) (f : istream) : istream :=
  {| content := content f; gpos := p; eofbit := eofbit f; failbit := failbit f |}.

(** [tellg]: -1 on a failed stream. *)
Definition tellg (f : istream) : Z :=
  if failbit f then -1 else Z.of_nat (gpos f).

(** [seekg]: no effect on a failed stream; an invalid position fails. *)
Definition seekg (l : Z) (f : istream) : istream :=
  if failbit f then f
  else if l <? 0 then setstate false true f
  else set_gpos (Z.to_nat l) f.

Definition EOF : Z := -1.

(** [get()]: the next character as an int, or EOF. *)
Definition get (f : istream) : Z * istream :=
  if good f then
    match content f !! gpos f with
    | Some c => (Z.of_nat (nat_of_ascii c), set_gpos (S (gpos f)) f)
    | None => (EOF, setstate true true f)
    end
  else (EOF, setstate false true f).

(** The extraction loop of [getline(buf,n,delim)] on the characters that are
    left, with room for [room] characters: the characters stored, the number
    extracted, and whether the loop ended on end of file or on a full
    buffer.  The three tests are made in this order. *)
Fixpoint getline_scan (room : nat) (delim : ascii) (rest : list ascii)
  : list ascii * nat * bool * bool :=
  match rest with
  | [] => ([], O, true, false)
  | c :: rest' =>
      if Ascii.eqb c delim then ([], 1%nat, false, false)
      else
        match room with
        | O => ([], O, false, true)
        | S room' =>
            let '(s, k, e, fl) := getline_scan room' delim rest' in
            (c :: s, S k, e, fl)
        end
  end.

(** [getline(buf,n,delim)]: failbit also when nothing was extracted. *)
Definition getline (n : nat) (delim : ascii) (f : istream)
  : list ascii * istream :=
  if good f then
    let '(s, k, e, fl) := getline_scan (n - 1) delim (drop (gpos f) (content f)) in
    (s, setstate e (fl || Nat.eqb k 0) (set_gpos (gpos f + k) f))
  else ([], setstate false true f).

(** [std::string(buf)]: the characters before the first NUL. *)
Fixpoint c_str (buf : list ascii) : list ascii :=
  match buf with
  | [] => []
  | c :: buf' => if Ascii.eqb c zero then [] else c :: c_str buf'
  end.

(** std::string::size_type *)
Definition npos : Z := 2 ^ 64 - 1.
Definition size_type (z : Z) : Z := z mod 2 ^ 64.

(** [s.size()] *)
Definition string_size (s : list ascii) : Z := Z.of_nat (length s).

Definition is_one_of (chars : list ascii) (c : ascii) : bool :=
  existsb (Ascii.eqb c) chars.

(** The position of the first character of [s] that satisfies [p], when the
    first character of [s] has position [i]. *)
Fixpoint find_if (p : ascii -> bool) (s : list ascii) (i : Z) : Z :=
  match s with
  | [] => npos
  | c :: s' => if p c then i else find_if p s' (i + 1)
  end.

Definition find_first_of (s chars : list ascii) (pos : Z) : Z :=
  if pos <? string_size s then find_if (is_one_of chars) (drop (Z.to_nat pos) s) pos
  else npos.

Definition find_first_not_of (s chars : list ascii) (pos : Z) : Z :=
  if pos <? string_size s
  then find_if (fun c => negb (is_one_of chars c)) (drop (Z.to_nat pos) s) pos
  else npos.

(** [s.substr(pos,n)]: throws std::out_of_range when [pos > size()]. *)
Definition substr (s : list ascii) (pos n : Z) : option (list ascii) :=
  if string_size s <? pos then None
  else Some (take (Z.to_nat n) (drop (Z.to_nat pos) s)).

(** The token of lines 58-65 from the characters of [buf]. *)
Definition token (whitespaces buf : list ascii) : option (list ascii) :=
  let s := c_str buf in
  let b := find_first_not_of s whitespaces 0 in
  let e := find_first_of s whitespaces b in
  let e := if e =? npos then string_size s else e in
  substr s b (size_type (e - b)).

(** ** Solver::ReadAnyObjectFromStream *)

(** The pointer handed to [Read]: the arrays an element or a load resolves
    its references in, or the null pointer. *)
Inductive ReadInfoType (Obj : Type) : Type :=
| Element_ReadInfoType (node mat : list Obj)
| Load_ReadInfoType (node el : list Obj)
| no_info.
Arguments Element_ReadInfoType {Obj} node mat.
Arguments Load_ReadInfoType {Obj} node el.
Arguments no_info {Obj}.

(** FEMLightObject, FEMObjectFactory and itkFEMUtility are missing files.
    [whitespaces] is the constant and [SkipWhiteSpace] the function of
    itkFEMUtility; skipping leaves the characters of the stream in place and
    does not move backwards.  [is_Element] and [is_Load] are the outcomes of
    the dynamic_casts; [Read a f info] is the virtual [a->Read(f,info)]: the
    stream it leaves, and the object read or the exception thrown. *)
Class Persistence := {
  FEMLightObject : Type;
  whitespaces : list ascii;
  SkipWhiteSpace : istream -> istream;
  SkipWhiteSpace_content : forall f, content (SkipWhiteSpace f) = content f;
  SkipWhiteSpace_gpos : forall f, (gpos f <= gpos (SkipWhiteSpace f))%nat;
  ClassName2ID : string -> Z;
  Create : Z -> option FEMLightObject;
  is_Element : FEMLightObject -> bool;
  is_Load : FEMLightObject -> bool;
  Read : FEMLightObject -> istream -> ReadInfoType FEMLightObject
         -> istream * result FEMLightObject
}.

Section Reading.
Context `{PS : Persistence}.

(** The four arrays of the solver, as arrays of objects. *)
Record SolverArrays : Type := {
  node : list FEMLightObject;
  mat : list FEMLightObject;
  el_array : list FEMLightObject;
  load_array : list FEMLightObject
}.

Definition ReadAnyObjectFromStream_error : exception :=
  FEMExceptionIO "Solver::ReadAnyObjectFromStream()"
    "Error reading FEM problem stream!".

(** The code at the label [out] (lines 134-145). *)
Definition ReadAnyObjectFromStream_out (l : Z) (f : istream)
  : istream * result (option FEMLightObject) :=
  (seekg l f, Thrown ReadAnyObjectFromStream_error).

(** The additional data for [Read] (lines 96-112). *)
Definition read_info (S : SolverArrays) (a : FEMLightObject)
  : ReadInfoType FEMLightObject :=
  if is_Element a then Element_ReadInfoType (node S) (mat S)
  else if is_Load a then Load_ReadInfoType (node S) (el_array S)
  else no_info.

(** One pass from the label [start] (lines 51-145): the function is left
    with a stream and a result ([inl]; a null pointer is [Returned None]),
    or the token was END and control goes back to [start] ([inr]). *)
Definition ReadAnyObjectFromStream_pass (S : SolverArrays) (f : istream)
  : (istream * result (option FEMLightObject)) + istream :=
  let l := tellg f in
  let f := SkipWhiteSpace f in
  if eofbit f then inl (f, Returned None)
  else
    let '(c, f) := get f in
    if negb (c =? Z.of_nat (nat_of_ascii "<"))
    then inl (ReadAnyObjectFromStream_out l f)
    else
      let '(buf, f) := getline 256 ">" f in
      match token whitespaces buf with
      | None => inl (f, Thrown std_out_of_range)
      | Some s =>
          if String.eqb (string_of_list_ascii s) "END" then inr f
          else
            let clID := ClassName2ID (string_of_list_ascii s) in
            if clID <? 0 then inl (ReadAnyObjectFromStream_out l f)
            else
              match Create clID with
              | None => inl (ReadAnyObjectFromStream_out l f)
              | Some a =>
                  match Read a f (read_info S a) with
                  | (f, Returned a) => inl (f, Returned (Some a))
                  | (f, Thrown e) => inl (f, Thrown e)
                  | (f, Undefined u) => inl (f, Undefined u)
                  end
              end
      end.

(** The passes, one for each unit of fuel; [None] when the fuel runs out. *)
Fixpoint ReadAnyObjectFromStream_fuel (fuel : nat) (S : SolverArrays)
    (f : istream) : option (istream * result (option FEMLightObject)) :=
  match fuel with
  | O => None
  | Datatypes.S fuel' =>
      match ReadAnyObjectFromStream_pass S f with
      | inl r => Some r
      | inr f' => ReadAnyObjectFromStream_fuel fuel' S f'
      end
  end.

(** Every pass that goes back to [start] has read a character, so one unit
    of fuel for each character that is left, and one more, is enough. *)
Definition ReadAnyObjectFromStream (S : SolverArrays) (f : istream)
  : option (istream * result (option FEMLightObject)) :=
  ReadAnyObjectFromStream_fuel (Datatypes.S (length (content f) - gpos f)) S f.

End Reading.

(** ** The work of AssembleK as one sequence *)

Section WorkList.
Context `{FT : FEMTypes}.

(** One pass through the innermost loop body of AssembleK: an entry of an
    element matrix, or a term of an MFC. *)
Inductive K_item : Type :=
| K_entry (e : Element) (j k : Z)
| K_term (c : LoadBCMFC) (q : MFCTerm).

(** The entries of an element in the order the loops visit them. *)
Definition element_entries (e : Element) : list K_item :=
  let Ne := GetNumberOfDegreesOfFreedom e in
  flat_map (fun j => map (K_entry e j) (seqZ 0 Ne)) (seqZ 0 Ne).

Definition MFC_terms (c : LoadBCMFC) : list K_item := map (K_term c) (lhs c).

Definition K_items (els : list Element) (mfcLoads : list LoadBCMFC) : list K_item :=
  flat_map element_entries els ++ flat_map MFC_terms mfcLoads.

Definition AssembleK_item (ngfn : Z) (it : K_item) : M unit :=
  match it with
  | K_entry e j k => AssembleK_entry ngfn e j k
  | K_term c q => AssembleK_term ngfn c q
  end.

(** The global DOF of a term. *)
Definition term_gfn (q : MFCTerm) : Z :=
  GetDegreeOfFreedom (MFCTerm_m_element q) (dof q).

(** The test of lines 360-361 and 399: some global DOF is not below NGFN. *)
Definition illegal_GFN (ngfn : Z) (it : K_item) : bool :=
  match it with
  | K_entry e j k =>
      (ngfn <=? GetDegreeOfFreedom e j) || (ngfn <=? GetDegreeOfFreedom e k)
  | K_term c q => ngfn <=? term_gfn q
  end.

(** [mfcLoads] and the items of a call of AssembleK. *)
Definition mfcLoads (s : Solver) : list LoadBCMFC := (collect_MFC (load s) 0).1.2.

Definition AssembleK_items (s : Solver) : list K_item :=
  K_items (el s) (mfcLoads s).

(** The element matrix has an entry for every pair the loops visit. *)
Definition Ke_covers (e : Element) : Prop :=
  forall j k, 0 <= j < GetNumberOfDegreesOfFreedom e ->
              0 <= k < GetNumberOfDegreesOfFreedom e ->
              is_Some (Ke_at e j k).

(** The item reads an entry the element matrix has. *)
Definition K_defined (it : K_item) : Prop :=
  match it with
  | K_entry e j k => is_Some (Ke_at e j k)
  | K_term _ _ => True
  end.

(** The matrix is symmetric on the rows and columns of the multipliers. *)
Definition multiplier_symmetric (ngfn : Z) (m : gmap (Z * Z) Float) : Prop :=
  forall p q, ngfn <= p \/ ngfn <= q -> m !! (p, q) = m !! (q, p).

(** Calls that write the matrix entry (p,q). *)
Definition writes_entry (p q : Z) (c : ls_call) : Prop :=
  match c with
  | AddMatrixValue i j _ | SetMatrixValue i j _ => (i, j) = (p, q)
  | _ => False
  end.

(** Calls that leave the matrix entry (p,q) as it is. *)
Definition keeps_entry (p q : Z) (c : ls_call) : Prop :=
  match c with
  | AddMatrixValue i j _ | SetMatrixValue i j _ => (i, j) <> (p, q)
  | SetSystemOrder _ | InitializeMatrix => False
  | _ => True
  end.

(** The result of a read at or after the end of a vector of [size] entries. *)
Definition past_the_end (size : Z) (r : result unit) : Prop :=
  exists i, size <= i /\ r = Undefined (vnl_vector_out_of_range i size).

(** The elements an element load applies to (lines 484 and 511). *)
Definition LoadElement_targets (els : list Element) (l1 : LoadElement)
  : list Element :=
  match LoadElement_el l1 with
  | [] => els
  | targets => targets
  end.

(** The calls the code added to the history of a solver. *)
Definition new_calls (s s' : Solver) : list ls_call :=
  drop (length (m_ls s)) (m_ls s').

Definition is_MFC (l : Load) : bool :=
  match l with Load_LoadBCMFC _ => true | _ => false end.

(** Two loads that differ at most in the index stored in an MFC. *)
Definition same_but_Index (l l' : Load) : Prop :=
  match l, l' with
  | Load_LoadBCMFC c, Load_LoadBCMFC c' => lhs c' = lhs c /\ rhs c' = rhs c
  | _, _ => l' = l
  end.

Definition the_MFCs (loads : list Load) : list LoadBCMFC :=
  omap (fun l => match l with Load_LoadBCMFC c => Some c | _ => None end) loads.

End WorkList.

(** ** Instances the examples run on *)

(** Integers for the scalars; an element load carries no data. *)
Definition Z_FEMTypes : FEMTypes :=
  {| Float := Z; Float_zero := 0; Float_add := Z.add;
     Float_nonzero := fun v => negb (v =? 0); LoadElementData := unit |}.

(** Objects that are only the DOF counter: numbering starts below zero and
    each element links one DOF. *)
Definition counter_ElementClass : ElementClass :=
  {| Objects := Z;
     m_elements_clear := fun _ o => o;
     ClearDegreesOfFreedom := fun _ o => o;
     GetNumberOfPoints := fun _ _ => 1;
     m_elements_insert := fun _ _ o => o;
     ResetGlobalDOFCounter := fun _ => -1;
     LinkDegreesOfFreedom := fun _ o => o + 1;
     GetGlobalDOFCounter := fun o => o |}.

(** Modelled from the spec: SkipWhiteSpace of itkFEMUtility is missing.  The
    spec has each record "optionally preceded by whitespace/comment to be
    skipped", and Write (line 227) starts a comment with a percent sign and
    ends it with the line.  [skip_scan] counts the characters to skip;
    [in_comment] says whether the scan is inside a comment. *)
Fixpoint skip_scan (in_comment : bool) (rest : list ascii) : nat :=
  match rest with
  | [] => O
  | c :: rest' =>
      if in_comment then S (skip_scan (negb (Ascii.eqb c "010")) rest')
      else if is_one_of [" "; "009"; "010"; "011"; "012"; "013"]%char c
      then S (skip_scan false rest')
      else if Ascii.eqb c "%" then S (skip_scan true rest')
      else O
  end.

(** Reaching the end of the characters sets eofbit; a stream that is not
    good is left alone. *)
Definition SkipWhiteSpace_model (f : istream) : istream :=
  if good f then
    let p := (gpos f + skip_scan false (drop (gpos f) (content f)))%nat in
    setstate (length (content f) <=? p)%nat false (set_gpos p f)
  else f.

(** A registry of two classes.  An object is its class name and the digit
    its [Read] takes from the stream; [Read] fails on any other character,
    which it has read by then. *)
Definition example_Read (a : string * Z) (f : istream)
    (info : ReadInfoType (string * Z)) : istream * result (string * Z) :=
  let '(c, f') := get f in
  if (48 <=? c) && (c <=? 57) then (f', Returned (a.1, c - 48))
  else (f', Thrown (FEMExceptionIO "FEMLightObject::Read()" "not a digit")).

Definition example_Persistence : Persistence.
Proof.
  refine
    {| FEMLightObject := (string * Z)%type;
       whitespaces := [" "; "009"; "010"; "013"]%char;
       SkipWhiteSpace := SkipWhiteSpace_model;
       ClassName2ID := fun s =>
         if String.eqb s "Node" then 0
         else if String.eqb s "Load" then 1
         else if String.eqb s "Abstract" then 2
         else -1;
       Create := fun clID =>
         if clID =? 0 then Some ("Node"%string, 0)
         else if clID =? 1 then Some ("Load"%string, 0)
         else None;
       is_Element := fun _ => false;
       is_Load := fun a => String.eqb a.1 "Load";
       Read := example_Read |}.
  - intros f. unfold SkipWhiteSpace_model. destruct (good f); reflexivity.
  - intros f. unfold SkipWhiteSpace_model. destruct (good f); simpl; lia.
Defined.

Definition stream_of (s : string) : istream :=
  {| content := list_ascii_of_string s; gpos := 0; eofbit := false;
     failbit := false |}.

Definition no_arrays : @SolverArrays example_Persistence :=
  {| node := []; mat := []; el_array := []; load_array := [] |}.

Section ExampleData.
#[local] Existing Instance Z_FEMTypes.

(** The element of the scenarios of the spec: two nodes, one DOF per node,
    DOF 0 at node 0 and DOF 1 at node 1. *)
Definition bar : Element :=
  {| GetNumberOfDegreesOfFreedom := 2;
     GetNumberOfDegreesOfFreedomPerPoint := 1;
     GetDegreeOfFreedom := fun j => j;
     GetDegreeOfFreedomAtPoint := fun pt d => pt + d;
     Ke := [[1; -1]; [-1; 1]];
     Fe := fun _ => [3; 4] |}.

(** The same element with its second DOF numbered 7. *)
Definition bad_bar : Element :=
  {| GetNumberOfDegreesOfFreedom := 2;
     GetNumberOfDegreesOfFreedomPerPoint := 1;
     GetDegreeOfFreedom := fun j => if j =? 1 then 7 else j;
     GetDegreeOfFreedomAtPoint := fun pt d => if pt + d =? 1 then 7 else pt + d;
     Ke := [[1; -1]; [-1; 1]];
     Fe := fun _ => [3; 4] |}.

(** An element with two DOFs per point. *)
Definition plane_bar : Element :=
  {| GetNumberOfDegreesOfFreedom := 2;
     GetNumberOfDegreesOfFreedomPerPoint := 2;
     GetDegreeOfFreedom := fun j => j;
     GetDegreeOfFreedomAtPoint := fun pt d => 2 * pt + d;
     Ke := [[1; 0]; [0; 1]];
     Fe := fun _ => [3; 4] |}.


(** The constraint of the second scenario: one term, coefficient 1 on DOF 0,
    right-hand side 0. *)
Definition fix_term : MFCTerm :=
  {| MFCTerm_m_element := bar; dof := 0; value := 1 |}.

Definition fix_node0 : LoadBCMFC :=
  {| Index := 0; lhs := [fix_term]; rhs := [0] |}.

Definition force5_LoadNode : LoadNode :=
  {| m_element := bar; m_pt := 1; F := [5] |}.

Definition short_LoadNode : LoadNode :=
  {| m_element := plane_bar; m_pt := 0; F := [5] |}.

Definition gravity_LoadElement : LoadElement :=
  {| LoadElement_el := []; LoadElement_data := tt |}.

Definition force5 : Load := Load_LoadNode force5_LoadNode.

Definition gravity : Load := Load_LoadElement gravity_LoadElement.

Definition solver_of (els : list Element) (loads : list Load) (ngfn : Z) : Solver :=
  {| el := els; load := loads; NGFN := ngfn; NMFC := 0; m_ls := [] |}.

(** A nodal load with one force on an element with two DOFs per point. *)
Definition short_force : Load := Load_LoadNode short_LoadNode.

(** The second scenario of the spec. *)
Definition bar_system : Solver :=
  solver_of [bar] [force5; Load_LoadBCMFC fix_node0] 2.

Definition bad_system : Solver :=
  solver_of [bad_bar] [force5; Load_LoadBCMFC fix_node0] 2.

Definition short_force_system : Solver :=
  solver_of [bar; plane_bar] [force5; short_force] 2.

(** A bar whose element matrix has one row only. *)
Definition short_Ke_bar : Element :=
  {| GetNumberOfDegreesOfFreedom := 2;
     GetNumberOfDegreesOfFreedomPerPoint := 1;
     GetDegreeOfFreedom := fun j => j;
     GetDegreeOfFreedomAtPoint := fun pt d => pt + d;
     Ke := [[1; -1]];
     Fe := fun _ => [3; 4] |}.

(** Two DOFs per point, the second of each point numbered 9. *)
Definition bad_plane_bar : Element :=
  {| GetNumberOfDegreesOfFreedom := 2;
     GetNumberOfDegreesOfFreedomPerPoint := 2;
     GetDegreeOfFreedom := fun j => j;
     GetDegreeOfFreedomAtPoint := fun pt d => if d =? 1 then 9 else 2 * pt + d;
     Ke := [[1; 0]; [0; 1]];
     Fe := fun _ => [3; 4] |}.

Definition force56_LoadNode : LoadNode :=
  {| m_element := bad_plane_bar; m_pt := 0; F := [5; 6] |}.

End ExampleData.

(** ** What the calls of an assembler may be *)

Section CallShapes.
Context `{FT : FEMTypes}.

(** A call AssembleK may make once the system has [ngfn] DOFs and [nmfc]
    MFCs: the sizing calls, an accumulation below NGFN, or an overwrite that
    pairs a DOF below NGFN with the row or column of a multiplier. *)
Definition AssembleK_call_ok (ngfn nmfc : Z) (c : ls_call) : Prop :=
  match c with
  | SetSystemOrder N => N = ngfn + nmfc
  | InitializeMatrix => True
  | AddMatrixValue i j _ => i < ngfn /\ j < ngfn
  | SetMatrixValue i j _ =>
      (i < ngfn /\ ngfn <= j < ngfn + nmfc) \/ (ngfn <= i < ngfn + nmfc /\ j < ngfn)
  | _ => False
  end.

(** A call AssembleF may make: the initialisation, an accumulation below
    NGFN, or an overwrite at the row of a multiplier. *)
Definition AssembleF_call_ok (ngfn nmfc : Z) (c : ls_call) : Prop :=
  match c with
  | InitializeVector => True
  | AddVectorValue i _ => i < ngfn
  | SetVectorValue i _ => ngfn <= i < ngfn + nmfc
  | _ => False
  end.

(** Calls that leave the matrix and the order of the system alone. *)
Definition vector_call (c : ls_call) : Prop :=
  match c with
  | InitializeVector | AddVectorValue _ _ | SetVectorValue _ _ => True
  | _ => False
  end.

(** Calls on the entries of the matrix: they leave the vector and the order
    of the system alone. *)
Definition matrix_call (c : ls_call) : Prop :=
  match c with
  | InitializeMatrix | AddMatrixValue _ _ _ | SetMatrixValue _ _ _ => True
  | _ => False
  end.

Definition is_other (l : Load) : bool :=
  match l with Load_other _ => true | _ => false end.

Definition with_load (s : Solver) (loads : list Load) : Solver :=
  {| el := el s; load := loads; NGFN := NGFN s; NMFC := NMFC s; m_ls := m_ls s |}.

(** The calls of the first [n] DOFs of a nodal load whose DOFs and indices
    are in range, and the calls of them all. *)
Definition LoadNode_calls_before (dim : Z) (l1 : LoadNode) (n : Z) : list ls_call :=
  let P := GetNumberOfDegreesOfFreedomPerPoint (m_element l1) in
  zip_with (fun d v => AddVectorValue (GetDegreeOfFreedomAtPoint (m_element l1) (m_pt l1) d) v)
    (seqZ 0 n) (take (Z.to_nat n) (drop (Z.to_nat (P * dim)) (F l1))).

Definition LoadNode_calls (dim : Z) (l1 : LoadNode) : list ls_call :=
  LoadNode_calls_before dim l1 (GetNumberOfDegreesOfFreedomPerPoint (m_element l1)).

(** The calls of an element load on one element, likewise. *)
Definition LoadElement_calls_before (dim : Z) (l1 : LoadElement) (el0 : Element)
    (n : Z) : list ls_call :=
  let Ne := GetNumberOfDegreesOfFreedom el0 in
  zip_with (fun j v => AddVectorValue (GetDegreeOfFreedom el0 j) v)
    (seqZ 0 n)
    (take (Z.to_nat n) (drop (Z.to_nat (dim * Ne)) (Fe el0 (LoadElement_data l1)))).

Definition LoadElement_calls (dim : Z) (l1 : LoadElement) (el0 : Element)
  : list ls_call :=
  LoadElement_calls_before dim l1 el0 (GetNumberOfDegreesOfFreedom el0).

End CallShapes.

(** ** Solver::Read *)

(** What Solver::Read needs besides: the outcomes of the dynamic_casts to
    Node and to Material.  An object's [Read] leaves the characters of the
    stream in place and does not move backwards. *)
Class ObjectKinds `{PS : Persistence} := {
  is_Node : FEMLightObject -> bool;
  is_Material : FEMLightObject -> bool;
  Read_content : forall a f info, content (Read a f info).1 = content f;
  Read_gpos : forall a f info, (gpos f <= gpos (Read a f info).1)%nat
}.

Section SolverRead.
Context `{OK : ObjectKinds}.

Definition cleared : SolverArrays :=
  {| node := []; mat := []; el_array := []; load_array := [] |}.

Definition Solver_Read_error : exception :=
  FEMExceptionIO "Solver::Read()" "Error reading FEM problem stream!".

(** The array an object goes to (lines 178-197), or [None] when it is none of
    the four kinds. *)
Definition Solver_Read_store (S : SolverArrays) (o : FEMLightObject)
  : option SolverArrays :=
  if is_Node o then
    Some {| node := node S ++ [o]; mat := mat S; el_array := el_array S;
            load_array := load_array S |}
  else if is_Material o then
    Some {| node := node S; mat := mat S ++ [o]; el_array := el_array S;
            load_array := load_array S |}
  else if is_Element o then
    Some {| node := node S; mat := mat S; el_array := el_array S ++ [o];
            load_array := load_array S |}
  else if is_Load o then
    Some {| node := node S; mat := mat S; el_array := el_array S;
            load_array := load_array S ++ [o] |}
  else None.

(** The do-while loop of Solver::Read (lines 165-212), one object for each
    unit of fuel: the arrays, the stream and how the loop ends. *)
Fixpoint Solver_Read_loop (fuel : nat) (S : SolverArrays) (f : istream)
  : option (SolverArrays * istream * result unit) :=
  match fuel with
  | O => None
  | Datatypes.S fuel' =>
      match ReadAnyObjectFromStream S f with
      | None => None
      | Some (f', Returned None) => Some (S, f', Returned tt)
      | Some (f', Returned (Some o)) =>
          match Solver_Read_store S o with
          | Some S' => Solver_Read_loop fuel' S' f'
          | None => Some (S, f', Thrown Solver_Read_error)
          end
      | Some (f', Thrown e) => Some (S, f', Thrown e)
      | Some (f', Undefined u) => Some (S, f', Undefined u)
      end
  end.

(** The loop from given arrays, with a unit of fuel for each character that
    is left and one more. *)
Definition Solver_Read_from (S : SolverArrays) (f : istream)
  : option (SolverArrays * istream * result unit) :=
  Solver_Read_loop (Datatypes.S (length (content f) - gpos f)) S f.

(** Solver::Read: the arrays are cleared first. *)
Definition Solver_Read (S : SolverArrays) (f : istream)
  : option (SolverArrays * istream * result unit) :=
  Solver_Read_from cleared f.

(** Each array holds the objects of its kind, where the kind of an object is
    the first of Node, Material, Element and Load it can be cast to. *)
Definition sorted_by_kind (S : SolverArrays) : Prop :=
  Forall (fun o => is_Node o = true) (node S)
  /\ Forall (fun o => is_Node o = false /\ is_Material o = true) (mat S)
  /\ Forall (fun o => is_Node o = false /\ is_Material o = false
                      /\ is_Element o = true) (el_array S)
  /\ Forall (fun o => is_Node o = false /\ is_Material o = false
                      /\ is_Element o = false /\ is_Load o = true) (load_array S).

(** The arrays of [S'] are those of [S] with objects added at the end. *)
Definition extends (S S' : SolverArrays) : Prop :=
  node S `prefix_of` node S' /\ mat S `prefix_of` mat S'
  /\ el_array S `prefix_of` el_array S' /\ load_array S `prefix_of` load_array S'.

End SolverRead.

(** ** The characters of a record *)

Section Records.
Context `{PS : Persistence}.

(** The stream [f] is good and stands at an opening bracket that is followed
    by [tok], of at most 255 characters without a closing bracket or a NUL,
    then the closing bracket, then [rest]. *)
Definition bracket_at (f : istream) (tok rest : list ascii) : Prop :=
  eofbit f = false /\ failbit f = false
  /\ drop (gpos f) (content f) = "<"%char :: tok ++ ">"%char :: rest
  /\ Forall (fun c => c <> ">"%char /\ c <> zero) tok
  /\ (length tok <= 255)%nat.

(** [name], without whitespace and not empty, between whitespace [lead] and
    [trail], where [trail] is empty or begins with whitespace. *)
Definition name_between (lead name trail : list ascii) : Prop :=
  Forall (fun c => is_one_of whitespaces c = true) lead
  /\ name <> []
  /\ Forall (fun c => is_one_of whitespaces c = false) name
  /\ (trail = [] \/ exists c t, trail = c :: t /\ is_one_of whitespaces c = true).

(** The stream behind the closing bracket. *)
Definition behind_bracket (f : istream) (tok : list ascii) : istream :=
  set_gpos (gpos f + length tok + 2) f.

(** What ReadAnyObjectFromStream makes of the outcome of the object's Read
    (lines 84-132). *)
Definition object_read (r : istream * result FEMLightObject)
  : istream * result (option FEMLightObject) :=
  (r.1, match r.2 with
        | Returned a => Returned (Some a)
        | Thrown e => Thrown e
        | Undefined u => Undefined u
        end).

End Records.

(** ** Instances the examples of Solver::Read run on *)

(** The objects of [example_Persistence] whose class name is Node are the
    nodes; there are no materials. *)
Definition example_ObjectKinds : @ObjectKinds example_Persistence.
Proof.
  refine
    {| is_Node := (fun a => String.eqb a.1 "Node") : @FEMLightObject example_Persistence -> bool;
       is_Material := fun _ => false |}.
  - intros a f info. simpl. unfold example_Read, get.
    destruct (good f); [destruct (content f !! gpos f) |];
      match goal with |- context [if ?b then _ else _] => destruct b end;
      reflexivity.
  - intros a f info. simpl. unfold example_Read, get.
    destruct (good f); [destruct (content f !! gpos f) |];
      match goal with |- context [if ?b then _ else _] => destruct b end;
      simpl; lia.
Defined.

(** A bracket that is not closed: the name Foo and 253 blanks. *)
Definition unclosed_stream : istream :=
  {| content := "<"%char :: (list_ascii_of_string "Foo" ++ repeat " "%char 252)
                ++ [" "%char];
     gpos := 0; eofbit := false; failbit := false |}.

(** Arrays that hold one node. *)
Definition one_node : @SolverArrays example_Persistence :=
  {| node := [("Node"%string, 1) : @FEMLightObject example_Persistence];
     mat := []; el_array := []; load_array := [] |}.

(** * Properties *)

Section Properties.
Context `{FT : FEMTypes}.
Local Open Scope fem_scope.

(** ** Sequencing *)

Lemma bind_assoc {A B C : Type} (m : M A) (f : A -> M B) (g : B -> M C) :
  bind (bind m f) g = bind m (fun a => bind (f a) g).
Proof.
  destruct m as [w [a | e | u]]; simpl; try reflexivity.
  destruct (f a) as [w' [b | e | u]]; simpl; try reflexivity.
  destruct (g b) as [w'' r]. by rewrite app_assoc.
Qed.

Lemma bind_ret_l {A B : Type} (a : A) (k : A -> M B) : bind (ret a) k = k a.
Proof. unfold bind, ret. by destruct (k a). Qed.

Lemma bind_ret_r (m : M unit) : bind m (fun _ => ret tt) = m.
Proof.
  destruct m as [w [[] | e | u]]; simpl; try reflexivity.
  by rewrite app_nil_r.
Qed.

Lemma for_each_app {A : Type} (body : A -> M unit) (l1 l2 : list A) :
  for_each body (l1 ++ l2) = (for_each body l1 ;; for_each body l2).
Proof.
  induction l1 as [| x l1 IH].
  - simpl. unfold bind, ret. by destruct (for_each body l2).
  - cbn [for_each app]. by rewrite IH, bind_assoc.
Qed.

Lemma for_each_flat_map {A B : Type} (body : B -> M unit) (g : A -> list B)
    (l : list A) :
  for_each body (flat_map g l) = for_each (fun x => for_each body (g x)) l.
Proof.
  induction l as [| x l IH]; simpl; [done |].
  by rewrite for_each_app, IH.
Qed.

Lemma for_each_map {A B : Type} (body : B -> M unit) (g : A -> B) (l : list A) :
  for_each body (map g l) = for_each (fun x => body (g x)) l.
Proof. induction l as [| x l IH]; simpl; [done |]. by rewrite IH. Qed.

Lemma for_each_ext {A : Type} (f g : A -> M unit) (l : list A) :
  (forall x, f x = g x) -> for_each f l = for_each g l.
Proof. intros E. induction l as [| x l IH]; simpl; [done |]. by rewrite E, IH. Qed.

(** A loop stops at the first pass that does not return. *)
Lemma for_each_stop {A : Type} (body : A -> M unit) (pre post : list A) (x : A)
    (calls calls' : list ls_call) (r : result unit) :
  for_each body pre = (calls, Returned tt) ->
  body x = (calls', r) ->
  (forall u, r <> Returned u) ->
  for_each body (pre ++ x :: post) = (calls ++ calls', r).
Proof.
  intros Hpre Hx Hr. rewrite for_each_app, Hpre. simpl. rewrite Hx.
  destruct r as [u | e | u]; simpl; [by destruct (Hr u) | done | done].
Qed.

(** After a pass that returns, the loop goes on with the rest. *)
Lemma for_each_continue {A : Type} (body : A -> M unit) (pre post : list A) (x : A)
    (calls calls' : list ls_call) :
  for_each body pre = (calls, Returned tt) ->
  body x = (calls', Returned tt) ->
  for_each body (pre ++ x :: post)
  = ((calls ++ calls') ++ (for_each body post).1, (for_each body post).2).
Proof.
  intros Hpre Hx. rewrite for_each_app, Hpre. simpl. rewrite Hx. simpl.
  destruct (for_each body post) as [w r]. simpl. by rewrite app_assoc.
Qed.


(** ** The search for MFCs *)

Lemma collect_MFC_spec (loads : list Load) (n : Z) :
  let r := collect_MFC loads n in
  r.2 = n + Z.of_nat (length (filter is_MFC loads))
  /\ r.1.2 = the_MFCs r.1.1
  /\ map Index r.1.2 = seqZ n (Z.of_nat (length (filter is_MFC loads)))
  /\ Forall2 same_but_Index loads r.1.1.
Proof.
  revert n. induction loads as [| l loads IH]; intros n.
  - simpl. repeat split; [lia | constructor].
  - destruct l as [l1 | l1 | l1 | name]; simpl.
    1, 2, 4:
      specialize (IH n); destruct (collect_MFC loads n) as [[rest' mfcs] n'];
      simpl in *; destruct IH as (Hn & Hm & Hi & Hs);
      repeat split; [done | done | done | by constructor].
    specialize (IH (n + 1)).
    destruct (collect_MFC loads (n + 1)) as [[rest' mfcs] n']. simpl in *.
    destruct IH as (Hn & Hm & Hi & Hs). repeat split.
    + lia.
    + by rewrite Hm.
    + rewrite Hi. rewrite (seqZ_cons n) by lia. f_equal. f_equal; lia.
    + constructor; [done | done].
Qed.

(** The indices of [mfcLoads] count up from 0. *)
Lemma mfcLoads_Index (s : Solver) :
  map Index (mfcLoads s) = seqZ 0 (collect_MFC (load s) 0).2.
Proof.
  unfold mfcLoads.
  destruct (collect_MFC_spec (load s) 0) as (Hn & _ & Hi & _).
  rewrite Z.add_0_l in Hn. by rewrite Hn.
Qed.

(** C2. The search for MFCs goes through the load array once: the MFCs get
    the indices 0, 1, 2, ... in the order of the array (so the indices are
    dense and no two are equal), NMFC is their number, [mfcLoads] holds them
    in that order, every other load is left as it is and an MFC changes in
    its index only; and the first calls AssembleK makes on the linear system
    are SetSystemOrder with NGFN + NMFC and InitializeMatrix, after the
    search. *)
Theorem AssembleK_collects_MFCs (s : Solver) :
  let load' := (collect_MFC (load s) 0).1.1 in
  let nmfc := (collect_MFC (load s) 0).2 in
  nmfc = Z.of_nat (length (filter is_MFC (load s)))
  /\ mfcLoads s = the_MFCs load'
  /\ map Index (mfcLoads s) = seqZ 0 nmfc
  /\ NoDup (map Index (mfcLoads s))
  /\ Forall2 same_but_Index (load s) load'
  /\ (0 < NGFN s ->
      load (AssembleK s).1 = load'
      /\ NMFC (AssembleK s).1 = nmfc
      /\ exists rest,
           m_ls (AssembleK s).1
           = m_ls s ++ SetSystemOrder (NGFN s + nmfc) :: InitializeMatrix :: rest).
Proof.
  intros load' nmfc. subst load' nmfc. unfold mfcLoads.
  destruct (collect_MFC_spec (load s) 0) as (Hn & Hm & Hi & Hs).
  rewrite Z.add_0_l in Hn.
  repeat split; try done.
  - by rewrite Hn.
  - rewrite Hi. apply NoDup_seqZ.
  - unfold AssembleK. destruct (Z.leb_spec (NGFN s) 0) as [? | _]; [lia |].
    destruct (collect_MFC (load s) 0) as [[l' m'] n']. simpl.
    by destruct (AssembleK_body (NGFN s) n' (el s) m').
  - unfold AssembleK. destruct (Z.leb_spec (NGFN s) 0) as [? | _]; [lia |].
    destruct (collect_MFC (load s) 0) as [[l' m'] n']. simpl.
    by destruct (AssembleK_body (NGFN s) n' (el s) m').
  - unfold AssembleK. destruct (Z.leb_spec (NGFN s) 0) as [? | _]; [lia |].
    destruct (collect_MFC (load s) 0) as [[l' m'] n']. simpl.
    unfold AssembleK_body. simpl.
    destruct (for_each (AssembleK_element (NGFN s)) (el s) ;;
              for_each (AssembleK_MFC (NGFN s)) m') as [w r] eqn:E.
    simpl. eauto.
Qed.


(** ** A system without DOF *)

(** C5. With NGFN <= 0, AssembleK and AssembleF (for every [dim]) return at
    once: the solver that comes back is the solver that went in, so no call
    was made on the linear system. *)
Theorem assemblers_no_op_without_DOF (s : Solver) (dim : Z) :
  NGFN s <= 0 ->
  AssembleK s = (s, Returned tt) /\ AssembleF dim s = (s, Returned tt).
Proof.
  intros H. unfold AssembleK, AssembleF.
  destruct (Z.leb_spec (NGFN s) 0) as [_ | ?]; [done | lia].
Qed.

(** ** AssembleK as one loop over its items *)

Lemma AssembleK_element_items (ngfn : Z) (e : Element) :
  AssembleK_element ngfn e = for_each (AssembleK_item ngfn) (element_entries e).
Proof.
  unfold AssembleK_element, element_entries. rewrite for_each_flat_map.
  apply for_each_ext. intros j. by rewrite for_each_map.
Qed.

Lemma AssembleK_MFC_items (ngfn : Z) (c : LoadBCMFC) :
  AssembleK_MFC ngfn c = for_each (AssembleK_item ngfn) (MFC_terms c).
Proof. unfold AssembleK_MFC, MFC_terms. by rewrite for_each_map. Qed.

Lemma AssembleK_body_items (ngfn nmfc : Z) (els : list Element)
    (mfcs : list LoadBCMFC) :
  AssembleK_body ngfn nmfc els mfcs
  = (call (SetSystemOrder (ngfn + nmfc)) ;; call InitializeMatrix ;;
     for_each (AssembleK_item ngfn) (K_items els mfcs)).
Proof.
  unfold AssembleK_body, K_items. rewrite for_each_app, !for_each_flat_map.
  rewrite (for_each_ext _ _ els (AssembleK_element_items ngfn)).
  by rewrite (for_each_ext _ _ mfcs (AssembleK_MFC_items ngfn)).
Qed.

(** AssembleK with NGFN > 0, in terms of the loop over its items. *)
Lemma AssembleK_unfold (s : Solver) :
  0 < NGFN s ->
  let nmfc := (collect_MFC (load s) 0).2 in
  let w := for_each (AssembleK_item (NGFN s)) (AssembleK_items s) in
  AssembleK s
  = ({| el := el s; load := (collect_MFC (load s) 0).1.1; NGFN := NGFN s;
        NMFC := nmfc;
        m_ls := m_ls s ++ SetSystemOrder (NGFN s + nmfc) :: InitializeMatrix :: w.1 |},
     w.2).
Proof.
  intros H. unfold AssembleK, AssembleK_items, mfcLoads.
  destruct (Z.leb_spec (NGFN s) 0) as [? | _]; [lia |].
  destruct (collect_MFC (load s) 0) as [[l' m'] n']. simpl.
  rewrite AssembleK_body_items. simpl.
  by destruct (for_each (AssembleK_item (NGFN s)) (K_items (el s) m')) as [w r].
Qed.

(** What one item does. *)
Lemma AssembleK_item_illegal (ngfn : Z) (it : K_item) :
  illegal_GFN ngfn it = true ->
  AssembleK_item ngfn it = ([], Thrown AssembleK_IllegalGFN).
Proof.
  destruct it as [e j k | c q]; simpl; intros H.
  - unfold AssembleK_entry. by rewrite H.
  - unfold AssembleK_term. unfold term_gfn in H. by rewrite H.
Qed.

Lemma AssembleK_entry_legal (ngfn : Z) (e : Element) (j k : Z) (v : Float) :
  illegal_GFN ngfn (K_entry e j k) = false ->
  Ke_at e j k = Some v ->
  AssembleK_entry ngfn e j k
  = (if Float_nonzero v
     then [AddMatrixValue (GetDegreeOfFreedom e j) (GetDegreeOfFreedom e k) v]
     else [], Returned tt).
Proof.
  simpl. intros H Hv. unfold AssembleK_entry. rewrite H, Hv.
  by destruct (Float_nonzero v).
Qed.

Lemma AssembleK_term_legal (ngfn : Z) (c : LoadBCMFC) (q : MFCTerm) :
  illegal_GFN ngfn (K_term c q) = false ->
  AssembleK_term ngfn c q
  = ([SetMatrixValue (term_gfn q) (ngfn + Index c) (value q);
      SetMatrixValue (ngfn + Index c) (term_gfn q) (value q)], Returned tt).
Proof.
  simpl. intros H. unfold AssembleK_term. fold (term_gfn q). by rewrite H.
Qed.


Lemma elem_of_element_entries (e e' : Element) (j k : Z) :
  K_entry e' j k ∈ element_entries e
  <-> e' = e /\ 0 <= j < GetNumberOfDegreesOfFreedom e
      /\ 0 <= k < GetNumberOfDegreesOfFreedom e.
Proof.
  unfold element_entries. rewrite list_elem_of_In, in_flat_map. split.
  - intros (j' & Hj & Hk). apply in_map_iff in Hk as (k' & E & Hk).
    inversion E; subst. apply list_elem_of_In, elem_of_seqZ in Hj, Hk.
    repeat split; lia.
  - intros (-> & Hj & Hk). exists j. split.
    + apply list_elem_of_In, elem_of_seqZ. lia.
    + apply in_map_iff. exists k. split; [done |].
      apply list_elem_of_In, elem_of_seqZ. lia.
Qed.

Lemma K_term_not_in_element_entries (e : Element) (c : LoadBCMFC) (q : MFCTerm) :
  K_term c q ∉ element_entries e.
Proof.
  unfold element_entries. rewrite list_elem_of_In, in_flat_map.
  intros (j' & _ & Hk). apply in_map_iff in Hk as (k' & E & _). discriminate.
Qed.

Lemma elem_of_flat_map {A B : Type} (g : A -> list B) (l : list A) (y : B) :
  y ∈ flat_map g l <-> exists x, x ∈ l /\ y ∈ g x.
Proof.
  rewrite list_elem_of_In, in_flat_map. split; intros (x & Hx & Hy); exists x.
  - split; by apply list_elem_of_In.
  - split; by apply list_elem_of_In.
Qed.

Lemma elem_of_K_items_entry (els : list Element) (mfcs : list LoadBCMFC)
    (e : Element) (j k : Z) :
  K_entry e j k ∈ K_items els mfcs
  <-> e ∈ els /\ 0 <= j < GetNumberOfDegreesOfFreedom e
      /\ 0 <= k < GetNumberOfDegreesOfFreedom e.
Proof.
  unfold K_items. rewrite elem_of_app, !elem_of_flat_map. split.
  - intros [(e' & He' & H) | (c & _ & H)].
    + apply elem_of_element_entries in H as (-> & ?). done.
    + unfold MFC_terms in H. apply list_elem_of_fmap in H as (? & ? & _).
      discriminate.
  - intros (He & Hj & Hk). left. exists e. split; [done |].
    by apply elem_of_element_entries.
Qed.

Lemma elem_of_K_items_term (els : list Element) (mfcs : list LoadBCMFC)
    (c : LoadBCMFC) (q : MFCTerm) :
  K_term c q ∈ K_items els mfcs <-> c ∈ mfcs /\ q ∈ lhs c.
Proof.
  unfold K_items. rewrite elem_of_app, !elem_of_flat_map. split.
  - intros [(e' & _ & H) | (c' & Hc' & H)].
    + by apply K_term_not_in_element_entries in H.
    + unfold MFC_terms in H. apply list_elem_of_fmap in H as (q' & E & Hq).
      inversion E; subst. done.
  - intros (Hc & Hq). right. exists c. split; [done |].
    unfold MFC_terms. apply list_elem_of_fmap. by exists q.
Qed.

(** With square element matrices every item reads an existing entry. *)
Lemma K_items_defined (els : list Element) (mfcs : list LoadBCMFC) :
  (forall e, e ∈ els -> Ke_covers e) ->
  Forall K_defined (K_items els mfcs).
Proof.
  intros Hcov. apply Forall_forall. intros [e j k | c q] Hin; simpl; [| done].
  apply elem_of_K_items_entry in Hin as (He & Hj & Hk). by apply Hcov.
Qed.

(** Items that pass the test and read existing entries all return. *)
Lemma for_each_legal_returns (ngfn : Z) (l : list K_item) :
  Forall K_defined l ->
  Forall (fun it => illegal_GFN ngfn it = false) l ->
  exists calls, for_each (AssembleK_item ngfn) l = (calls, Returned tt).
Proof.
  induction l as [| it l IH]; intros Hd Hl.
  - by exists [].
  - inversion Hd as [| ? ? Hd1 Hd2]; inversion Hl as [| ? ? Hl1 Hl2]; subst.
    destruct (IH Hd2 Hl2) as [calls Hc]. cbn [for_each]. rewrite Hc.
    destruct it as [e j k | c q].
    + destruct Hd1 as [v Hv]. cbn [AssembleK_item].
      rewrite (AssembleK_entry_legal _ _ _ _ v Hl1 Hv). simpl. eauto.
    + cbn [AssembleK_item]. rewrite (AssembleK_term_legal _ _ _ Hl1). simpl. eauto.
Qed.

(** The first item of a list that fails a test. *)
Lemma first_failing {A : Type} (p : A -> bool) (l : list A) (x : A) :
  x ∈ l -> p x = true ->
  exists pre y post, l = pre ++ y :: post /\ p y = true
                     /\ Forall (fun z => p z = false) pre.
Proof.
  induction l as [| a l IH]; intros Hin Hx; [by apply elem_of_nil in Hin |].
  destruct (p a) eqn:Ha.
  - exists [], a, l. repeat split; [done | constructor].
  - apply elem_of_cons in Hin as [-> | Hin]; [congruence |].
    destruct (IH Hin Hx) as (pre & y & post & -> & Hy & Hpre).
    exists (a :: pre), y, post. repeat split; [done | by constructor].
Qed.

(** C1. In AssembleK with NGFN > 0, take any pass of the loops, over an
    entry (j,k) of an element or over a term of an MFC, whose global DOF is
    not below NGFN, all passes before it having returned.  Then AssembleK
    throws the Illegal GFN exception, and the calls it made on the linear
    system are the sizing calls and the calls of the passes before: none for
    this pass and none after it; what was written stays.  And when every
    element matrix has the entries the loops visit, an element entry or an
    MFC term with such a DOF anywhere makes AssembleK throw that exception. *)
Theorem AssembleK_illegal_GFN_aborts (s : Solver) :
  0 < NGFN s ->
  (forall pre it post calls,
      AssembleK_items s = pre ++ it :: post ->
      for_each (AssembleK_item (NGFN s)) pre = (calls, Returned tt) ->
      illegal_GFN (NGFN s) it = true ->
      (AssembleK s).2 = Thrown AssembleK_IllegalGFN
      /\ m_ls (AssembleK s).1
         = m_ls s ++ SetSystemOrder (NGFN s + (collect_MFC (load s) 0).2)
                  :: InitializeMatrix :: calls)
  /\ ((forall e, e ∈ el s -> Ke_covers e) ->
      ((exists e j k, e ∈ el s
                      /\ 0 <= j < GetNumberOfDegreesOfFreedom e
                      /\ 0 <= k < GetNumberOfDegreesOfFreedom e
                      /\ (NGFN s <= GetDegreeOfFreedom e j
                          \/ NGFN s <= GetDegreeOfFreedom e k))
       \/ (exists c q, c ∈ mfcLoads s /\ q ∈ lhs c /\ NGFN s <= term_gfn q)) ->
      (AssembleK s).2 = Thrown AssembleK_IllegalGFN).
Proof.
  intros Hn.
  assert (A : forall pre it post calls,
      AssembleK_items s = pre ++ it :: post ->
      for_each (AssembleK_item (NGFN s)) pre = (calls, Returned tt) ->
      illegal_GFN (NGFN s) it = true ->
      (AssembleK s).2 = Thrown AssembleK_IllegalGFN
      /\ m_ls (AssembleK s).1
         = m_ls s ++ SetSystemOrder (NGFN s + (collect_MFC (load s) 0).2)
                  :: InitializeMatrix :: calls).
  { intros pre it post calls Hsplit Hpre Hit.
    rewrite (AssembleK_unfold s Hn). cbn [fst snd m_ls].
    rewrite Hsplit.
    rewrite (for_each_stop _ pre post it calls [] (Thrown AssembleK_IllegalGFN) Hpre
               (AssembleK_item_illegal _ _ Hit)) by done.
    simpl. by rewrite app_nil_r. }
  split; [exact A |].
  intros Hcov Hex.
  assert (exists it, it ∈ AssembleK_items s /\ illegal_GFN (NGFN s) it = true)
    as (it & Hin & Hit).
  { destruct Hex as [(e & j & k & He & Hj & Hk & Hd) | (c & q & Hc & Hq & Hd)].
    - exists (K_entry e j k). split.
      + by apply elem_of_K_items_entry.
      + simpl. apply orb_true_iff. destruct Hd; [left | right]; by apply Z.leb_le.
    - exists (K_term c q). split.
      + by apply elem_of_K_items_term.
      + simpl. by apply Z.leb_le. }
  destruct (first_failing _ _ _ Hin Hit) as (pre & y & post & Hsplit & Hy & Hpre).
  pose proof (K_items_defined (el s) (mfcLoads s) Hcov) as Hdef.
  fold (AssembleK_items s) in Hdef. rewrite Hsplit in Hdef.
  apply Forall_app in Hdef as [Hdef _].
  destruct (for_each_legal_returns (NGFN s) pre Hdef Hpre) as [calls Hcalls].
  by destruct (A pre y post calls Hsplit Hcalls Hy).
Qed.


(** ** The calls of a loop *)

Lemma bind_unfold {A B : Type} (m : M A) (k : A -> M B) :
  bind m k
  = match m.2 with
    | Returned a => (m.1 ++ (k a).1, (k a).2)
    | Thrown e => (m.1, Thrown e)
    | Undefined u => (m.1, Undefined u)
    end.
Proof.
  destruct m as [w [a | e | u]]; simpl; try reflexivity. by destruct (k a).
Qed.

Lemma for_each_calls_elem {A : Type} (body : A -> M unit) (l : list A)
    (c : ls_call) :
  c ∈ (for_each body l).1 -> exists x, x ∈ l /\ c ∈ (body x).1.
Proof.
  induction l as [| x l IH]; simpl; [by intros H%elem_of_nil |].
  rewrite bind_unfold. intros H.
  assert (c ∈ (body x).1 \/ c ∈ (for_each body l).1) as [Hc | Hc].
  { destruct ((body x).2); simpl in H; [| by left | by left].
    by apply elem_of_app in H. }
  - exists x. split; [by left | done].
  - destruct (IH Hc) as (y & Hy & Hcy). exists y. split; [by right | done].
Qed.

Lemma for_each_returned {A : Type} (body : A -> M unit) (l : list A)
    (calls : list ls_call) :
  for_each body l = (calls, Returned tt) ->
  calls = flat_map (fun x => (body x).1) l
  /\ Forall (fun x => (body x).2 = Returned tt) l.
Proof.
  revert calls. induction l as [| x l IH]; intros calls; simpl.
  - intros [= <-]. split; [done | constructor].
  - rewrite bind_unfold.
    destruct (body x) as [w [[] | e | u]] eqn:Hb; simpl; try done.
    intros [= <- Hr].
    destruct (IH (for_each body l).1) as [E Hall].
    { by rewrite <- Hr; destruct (for_each body l). }
    split; [by rewrite <- E |]. constructor; [by rewrite Hb | done].
Qed.

(** The calls of one item of AssembleK. *)
Lemma AssembleK_item_calls (ngfn : Z) (it : K_item) (c : ls_call) :
  c ∈ (AssembleK_item ngfn it).1 ->
  illegal_GFN ngfn it = false
  /\ match it with
     | K_entry e j k =>
         exists v, Ke_at e j k = Some v /\ Float_nonzero v = true
           /\ c = AddMatrixValue (GetDegreeOfFreedom e j) (GetDegreeOfFreedom e k) v
     | K_term c0 q =>
         c = SetMatrixValue (term_gfn q) (ngfn + Index c0) (value q)
         \/ c = SetMatrixValue (ngfn + Index c0) (term_gfn q) (value q)
     end.
Proof.
  destruct (illegal_GFN ngfn it) eqn:Hl.
  { rewrite (AssembleK_item_illegal _ _ Hl). by intros H%elem_of_nil. }
  intros Hc. split; [done |]. destruct it as [e j k | c0 q].
  - cbn [AssembleK_item] in Hc. destruct (Ke_at e j k) as [v |] eqn:Hv.
    + rewrite (AssembleK_entry_legal _ _ _ _ v Hl Hv) in Hc. simpl in Hc.
      destruct (Float_nonzero v) eqn:Hz; [| by apply elem_of_nil in Hc].
      apply list_elem_of_singleton in Hc. by exists v.
    + unfold AssembleK_entry in Hc. simpl in Hl. rewrite Hl, Hv in Hc.
      by apply elem_of_nil in Hc.
  - cbn [AssembleK_item] in Hc. rewrite (AssembleK_term_legal _ _ _ Hl) in Hc.
    simpl in Hc. apply elem_of_cons in Hc as [-> | Hc]; [by left |].
    apply list_elem_of_singleton in Hc. by right.
Qed.

(** ** The linear system after the calls *)

Lemma ls_run_app (L : LinearSystem) (a b : list ls_call) :
  ls_run L (a ++ b) = ls_run (ls_run L a) b.
Proof. apply fold_left_app. Qed.

Lemma ls_run_keeps_entry (L : LinearSystem) (calls : list ls_call) (p q : Z) :
  Forall (keeps_entry p q) calls ->
  ls_matrix (ls_run L calls) !! (p, q) = ls_matrix L !! (p, q).
Proof.
  revert L. induction calls as [| c calls IH]; intros L H; [done |].
  inversion H as [| ? ? Hc Hcalls]; subst. simpl.
  change (ls_matrix (ls_run (ls_apply L c) calls) !! (p, q) = ls_matrix L !! (p, q)).
  rewrite (IH _ Hcalls).
  destruct c; simpl in *; try done; by rewrite lookup_insert_ne.
Qed.

(** AssembleK resets the matrix, so what was called before does not count. *)
Lemma ls_run_after_InitializeMatrix (L : LinearSystem) (before calls : list ls_call)
    (N : Z) :
  ls_matrix (ls_run L (before ++ SetSystemOrder N :: InitializeMatrix :: calls))
  = ls_matrix
      (ls_run {| ls_order := N; ls_matrix := ∅;
                 ls_vector := ls_vector (ls_apply (ls_run L before)
                                           (SetSystemOrder N)) |} calls).
Proof. rewrite ls_run_app. reflexivity. Qed.


Lemma mfcLoads_Index_range (s : Solver) (c : LoadBCMFC) :
  c ∈ mfcLoads s -> 0 <= Index c < (collect_MFC (load s) 0).2.
Proof.
  intros Hc.
  assert (Index c ∈ map Index (mfcLoads s)) as H.
  { apply list_elem_of_fmap. by exists c. }
  rewrite mfcLoads_Index in H. apply elem_of_seqZ in H. lia.
Qed.

Lemma new_calls_AssembleK (s : Solver) :
  0 < NGFN s ->
  new_calls s (AssembleK s).1
  = SetSystemOrder (NGFN s + (collect_MFC (load s) 0).2) :: InitializeMatrix
    :: (for_each (AssembleK_item (NGFN s)) (AssembleK_items s)).1.
Proof.
  intros Hn. unfold new_calls. rewrite (AssembleK_unfold s Hn). cbn [fst m_ls].
  by rewrite drop_app_length.
Qed.

(** Every call AssembleK makes after the sizing calls comes from an item that
    passed the test. *)
Lemma AssembleK_calls_from_items (s : Solver) (c : ls_call) :
  c ∈ (for_each (AssembleK_item (NGFN s)) (AssembleK_items s)).1 ->
  exists it, it ∈ AssembleK_items s /\ illegal_GFN (NGFN s) it = false
    /\ match it with
       | K_entry e j k =>
           exists v, Ke_at e j k = Some v /\ Float_nonzero v = true
             /\ c = AddMatrixValue (GetDegreeOfFreedom e j) (GetDegreeOfFreedom e k) v
       | K_term c0 q =>
           c = SetMatrixValue (term_gfn q) (NGFN s + Index c0) (value q)
           \/ c = SetMatrixValue (NGFN s + Index c0) (term_gfn q) (value q)
       end.
Proof.
  intros Hc. apply for_each_calls_elem in Hc as (it & Hin & Hc).
  apply AssembleK_item_calls in Hc as [Hl Hshape]. by exists it.
Qed.

(** When AssembleK returns, its calls are those of all its items, which all
    passed the test. *)
Lemma AssembleK_returned (s : Solver) :
  0 < NGFN s ->
  (AssembleK s).2 = Returned tt ->
  (for_each (AssembleK_item (NGFN s)) (AssembleK_items s)).1
  = flat_map (fun it => (AssembleK_item (NGFN s) it).1) (AssembleK_items s)
  /\ Forall (fun it => illegal_GFN (NGFN s) it = false) (AssembleK_items s).
Proof.
  intros Hn. rewrite (AssembleK_unfold s Hn). cbn [snd]. intros Hr.
  destruct (for_each_returned (AssembleK_item (NGFN s)) (AssembleK_items s)
              (for_each (AssembleK_item (NGFN s)) (AssembleK_items s)).1)
    as [E Hall].
  { rewrite <- Hr. by destruct (for_each _ _). }
  split; [done |]. eapply Forall_impl; [exact Hall |].
  intros it Hit. simpl in Hit. destruct (illegal_GFN (NGFN s) it) eqn:Hl; [| done].
  by rewrite (AssembleK_item_illegal _ _ Hl) in Hit.
Qed.

(** C4. In AssembleK with NGFN > 0: for an entry (j,k) of an element matrix
    whose DOFs pass the test, an entry that compares equal to zero makes no
    call at all, and any other entry makes exactly one call, AddMatrixValue
    at (GetDegreeOfFreedom j, GetDegreeOfFreedom k) with the entry, which
    adds to what the linear system holds there.  Over the whole of
    AssembleK, every AddMatrixValue call carries a nonzero entry of an
    element of the system at its mapped position; a position below NGFN
    to which only zero entries map is absent from the matrix afterwards;
    and, when AssembleK returns, every nonzero entry of the matrix of every
    element of the system has its DOFs below NGFN and has made its
    AddMatrixValue call. *)
Theorem AssembleK_accumulates_nonzero_entries (s : Solver) :
  0 < NGFN s ->
  (forall e j k v,
      illegal_GFN (NGFN s) (K_entry e j k) = false ->
      Ke_at e j k = Some v ->
      let gj := GetDegreeOfFreedom e j in
      let gk := GetDegreeOfFreedom e k in
      (Float_nonzero v = false ->
       AssembleK_entry (NGFN s) e j k = ([], Returned tt))
      /\ (Float_nonzero v = true ->
          AssembleK_entry (NGFN s) e j k = ([AddMatrixValue gj gk v], Returned tt)
          /\ forall L, GetMatrixValue (ls_apply L (AddMatrixValue gj gk v)) gj gk
                       = Float_add (GetMatrixValue L gj gk) v))
  /\ (forall p q v,
      AddMatrixValue p q v ∈ new_calls s (AssembleK s).1 ->
      Float_nonzero v = true
      /\ exists e j k, e ∈ el s
           /\ 0 <= j < GetNumberOfDegreesOfFreedom e
           /\ 0 <= k < GetNumberOfDegreesOfFreedom e
           /\ Ke_at e j k = Some v
           /\ p = GetDegreeOfFreedom e j /\ q = GetDegreeOfFreedom e k)
  /\ (forall L p q,
      p < NGFN s -> q < NGFN s ->
      (forall e j k v, e ∈ el s ->
           0 <= j < GetNumberOfDegreesOfFreedom e ->
           0 <= k < GetNumberOfDegreesOfFreedom e ->
           GetDegreeOfFreedom e j = p -> GetDegreeOfFreedom e k = q ->
           Ke_at e j k = Some v -> Float_nonzero v = false) ->
      ls_matrix (ls_run L (m_ls (AssembleK s).1)) !! (p, q) = None)
  /\ ((AssembleK s).2 = Returned tt ->
      forall e j k v, e ∈ el s ->
        0 <= j < GetNumberOfDegreesOfFreedom e ->
        0 <= k < GetNumberOfDegreesOfFreedom e ->
        Ke_at e j k = Some v -> Float_nonzero v = true ->
        GetDegreeOfFreedom e j < NGFN s /\ GetDegreeOfFreedom e k < NGFN s
        /\ AddMatrixValue (GetDegreeOfFreedom e j) (GetDegreeOfFreedom e k) v
             ∈ new_calls s (AssembleK s).1).
Proof.
  intros Hn. split; [| split; [| split]].
  - intros e j k v Hl Hv gj gk. split.
    + intros Hz. rewrite (AssembleK_entry_legal _ _ _ _ v Hl Hv). by rewrite Hz.
    + intros Hz. split.
      * rewrite (AssembleK_entry_legal _ _ _ _ v Hl Hv). by rewrite Hz.
      * intros L. unfold GetMatrixValue at 1. simpl. by rewrite lookup_insert_eq.
  - intros p q v Hin. rewrite (new_calls_AssembleK s Hn) in Hin.
    apply elem_of_cons in Hin as [? | Hin]; [done |].
    apply elem_of_cons in Hin as [? | Hin]; [done |].
    apply AssembleK_calls_from_items in Hin as (it & Hit & Hl & Hshape).
    destruct it as [e j k | c0 t].
    + destruct Hshape as (v' & Hv' & Hz & [= -> -> ->]).
      apply elem_of_K_items_entry in Hit as (He & Hj & Hk).
      split; [done |]. by exists e, j, k.
    + by destruct Hshape.
  - intros L p q Hp Hq Hzero. rewrite (AssembleK_unfold s Hn). cbn [fst m_ls].
    rewrite ls_run_after_InitializeMatrix, ls_run_keeps_entry; [done |].
    apply Forall_forall. intros c Hc.
    apply AssembleK_calls_from_items in Hc as (it & Hit & Hl & Hshape).
    destruct it as [e j k | c0 t].
    + destruct Hshape as (v & Hv & Hz & ->). simpl. intros [= <- <-].
      apply elem_of_K_items_entry in Hit as (He & Hj & Hk).
      rewrite (Hzero e j k v He Hj Hk eq_refl eq_refl Hv) in Hz. done.
    + apply elem_of_K_items_term in Hit as (Hc0 & _).
      apply mfcLoads_Index_range in Hc0.
      destruct Hshape as [-> | ->]; simpl; intros [= <- <-]; lia.
  - intros Hr e j k v He Hj Hk Hv Hz.
    destruct (AssembleK_returned s Hn Hr) as [E Hall].
    rewrite Forall_forall in Hall.
    assert (K_entry e j k ∈ AssembleK_items s) as Hin
      by by apply elem_of_K_items_entry.
    pose proof (Hall _ Hin) as Hl.
    assert (GetDegreeOfFreedom e j < NGFN s /\ GetDegreeOfFreedom e k < NGFN s)
      as [Hgj Hgk].
    { simpl in Hl. apply orb_false_iff in Hl as [H1 H2].
      apply Z.leb_gt in H1, H2. done. }
    split; [done |]. split; [done |].
    rewrite (new_calls_AssembleK s Hn), E. do 2 right.
    apply elem_of_flat_map. exists (K_entry e j k). split; [done |].
    cbn [AssembleK_item]. rewrite (AssembleK_entry_legal _ _ _ _ v Hl Hv), Hz.
    by left.
Qed.


(** ** The rows and columns of the multipliers *)

Lemma AssembleK_items_keep_symmetric (ngfn : Z) (l : list K_item) (L : LinearSystem) :
  multiplier_symmetric ngfn (ls_matrix L) ->
  multiplier_symmetric ngfn
    (ls_matrix (ls_run L (for_each (AssembleK_item ngfn) l).1)).
Proof.
  revert L. induction l as [| it l IH]; intros L Hsym; [done |].
  cbn [for_each]. rewrite bind_unfold.
  destruct (illegal_GFN ngfn it) eqn:Hl.
  { by rewrite (AssembleK_item_illegal _ _ Hl). }
  destruct it as [e j k | c t]; cbn [AssembleK_item].
  - destruct (Ke_at e j k) as [v |] eqn:Hv.
    + rewrite (AssembleK_entry_legal _ _ _ _ v Hl Hv). cbn [fst snd].
      rewrite ls_run_app. apply IH.
      destruct (Float_nonzero v); [| done].
      simpl in Hl. apply orb_false_iff in Hl as [Hj%Z.leb_gt Hk%Z.leb_gt].
      intros p q Hpq. simpl. rewrite !lookup_insert_ne; [by apply Hsym | |];
        intros [= <- <-]; lia.
    + unfold AssembleK_entry. simpl in Hl. by rewrite Hl, Hv.
  - rewrite (AssembleK_term_legal _ _ _ Hl). cbn [fst snd].
    rewrite ls_run_app. apply IH.
    intros p q Hpq. simpl. rewrite !lookup_insert.
    repeat case_decide; simplify_eq; try done. by apply Hsym.
Qed.

Lemma AssembleK_items_keep_multiplier_block (s : Solver) (p q : Z) :
  NGFN s <= p -> NGFN s <= q ->
  Forall (keeps_entry p q)
    (for_each (AssembleK_item (NGFN s)) (AssembleK_items s)).1.
Proof.
  intros Hp Hq. apply Forall_forall. intros c Hc.
  apply AssembleK_calls_from_items in Hc as (it & Hit & Hl & Hshape).
  destruct it as [e j k | c0 t].
  - destruct Hshape as (v & Hv & Hz & ->). simpl in *.
    apply orb_false_iff in Hl as [Hj%Z.leb_gt Hk%Z.leb_gt].
    intros [= <- <-]; lia.
  - simpl in Hl. apply Z.leb_gt in Hl.
    destruct Hshape as [-> | ->]; simpl; intros [= <- <-]; lia.
Qed.

(** The terms that come after a term of an MFC. *)
Lemma terms_after (els : list Element) (m1 m2 : list LoadBCMFC) (c : LoadBCMFC)
    (t1 t2 : list MFCTerm) (q : MFCTerm) :
  lhs c = t1 ++ q :: t2 ->
  K_items els (m1 ++ c :: m2)
  = (flat_map element_entries els ++ flat_map MFC_terms m1 ++ map (K_term c) t1)
    ++ K_term c q :: (map (K_term c) t2 ++ flat_map MFC_terms m2).
Proof.
  intros Hlhs. unfold K_items. rewrite flat_map_app. cbn [flat_map].
  change (MFC_terms c) with (map (K_term c) (lhs c)).
  rewrite Hlhs, map_app. cbn [map].
  by rewrite <- !app_assoc.
Qed.


(** The terms after a term write neither of its two positions, unless they
    are terms of the same MFC on the same DOF. *)
Lemma later_terms_keep (s : Solver) (m1 m2 : list LoadBCMFC) (c : LoadBCMFC)
    (t2 : list MFCTerm) (q : MFCTerm) :
  mfcLoads s = m1 ++ c :: m2 ->
  (forall q', q' ∈ t2 -> term_gfn q' <> term_gfn q) ->
  term_gfn q < NGFN s ->
  Forall (fun c' => keeps_entry (term_gfn q) (NGFN s + Index c) c'
                    /\ keeps_entry (NGFN s + Index c) (term_gfn q) c')
    (flat_map (fun it => (AssembleK_item (NGFN s) it).1)
       (map (K_term c) t2 ++ flat_map MFC_terms m2)).
Proof.
  intros Hm Ht2 Hq. apply Forall_forall. intros c' Hc'.
  apply elem_of_flat_map in Hc' as (it & Hit & Hc').
  apply AssembleK_item_calls in Hc' as [Hl Hshape].
  assert (0 <= Index c) as Hc0.
  { assert (c ∈ mfcLoads s) as H by (rewrite Hm; apply elem_of_app; right; left).
    apply mfcLoads_Index_range in H. lia. }
  apply elem_of_app in Hit as [Hit | Hit].
  - apply list_elem_of_fmap in Hit as (q' & -> & Hq').
    simpl in Hl. apply Z.leb_gt in Hl. specialize (Ht2 q' Hq').
    destruct Hshape as [-> | ->]; simpl; split; intros E; injection E; lia.
  - apply elem_of_flat_map in Hit as (c2 & Hc2 & Hit).
    unfold MFC_terms in Hit. apply list_elem_of_fmap in Hit as (q' & -> & Hq').
    simpl in Hl. apply Z.leb_gt in Hl.
    assert (Index c2 <> Index c) as Hne.
    { pose proof (NoDup_seqZ 0 (collect_MFC (load s) 0).2) as Hnd.
      rewrite <- mfcLoads_Index, Hm, map_app in Hnd. apply NoDup_app in Hnd as (_ & _ & Hnd).
      cbn [map] in Hnd. apply NoDup_cons in Hnd as [Hnotin _].
      intros E. apply Hnotin. rewrite <- E. apply list_elem_of_fmap. by exists c2. }
    destruct Hshape as [-> | ->]; simpl; split; intros E; injection E; lia.
Qed.

(** C3. In AssembleK with NGFN > 0, the pass over a term of an MFC with
    ordinal m, coefficient v and global DOF d below NGFN makes exactly the
    calls SetMatrixValue(d, NGFN+m, v) and SetMatrixValue(NGFN+m, d, v),
    after which both entries hold v whatever they held before.  When
    AssembleK returns, every term of every MFC has made these two calls.
    However AssembleK ends, the matrix is symmetric on the rows and columns
    from NGFN on, no call writes an entry (p,q) with both p and q from NGFN
    on (so none on the diagonal of a multiplier) and the matrix has no such
    entry afterwards; and, when AssembleK returns, both entries of a term
    hold its coefficient unless a later term of the same MFC has the same
    DOF. *)
Theorem AssembleK_MFC_terms_symmetric (s : Solver) :
  0 < NGFN s ->
  (forall c q,
      illegal_GFN (NGFN s) (K_term c q) = false ->
      let set2 := [SetMatrixValue (term_gfn q) (NGFN s + Index c) (value q);
                   SetMatrixValue (NGFN s + Index c) (term_gfn q) (value q)] in
      AssembleK_term (NGFN s) c q = (set2, Returned tt)
      /\ forall L,
          GetMatrixValue (ls_run L set2) (term_gfn q) (NGFN s + Index c) = value q
          /\ GetMatrixValue (ls_run L set2) (NGFN s + Index c) (term_gfn q) = value q)
  /\ ((AssembleK s).2 = Returned tt ->
      forall c q, c ∈ mfcLoads s -> q ∈ lhs c ->
        term_gfn q < NGFN s
        /\ SetMatrixValue (term_gfn q) (NGFN s + Index c) (value q)
             ∈ new_calls s (AssembleK s).1
        /\ SetMatrixValue (NGFN s + Index c) (term_gfn q) (value q)
             ∈ new_calls s (AssembleK s).1)
  /\ (forall L, multiplier_symmetric (NGFN s)
                  (ls_matrix (ls_run L (m_ls (AssembleK s).1))))
  /\ (forall p q c, NGFN s <= p -> NGFN s <= q ->
        c ∈ new_calls s (AssembleK s).1 -> ~ writes_entry p q c)
  /\ (forall L p q, NGFN s <= p -> NGFN s <= q ->
        ls_matrix (ls_run L (m_ls (AssembleK s).1)) !! (p, q) = None)
  /\ ((AssembleK s).2 = Returned tt ->
      forall L m1 c m2 t1 q t2,
        mfcLoads s = m1 ++ c :: m2 ->
        lhs c = t1 ++ q :: t2 ->
        (forall q', q' ∈ t2 -> term_gfn q' <> term_gfn q) ->
        let Lf := ls_run L (m_ls (AssembleK s).1) in
        GetMatrixValue Lf (term_gfn q) (NGFN s + Index c) = value q
        /\ GetMatrixValue Lf (NGFN s + Index c) (term_gfn q) = value q).
Proof.
  intros Hn.
  assert (Hret : (AssembleK s).2 = Returned tt ->
     (for_each (AssembleK_item (NGFN s)) (AssembleK_items s)).1
       = flat_map (fun it => (AssembleK_item (NGFN s) it).1) (AssembleK_items s)
     /\ Forall (fun it => illegal_GFN (NGFN s) it = false) (AssembleK_items s)).
  { rewrite (AssembleK_unfold s Hn). cbn [snd]. intros Hr.
    destruct (for_each_returned (AssembleK_item (NGFN s)) (AssembleK_items s)
                (for_each (AssembleK_item (NGFN s)) (AssembleK_items s)).1)
      as [E Hall].
    { rewrite <- Hr. by destruct (for_each _ _). }
    split; [done |]. eapply Forall_impl; [exact Hall |].
    intros it Hit. simpl in Hit. destruct (illegal_GFN (NGFN s) it) eqn:Hl; [| done].
    by rewrite (AssembleK_item_illegal _ _ Hl) in Hit. }
  split; [| split; [| split; [| split; [| split]]]].
  - intros c q Hl set2. split; [by apply AssembleK_term_legal |].
    intros L. unfold GetMatrixValue. subst set2. simpl. split.
    + rewrite !lookup_insert. by repeat case_decide.
    + by rewrite lookup_insert_eq.
  - intros Hr c q Hc Hq.
    destruct (Hret Hr) as [E Hall]. rewrite Forall_forall in Hall.
    assert (K_term c q ∈ AssembleK_items s) as Hin by by apply elem_of_K_items_term.
    pose proof (Hall _ Hin) as Hl.
    assert (forall x, x ∈ (AssembleK_item (NGFN s) (K_term c q)).1 ->
                      x ∈ new_calls s (AssembleK s).1) as Hsub.
    { intros x Hx. rewrite (new_calls_AssembleK s Hn), E. do 2 right.
      apply elem_of_flat_map. by exists (K_term c q). }
    cbn [AssembleK_item] in Hsub. rewrite (AssembleK_term_legal _ _ _ Hl) in Hsub.
    simpl in Hl. apply Z.leb_gt in Hl.
    split; [done |]. split; apply Hsub; simpl; [left | right; left].
  - intros L. rewrite (AssembleK_unfold s Hn). cbn [fst m_ls].
    rewrite ls_run_after_InitializeMatrix.
    apply AssembleK_items_keep_symmetric. intros p q _. simpl.
    by rewrite !lookup_empty.
  - intros p q c Hp Hq Hc. rewrite (new_calls_AssembleK s Hn) in Hc.
    apply elem_of_cons in Hc as [-> | Hc]; [by intros [] |].
    apply elem_of_cons in Hc as [-> | Hc]; [by intros [] |].
    pose proof (AssembleK_items_keep_multiplier_block s p q Hp Hq) as Hkeep.
    rewrite Forall_forall in Hkeep. specialize (Hkeep c Hc).
    destruct c; simpl in *; tauto.
  - intros L p q Hp Hq. rewrite (AssembleK_unfold s Hn). cbn [fst m_ls].
    rewrite ls_run_after_InitializeMatrix, ls_run_keeps_entry; [done |].
    by apply AssembleK_items_keep_multiplier_block.
  - intros Hr L m1 c m2 t1 q t2 Hm Hlhs Hlater Lf.
    destruct (Hret Hr) as [E Hall]. rewrite Forall_forall in Hall.
    subst Lf. rewrite (AssembleK_unfold s Hn). cbn [fst m_ls].
    unfold GetMatrixValue. rewrite ls_run_after_InitializeMatrix, E.
    unfold AssembleK_items in *. rewrite Hm in *.
    rewrite (terms_after _ _ _ _ _ _ _ Hlhs) in *.
    assert (illegal_GFN (NGFN s) (K_term c q) = false) as Hl
      by (apply Hall, elem_of_app; right; left).
    rewrite flat_map_app. cbn [flat_map AssembleK_item].
    rewrite (AssembleK_term_legal _ _ _ Hl). cbn [fst].
    rewrite !ls_run_app.
    simpl in Hl. apply Z.leb_gt in Hl.
    pose proof (later_terms_keep s m1 m2 c t2 q Hm Hlater Hl) as Hkeep.
    split.
    + rewrite ls_run_keeps_entry
        by (eapply Forall_impl; [exact Hkeep | by intros ? [? ?]]).
      simpl. rewrite !lookup_insert. by repeat case_decide.
    + rewrite ls_run_keeps_entry
        by (eapply Forall_impl; [exact Hkeep | by intros ? [? ?]]).
      simpl. by rewrite lookup_insert_eq.
Qed.


(** ** AssembleF *)

Lemma AssembleF_unfold (dim : Z) (s : Solver) :
  0 < NGFN s ->
  let w := for_each (AssembleF_load (NGFN s) dim (el s)) (load s) in
  AssembleF dim s = (with_m_ls s (m_ls s ++ InitializeVector :: w.1), w.2).
Proof.
  intros Hn. unfold AssembleF, AssembleF_body.
  destruct (Z.leb_spec (NGFN s) 0) as [? | _]; [lia |].
  simpl. by destruct (for_each _ (load s)).
Qed.

(** AssembleF when the loop over the loads stops at a load. *)
Lemma AssembleF_stops (dim : Z) (s : Solver) (pre post : list Load) (l0 : Load)
    (calls calls' : list ls_call) (r : result unit) :
  0 < NGFN s ->
  load s = pre ++ l0 :: post ->
  for_each (AssembleF_load (NGFN s) dim (el s)) pre = (calls, Returned tt) ->
  AssembleF_load (NGFN s) dim (el s) l0 = (calls', r) ->
  (forall u, r <> Returned u) ->
  AssembleF dim s
  = (with_m_ls s (m_ls s ++ InitializeVector :: calls ++ calls'), r).
Proof.
  intros Hn Hload Hpre Hl0 Hr. rewrite (AssembleF_unfold dim s Hn). cbn zeta.
  by rewrite Hload, (for_each_stop _ pre post l0 calls calls' r Hpre Hl0 Hr).
Qed.

(** C6. In AssembleF with NGFN > 0, at an MFC with index m whose [rhs] has an
    entry r for [dim], the loads before it having been handled: the MFC makes
    exactly one call, SetVectorValue(NGFN+m, r), after which the vector holds
    r there whatever it held before, and AssembleF goes on with the loads
    after it. *)
Theorem AssembleF_MFC_sets_rhs (dim : Z) (s : Solver) (pre post : list Load)
    (c : LoadBCMFC) (calls : list ls_call) (r : Float) :
  0 < NGFN s ->
  load s = pre ++ Load_LoadBCMFC c :: post ->
  for_each (AssembleF_load (NGFN s) dim (el s)) pre = (calls, Returned tt) ->
  vnl_get (rhs c) (uint32 dim) = Some r ->
  AssembleF_load (NGFN s) dim (el s) (Load_LoadBCMFC c)
  = ([SetVectorValue (NGFN s + Index c) r], Returned tt)
  /\ (forall L,
        GetVectorValue (ls_apply L (SetVectorValue (NGFN s + Index c) r))
          (NGFN s + Index c) = r)
  /\ let rest := for_each (AssembleF_load (NGFN s) dim (el s)) post in
     AssembleF dim s
     = (with_m_ls s
          (m_ls s ++ InitializeVector
                  :: (calls ++ [SetVectorValue (NGFN s + Index c) r]) ++ rest.1),
        rest.2).
Proof.
  intros Hn Hload Hpre Hr.
  assert (AssembleF_load (NGFN s) dim (el s) (Load_LoadBCMFC c)
          = ([SetVectorValue (NGFN s + Index c) r], Returned tt)) as Hc.
  { simpl. unfold AssembleF_LoadBCMFC. by rewrite Hr. }
  split; [done |]. split.
  - intros L. unfold GetVectorValue. simpl. by rewrite lookup_insert_eq.
  - intros rest. rewrite (AssembleF_unfold dim s Hn). cbn zeta.
    by rewrite Hload, (for_each_continue _ pre post _ calls _ Hpre Hc).
Qed.

(** C7, as the code has it.  In AssembleF with NGFN > 0, at a nodal load
    whose element has a nonzero number P of DOFs per point and whose force
    vector has a length that is not a multiple of P, the loads before it
    having been handled: the load makes no call on the linear system and
    AssembleF throws the size exception; InitializeVector and the calls of
    the loads before have been made by then. *)
Theorem AssembleF_illegal_size (dim : Z) (s : Solver) (pre post : list Load)
    (l1 : LoadNode) (calls : list ls_call) :
  0 < NGFN s ->
  load s = pre ++ Load_LoadNode l1 :: post ->
  for_each (AssembleF_load (NGFN s) dim (el s)) pre = (calls, Returned tt) ->
  GetNumberOfDegreesOfFreedomPerPoint (m_element l1) <> 0 ->
  Z.of_nat (length (F l1)) `mod` GetNumberOfDegreesOfFreedomPerPoint (m_element l1) <> 0 ->
  AssembleF_load (NGFN s) dim (el s) (Load_LoadNode l1)
  = ([], Thrown AssembleF_IllegalSize)
  /\ AssembleF dim s
     = (with_m_ls s (m_ls s ++ InitializeVector :: calls),
        Thrown AssembleF_IllegalSize).
Proof.
  intros Hn Hload Hpre HP Hmod.
  assert (AssembleF_load (NGFN s) dim (el s) (Load_LoadNode l1)
          = ([], Thrown AssembleF_IllegalSize)) as Hl.
  { simpl. unfold AssembleF_LoadNode.
    destruct (Z.eqb_spec (GetNumberOfDegreesOfFreedomPerPoint (m_element l1)) 0);
      [done |].
    by destruct (Z.eqb_spec (Z.of_nat (length (F l1))
                   `mod` GetNumberOfDegreesOfFreedomPerPoint (m_element l1)) 0). }
  split; [done |].
  rewrite (AssembleF_stops dim s pre post _ calls [] _ Hn Hload Hpre Hl) by done.
  by rewrite app_nil_r.
Qed.


(** ** Reads past the end of a force vector *)

Lemma vnl_get_None {A : Type} (v : list A) (i : Z) :
  vnl_get v i = None <-> i < 0 \/ Z.of_nat (length v) <= i.
Proof.
  unfold vnl_get. destruct (Z.leb_spec 0 i) as [Hi | Hi].
  - rewrite lookup_ge_None. lia.
  - split; [lia | done].
Qed.

Lemma uint32_nonneg (z : Z) : 0 <= uint32 z.
Proof. unfold uint32. apply Z.mod_pos_bound. lia. Qed.

(** Without wrap-around the indices are the sums of the source. *)
Lemma LoadNode_index_exact (P dim d : Z) :
  0 <= d + P * dim < 2 ^ 32 -> LoadNode_index P dim d = d + P * dim.
Proof. intros H. unfold LoadNode_index, uint32. by apply Z.mod_small. Qed.

Lemma LoadElement_index_exact (Ne dim j : Z) :
  0 <= j + dim * Ne < 2 ^ 32 -> LoadElement_index Ne dim j = j + dim * Ne.
Proof. intros H. unfold LoadElement_index, uint32. by apply Z.mod_small. Qed.

(** A loop whose passes return or end in [P] ends in [P] when one pass
    does. *)
Lemma for_each_reaches {A : Type} (body : A -> M unit) (l : list A)
    (P : result unit -> Prop) :
  (forall u, ~ P (Returned u)) ->
  (forall x, x ∈ l -> (body x).2 = Returned tt \/ P (body x).2) ->
  (exists x, x ∈ l /\ P (body x).2) ->
  P (for_each body l).2.
Proof.
  intros HP. induction l as [| x l IH]; intros Hall (y & Hy & HPy).
  - by apply elem_of_nil in Hy.
  - cbn [for_each]. rewrite bind_unfold.
    destruct (Hall x) as [Hx | Hx]; [by left | |].
    + rewrite Hx. cbn [snd]. apply IH.
      * intros z Hz. apply Hall. by right.
      * apply elem_of_cons in Hy as [-> | Hy].
        -- rewrite Hx in HPy. by destruct (HP tt).
        -- by exists y.
    + destruct ((body x).2) as [u | e | u]; [by destruct (HP u) | done | done].
Qed.

Lemma past_the_end_not_Returned (size : Z) (u : unit) :
  ~ past_the_end size (Returned u).
Proof. by intros (i & _ & ?). Qed.

(** A nodal load that passed the length test, with all the DOFs of its point
    below NGFN and a DOF whose index is not below the length. *)
Lemma AssembleF_LoadNode_past_the_end (ngfn dim : Z) (l1 : LoadNode) :
  let P := GetNumberOfDegreesOfFreedomPerPoint (m_element l1) in
  let size := Z.of_nat (length (F l1)) in
  P <> 0 -> size `mod` P = 0 ->
  (forall d, 0 <= d < P ->
             GetDegreeOfFreedomAtPoint (m_element l1) (m_pt l1) d < ngfn) ->
  (exists d, 0 <= d < P /\ size <= LoadNode_index P dim d) ->
  past_the_end size (AssembleF_LoadNode ngfn dim l1).2.
Proof.
  intros P size HP Hmod Hgfn (d & Hd & Hidx). unfold AssembleF_LoadNode.
  fold P. destruct (Z.eqb_spec P 0) as [? | _]; [done |].
  fold size. rewrite Hmod. simpl.
  assert (forall d', 0 <= d' < P ->
            AssembleF_LoadNode_dof ngfn dim l1 d'
            = match vnl_get (F l1) (LoadNode_index P dim d') with
              | None => undefined_behaviour
                          (vnl_vector_out_of_range (LoadNode_index P dim d') size)
              | Some v => call (AddVectorValue
                            (GetDegreeOfFreedomAtPoint (m_element l1) (m_pt l1) d') v)
              end) as Hbody.
  { intros d' Hd'. unfold AssembleF_LoadNode_dof. fold P.
    destruct (Z.leb_spec ngfn (GetDegreeOfFreedomAtPoint (m_element l1) (m_pt l1) d'))
      as [Hge | _]; [| done].
    specialize (Hgfn d' Hd'). lia. }
  apply for_each_reaches.
  - apply past_the_end_not_Returned.
  - intros d' Hd'%elem_of_seqZ. rewrite Hbody by lia.
    destruct (vnl_get (F l1) (LoadNode_index P dim d')) as [v |] eqn:Hv; [by left |].
    right. exists (LoadNode_index P dim d'). split; [| done].
    apply vnl_get_None in Hv as [Hv | Hv]; [| done].
    pose proof (uint32_nonneg (d' + P * dim)). unfold LoadNode_index in Hv. lia.
  - exists d. split; [apply elem_of_seqZ; lia |]. rewrite Hbody by lia.
    assert (vnl_get (F l1) (LoadNode_index P dim d) = None) as ->
      by (apply vnl_get_None; by right).
    by exists (LoadNode_index P dim d).
Qed.

(** An element under an element load, with all its DOFs below NGFN and a DOF
    whose index is not below the length of [Fe]. *)
Lemma AssembleF_LoadElement_on_past_the_end (ngfn dim : Z) (l1 : LoadElement)
    (el0 : Element) :
  let Ne := GetNumberOfDegreesOfFreedom el0 in
  let size := Z.of_nat (length (Fe el0 (LoadElement_data l1))) in
  (forall j, 0 <= j < Ne -> GetDegreeOfFreedom el0 j < ngfn) ->
  (exists j, 0 <= j < Ne /\ size <= LoadElement_index Ne dim j) ->
  past_the_end size (AssembleF_LoadElement_on ngfn dim l1 el0).2.
Proof.
  intros Ne size Hgfn (j & Hj & Hidx). unfold AssembleF_LoadElement_on. fold Ne.
  assert (forall j', 0 <= j' < Ne ->
            AssembleF_LoadElement_dof ngfn dim el0 (Fe el0 (LoadElement_data l1)) j'
            = match vnl_get (Fe el0 (LoadElement_data l1)) (LoadElement_index Ne dim j') with
              | None => undefined_behaviour
                          (vnl_vector_out_of_range (LoadElement_index Ne dim j') size)
              | Some v => call (AddVectorValue (GetDegreeOfFreedom el0 j') v)
              end) as Hbody.
  { intros j' Hj'. unfold AssembleF_LoadElement_dof. fold Ne.
    destruct (Z.leb_spec ngfn (GetDegreeOfFreedom el0 j')) as [Hge | _]; [| done].
    specialize (Hgfn j' Hj'). lia. }
  apply for_each_reaches.
  - apply past_the_end_not_Returned.
  - intros j' Hj'%elem_of_seqZ. rewrite Hbody by lia.
    destruct (vnl_get _ (LoadElement_index Ne dim j')) as [v |] eqn:Hv; [by left |].
    right. exists (LoadElement_index Ne dim j'). split; [| done].
    apply vnl_get_None in Hv as [Hv | Hv]; [| done].
    pose proof (uint32_nonneg (j' + dim * Ne)). unfold LoadElement_index in Hv. lia.
  - exists j. split; [apply elem_of_seqZ; lia |]. rewrite Hbody by lia.
    assert (vnl_get (Fe el0 (LoadElement_data l1)) (LoadElement_index Ne dim j) = None)
      as -> by (apply vnl_get_None; by right).
    by exists (LoadElement_index Ne dim j).
Qed.


Lemma AssembleF_LoadElement_targets (ngfn dim : Z) (els : list Element)
    (l1 : LoadElement) :
  AssembleF_LoadElement ngfn dim els l1
  = for_each (AssembleF_LoadElement_on ngfn dim l1) (LoadElement_targets els l1).
Proof.
  unfold AssembleF_LoadElement, LoadElement_targets.
  by destruct (LoadElement_el l1).
Qed.

(** C10. Nothing in AssembleF compares an index into a force vector with
    the length of the vector.  With NGFN > 0 and the loads before handled:
    at a nodal load that passes the length test (length a multiple of the
    nonzero P) and whose DOFs are all below NGFN, if the index
    dof + P*dim of some dof below P is not below the length, AssembleF ends
    in a read of [F] at or after its end; at an element load, for a target
    element reached with all its DOFs below NGFN, if the index j + dim*Ne of
    some j below Ne is not below the length of the vector [Fe] returned,
    AssembleF ends in a read of that vector at or after its end. *)
Theorem AssembleF_reads_past_the_end (dim : Z) (s : Solver) :
  0 < NGFN s ->
  (forall pre l1 post calls,
      load s = pre ++ Load_LoadNode l1 :: post ->
      for_each (AssembleF_load (NGFN s) dim (el s)) pre = (calls, Returned tt) ->
      let P := GetNumberOfDegreesOfFreedomPerPoint (m_element l1) in
      let size := Z.of_nat (length (F l1)) in
      P <> 0 -> size `mod` P = 0 ->
      (forall d, 0 <= d < P ->
                 GetDegreeOfFreedomAtPoint (m_element l1) (m_pt l1) d < NGFN s) ->
      (exists d, 0 <= d < P /\ size <= LoadNode_index P dim d) ->
      past_the_end size (AssembleF dim s).2)
  /\ (forall pre l1 post calls tpre el0 tpost calls',
      load s = pre ++ Load_LoadElement l1 :: post ->
      for_each (AssembleF_load (NGFN s) dim (el s)) pre = (calls, Returned tt) ->
      LoadElement_targets (el s) l1 = tpre ++ el0 :: tpost ->
      for_each (AssembleF_LoadElement_on (NGFN s) dim l1) tpre
      = (calls', Returned tt) ->
      let Ne := GetNumberOfDegreesOfFreedom el0 in
      let size := Z.of_nat (length (Fe el0 (LoadElement_data l1))) in
      (forall j, 0 <= j < Ne -> GetDegreeOfFreedom el0 j < NGFN s) ->
      (exists j, 0 <= j < Ne /\ size <= LoadElement_index Ne dim j) ->
      past_the_end size (AssembleF dim s).2).
Proof.
  intros Hn. split.
  - intros pre l1 post calls Hload Hpre P size HP Hmod Hgfn Hex.
    pose proof (AssembleF_LoadNode_past_the_end (NGFN s) dim l1 HP Hmod Hgfn Hex)
      as (i & Hi & Hr).
    destruct (AssembleF_LoadNode (NGFN s) dim l1) as [w r] eqn:E.
    simpl in Hr. subst r.
    rewrite (AssembleF_stops dim s pre post (Load_LoadNode l1) calls w _
               Hn Hload Hpre E) by done.
    by exists i.
  - intros pre l1 post calls tpre el0 tpost calls' Hload Hpre Ht Htpre Ne size
      Hgfn Hex.
    pose proof (AssembleF_LoadElement_on_past_the_end (NGFN s) dim l1 el0 Hgfn Hex)
      as (i & Hi & Hr).
    destruct (AssembleF_LoadElement_on (NGFN s) dim l1 el0) as [w r] eqn:E.
    simpl in Hr. subst r.
    assert (AssembleF_load (NGFN s) dim (el s) (Load_LoadElement l1)
            = (calls' ++ w, Undefined (vnl_vector_out_of_range i size))) as El.
    { simpl. rewrite AssembleF_LoadElement_targets, Ht.
      by apply for_each_stop. }
    rewrite (AssembleF_stops dim s pre post _ calls _ _ Hn Hload Hpre El) by done.
    by exists i.
Qed.

End Properties.

Section NumberingProperties.
Context `{EC : ElementClass}.

(** C9. GenerateGFN sets NGFN to the DOF counter plus one (an int) and then
    returns, whatever the counter is: for a system without DOF, too, the call
    ends as any other and nothing tells the caller that the system is
    empty. *)
Theorem GenerateGFN_always_returns (n_node n_el : nat) (o : Objects) :
  (GenerateGFN n_node n_el o).2 = Returned tt
  /\ (GenerateGFN n_node n_el o).1.2
     = int32 (GetGlobalDOFCounter (GenerateGFN n_node n_el o).1.1 + 1).
Proof.
  unfold GenerateGFN.
  by destruct (0 <? int32 (GetGlobalDOFCounter _ + 1)).
Qed.

End NumberingProperties.

(** A system with no node and no element: NGFN is 0 and the call returns. *)
Example GenerateGFN_empty_system :
  @GenerateGFN counter_ElementClass 0 0 0 = (-1, 0, Returned tt).
Proof. reflexivity. Qed.

(** Three elements of one DOF each: the counter ends at 2 and NGFN is 3. *)
Example GenerateGFN_three_elements :
  @GenerateGFN counter_ElementClass 0 3 0 = (2, 3, Returned tt).
Proof. reflexivity. Qed.

Section ReadingProperties.
Context `{PS : Persistence}.

(** ** The stream operations *)

Lemma get_good (f : istream) (c : ascii) :
  eofbit f = false -> failbit f = false ->
  content f !! gpos f = Some c ->
  get f = (Z.of_nat (nat_of_ascii c), set_gpos (Datatypes.S (gpos f)) f).
Proof. intros He Hf Hc. unfold get, good. by rewrite He, Hf, Hc. Qed.

(** [get] returns a character only from a good stream that has one. *)
Lemma get_char (f f' : istream) (c : Z) :
  get f = (c, f') -> 0 <= c ->
  content f' = content f /\ gpos f' = Datatypes.S (gpos f)
  /\ (gpos f < length (content f))%nat.
Proof.
  unfold get. destruct (good f).
  - destruct (content f !! gpos f) as [a |] eqn:Ha.
    + intros [= <- <-] _. simpl. repeat split. by eapply lookup_lt_Some.
    + intros [= <- <-]. unfold EOF. lia.
  - intros [= <- <-]. unfold EOF. lia.
Qed.

Lemma getline_content_gpos (n : nat) (delim : ascii) (f f' : istream)
    (buf : list ascii) :
  getline n delim f = (buf, f') ->
  content f' = content f /\ (gpos f <= gpos f')%nat.
Proof.
  unfold getline. destruct (good f).
  - destruct (getline_scan (n - 1) delim (drop (gpos f) (content f)))
      as [[[s k] e] fl].
    intros [= <- <-]. simpl. split; [done | lia].
  - intros [= <- <-]. simpl. split; [done | lia].
Qed.

Lemma nat_of_ascii_inj (a b : ascii) :
  Z.of_nat (nat_of_ascii a) = Z.of_nat (nat_of_ascii b) -> a = b.
Proof.
  intros H%Nat2Z.inj.
  rewrite <- (ascii_nat_embedding a), <- (ascii_nat_embedding b). by rewrite H.
Qed.

(** ** Termination *)

(** A pass that goes back to [start] has moved forward in the same
    characters. *)
Lemma pass_again_progress (S : SolverArrays) (f f' : istream) :
  ReadAnyObjectFromStream_pass S f = inr f' ->
  content f' = content f /\ (gpos f < gpos f')%nat
  /\ (gpos f < length (content f))%nat.
Proof.
  unfold ReadAnyObjectFromStream_pass.
  pose proof (SkipWhiteSpace_content f) as Hc.
  pose proof (SkipWhiteSpace_gpos f) as Hp.
  destruct (eofbit (SkipWhiteSpace f)); [done |].
  destruct (get (SkipWhiteSpace f)) as [c f1] eqn:Hget.
  destruct (Z.eqb_spec c (Z.of_nat (nat_of_ascii "<"))) as [-> | _]; [| done].
  apply get_char in Hget as (Hc1 & Hp1 & Hlt); [| lia]. simpl.
  destruct (getline 256 ">" f1) as [buf f2] eqn:Hgl.
  apply getline_content_gpos in Hgl as [Hc2 Hp2].
  destruct (token whitespaces buf) as [s |]; [| done].
  destruct (String.eqb (string_of_list_ascii s) "END").
  - intros [= <-]. rewrite Hc2, Hc1, Hc. rewrite Hc in Hlt. repeat split; lia.
  - destruct (ClassName2ID (string_of_list_ascii s) <? 0); [done |].
    destruct (Create (ClassName2ID (string_of_list_ascii s))) as [a |]; [| done].
    by destruct (Read a f2 (read_info S a)) as [f3 [a' | e | u]].
Qed.

(** With a unit of fuel more than the characters that are left the passes
    come to an end, and more fuel changes nothing. *)
Lemma ReadAnyObjectFromStream_fuel_enough (n m : nat) (S : SolverArrays)
    (f : istream) :
  (length (content f) - gpos f < n)%nat ->
  (length (content f) - gpos f < m)%nat ->
  ReadAnyObjectFromStream_fuel n S f = ReadAnyObjectFromStream_fuel m S f
  /\ is_Some (ReadAnyObjectFromStream_fuel n S f).
Proof.
  revert m f. induction n as [| n IH]; intros m f Hn Hm; [lia |].
  destruct m as [| m]; [lia |]. simpl.
  destruct (ReadAnyObjectFromStream_pass S f) as [r | f'] eqn:Hpass.
  - split; [done | by exists r].
  - apply pass_again_progress in Hpass as (Hc & Hp & Hlt).
    apply IH; rewrite Hc; lia.
Qed.

Lemma ReadAnyObjectFromStream_again (S : SolverArrays) (f f' : istream) :
  ReadAnyObjectFromStream_pass S f = inr f' ->
  ReadAnyObjectFromStream S f = ReadAnyObjectFromStream S f'.
Proof.
  intros Hpass. unfold ReadAnyObjectFromStream at 1.
  cbn [ReadAnyObjectFromStream_fuel]. rewrite Hpass.
  apply pass_again_progress in Hpass as (Hc & Hp & Hlt).
  unfold ReadAnyObjectFromStream.
  apply ReadAnyObjectFromStream_fuel_enough; rewrite Hc; lia.
Qed.

Lemma ReadAnyObjectFromStream_leave (S : SolverArrays) (f : istream)
    (r : istream * result (option FEMLightObject)) :
  ReadAnyObjectFromStream_pass S f = inl r ->
  ReadAnyObjectFromStream S f = Some r.
Proof.
  intros Hpass. unfold ReadAnyObjectFromStream.
  cbn [ReadAnyObjectFromStream_fuel]. by rewrite Hpass.
Qed.

(** ReadAnyObjectFromStream comes to an end on every stream. *)
Lemma ReadAnyObjectFromStream_total (S : SolverArrays) (f : istream) :
  is_Some (ReadAnyObjectFromStream S f).
Proof.
  unfold ReadAnyObjectFromStream.
  apply (ReadAnyObjectFromStream_fuel_enough
           _ (Datatypes.S (length (content f) - gpos f)) S f); lia.
Qed.

(** ** The ways out of ReadAnyObjectFromStream *)

(** The code at [out] puts a stream that has not failed back where the
    attempt began. *)
Lemma seekg_tellg (f f' : istream) :
  failbit f = false -> failbit f' = false ->
  gpos (seekg (tellg f) f') = gpos f.
Proof.
  intros Hf Hf'. unfold seekg, tellg. rewrite Hf, Hf'.
  destruct (Z.ltb_spec (Z.of_nat (gpos f)) 0) as [? | _]; [lia |].
  simpl. apply Nat2Z.id.
Qed.

(** A pass that finds a token. *)
Lemma pass_at_token (S : SolverArrays) (f f2 : istream) (buf s : list ascii) :
  let f1 := SkipWhiteSpace f in
  eofbit f1 = false -> failbit f1 = false ->
  content f1 !! gpos f1 = Some "<"%char ->
  getline 256 ">" (set_gpos (Datatypes.S (gpos f1)) f1) = (buf, f2) ->
  token whitespaces buf = Some s ->
  ReadAnyObjectFromStream_pass S f
  = let name := string_of_list_ascii s in
    if String.eqb name "END" then inr f2
    else if ClassName2ID name <? 0
    then inl (ReadAnyObjectFromStream_out (tellg f) f2)
    else
      match Create (ClassName2ID name) with
      | None => inl (ReadAnyObjectFromStream_out (tellg f) f2)
      | Some a =>
          match Read a f2 (read_info S a) with
          | (f3, Returned a') => inl (f3, Returned (Some a'))
          | (f3, Thrown e) => inl (f3, Thrown e)
          | (f3, Undefined u) => inl (f3, Undefined u)
          end
      end.
Proof.
  intros f1 He Hf Hc Hgl Htok. unfold ReadAnyObjectFromStream_pass.
  fold f1. rewrite He, (get_good f1 "<" He Hf Hc).
  rewrite Z.eqb_refl. cbn [negb]. by rewrite Hgl, Htok.
Qed.

(** C8, as the code has it.  On a stream that has not failed, after
    SkipWhiteSpace: at the end of the stream the function returns no object
    and no error; a first character other than the opening bracket puts the
    stream back where the attempt began and throws the read error; after a
    token, END makes the function start again behind the token (and it
    comes to an end from there); a name the factory does not know or cannot
    create puts the stream back (when reading the token has not failed the
    stream) and throws the read error; an exception of the object's own Read
    leaves the function as it is, with the stream where Read left it; and an
    object that was read is returned. *)
Theorem ReadAnyObjectFromStream_outcomes (S : SolverArrays) (f : istream) :
  failbit f = false ->
  let f1 := SkipWhiteSpace f in
  (eofbit f1 = true -> ReadAnyObjectFromStream S f = Some (f1, Returned None))
  /\ (forall c,
        eofbit f1 = false -> failbit f1 = false ->
        content f1 !! gpos f1 = Some c -> c <> "<"%char ->
        exists f',
          ReadAnyObjectFromStream S f
          = Some (f', Thrown ReadAnyObjectFromStream_error)
          /\ gpos f' = gpos f)
  /\ (forall buf f2 s,
        eofbit f1 = false -> failbit f1 = false ->
        content f1 !! gpos f1 = Some "<"%char ->
        getline 256 ">" (set_gpos (Datatypes.S (gpos f1)) f1) = (buf, f2) ->
        token whitespaces buf = Some s ->
        let name := string_of_list_ascii s in
        (name = "END"%string ->
         ReadAnyObjectFromStream S f = ReadAnyObjectFromStream S f2
         /\ is_Some (ReadAnyObjectFromStream S f2))
        /\ (name <> "END"%string -> failbit f2 = false ->
            ClassName2ID name < 0 \/ Create (ClassName2ID name) = None ->
            exists f',
              ReadAnyObjectFromStream S f
              = Some (f', Thrown ReadAnyObjectFromStream_error)
              /\ gpos f' = gpos f)
        /\ (forall a f3 e,
              name <> "END"%string -> 0 <= ClassName2ID name ->
              Create (ClassName2ID name) = Some a ->
              Read a f2 (read_info S a) = (f3, Thrown e) ->
              ReadAnyObjectFromStream S f = Some (f3, Thrown e))
        /\ (forall a f3 a',
              name <> "END"%string -> 0 <= ClassName2ID name ->
              Create (ClassName2ID name) = Some a ->
              Read a f2 (read_info S a) = (f3, Returned a') ->
              ReadAnyObjectFromStream S f = Some (f3, Returned (Some a')))).
Proof.
  intros Hf f1. split; [| split].
  - intros He. apply ReadAnyObjectFromStream_leave.
    unfold ReadAnyObjectFromStream_pass. fold f1. by rewrite He.
  - intros c He Hf1 Hc Hne.
    exists (seekg (tellg f) (set_gpos (Datatypes.S (gpos f1)) f1)). split.
    + apply ReadAnyObjectFromStream_leave.
      unfold ReadAnyObjectFromStream_pass. fold f1.
      rewrite He, (get_good f1 c He Hf1 Hc).
      destruct (Z.eqb_spec (Z.of_nat (nat_of_ascii c)) (Z.of_nat (nat_of_ascii "<")))
        as [E | _]; [by apply nat_of_ascii_inj in E | done].
    + by apply seekg_tellg.
  - intros buf f2 s He Hf1 Hc Hgl Htok name.
    pose proof (pass_at_token S f f2 buf s He Hf1 Hc Hgl Htok) as Hpass.
    cbn zeta in Hpass. fold name in Hpass.
    split; [| split; [| split]].
    + intros Hend. split; [| apply ReadAnyObjectFromStream_total].
      apply ReadAnyObjectFromStream_again.
      rewrite Hpass. by apply String.eqb_eq in Hend as ->.
    + intros Hend Hf2 Hbad. exists (seekg (tellg f) f2).
      split; [| by apply seekg_tellg].
      apply ReadAnyObjectFromStream_leave. rewrite Hpass.
      apply String.eqb_neq in Hend as ->.
      destruct (Z.ltb_spec (ClassName2ID name) 0) as [_ | Hge]; [done |].
      destruct Hbad as [? | ->]; [lia | done].
    + intros a f3 e Hend Hid Hcreate Hread.
      apply ReadAnyObjectFromStream_leave. rewrite Hpass.
      apply String.eqb_neq in Hend as ->.
      destruct (Z.ltb_spec (ClassName2ID name) 0) as [? | _]; [lia |].
      by rewrite Hcreate, Hread.
    + intros a f3 a' Hend Hid Hcreate Hread.
      apply ReadAnyObjectFromStream_leave. rewrite Hpass.
      apply String.eqb_neq in Hend as ->.
      destruct (Z.ltb_spec (ClassName2ID name) 0) as [? | _]; [lia |].
      by rewrite Hcreate, Hread.
Qed.

End ReadingProperties.

(** * Further properties of the assemblers *)

Section AssemblerProperties.
Context `{FT : FEMTypes}.
Local Open Scope fem_scope.

(** ** How AssembleK ends *)

Lemma all_or_some {A : Type} (p : A -> bool) (l : list A) :
  Forall (fun x => p x = false) l \/ exists x, x ∈ l /\ p x = true.
Proof.
  induction l as [| a l [IH | (x & Hx & Hp)]].
  - left. constructor.
  - destruct (p a) eqn:Ha.
    + right. exists a. split; [by left | done].
    + left. by constructor.
  - right. exists x. split; [by right | done].
Qed.

(** AssembleK when the loop over its items stops at an item. *)
Lemma AssembleK_stops (s : Solver) (pre post : list K_item) (it : K_item)
    (calls calls' : list ls_call) (r : result unit) :
  0 < NGFN s ->
  AssembleK_items s = pre ++ it :: post ->
  for_each (AssembleK_item (NGFN s)) pre = (calls, Returned tt) ->
  AssembleK_item (NGFN s) it = (calls', r) ->
  (forall u, r <> Returned u) ->
  (AssembleK s).2 = r
  /\ m_ls (AssembleK s).1
     = m_ls s ++ SetSystemOrder (NGFN s + (collect_MFC (load s) 0).2)
              :: InitializeMatrix :: calls ++ calls'.
Proof.
  intros Hn Hsplit Hpre Hit Hr. rewrite (AssembleK_unfold s Hn). cbn [fst snd m_ls].
  by rewrite Hsplit, (for_each_stop _ pre post it calls calls' r Hpre Hit Hr).
Qed.

(** The items all pass the test exactly when the DOFs of the elements and of
    the MFC terms are below NGFN. *)
Lemma AssembleK_items_legal (s : Solver) :
  Forall (fun it => illegal_GFN (NGFN s) it = false) (AssembleK_items s)
  <-> (forall e j, e ∈ el s -> 0 <= j < GetNumberOfDegreesOfFreedom e ->
                   GetDegreeOfFreedom e j < NGFN s)
      /\ (forall c q, c ∈ mfcLoads s -> q ∈ lhs c -> term_gfn q < NGFN s).
Proof.
  rewrite Forall_forall. split.
  - intros Hall. split.
    + intros e j He Hj.
      assert (K_entry e j j ∈ AssembleK_items s) as Hin
        by by apply elem_of_K_items_entry.
      specialize (Hall _ Hin). simpl in Hall.
      apply orb_false_iff in Hall as [H%Z.leb_gt _]. done.
    + intros c q Hc Hq.
      assert (K_term c q ∈ AssembleK_items s) as Hin
        by by apply elem_of_K_items_term.
      specialize (Hall _ Hin). simpl in Hall. by apply Z.leb_gt.
  - intros [He Hc] [e j k | c q] Hin; simpl.
    + apply elem_of_K_items_entry in Hin as (Hin & Hj & Hk).
      apply orb_false_iff. split; apply Z.leb_gt; by apply He.
    + apply elem_of_K_items_term in Hin as (Hin & Hq).
      apply Z.leb_gt. exact (Hc c q Hin Hq).
Qed.

(** X1. With NGFN > 0 and element matrices that have the entries the loops
    visit, AssembleK returns exactly when every DOF of every element and the
    DOF of every term of every MFC is below NGFN; otherwise it throws the
    Illegal GFN exception.  It ends in no other way. *)
Theorem AssembleK_returns_iff_legal (s : Solver) :
  0 < NGFN s ->
  (forall e, e ∈ el s -> Ke_covers e) ->
  ((AssembleK s).2 = Returned tt
   <-> (forall e j, e ∈ el s -> 0 <= j < GetNumberOfDegreesOfFreedom e ->
                    GetDegreeOfFreedom e j < NGFN s)
       /\ (forall c q, c ∈ mfcLoads s -> q ∈ lhs c -> term_gfn q < NGFN s))
  /\ ((AssembleK s).2 = Returned tt
      \/ (AssembleK s).2 = Thrown AssembleK_IllegalGFN).
Proof.
  intros Hn Hcov.
  pose proof (K_items_defined (el s) (mfcLoads s) Hcov) as Hdef.
  fold (AssembleK_items s) in Hdef.
  assert (Forall (fun it => illegal_GFN (NGFN s) it = false) (AssembleK_items s)
          -> (AssembleK s).2 = Returned tt) as Hret.
  { intros Hall. destruct (for_each_legal_returns (NGFN s) _ Hdef Hall) as [calls Hc].
    rewrite (AssembleK_unfold s Hn). cbn [snd]. by rewrite Hc. }
  split.
  - rewrite <- AssembleK_items_legal. split; [| exact Hret].
    intros Hr. by destruct (AssembleK_returned s Hn Hr).
  - destruct (all_or_some (illegal_GFN (NGFN s)) (AssembleK_items s))
      as [Hall | (it & Hin & Hit)]; [left; by apply Hret | right].
    destruct (first_failing _ _ _ Hin Hit) as (pre & y & post & Hsplit & Hy & Hpre).
    rewrite Hsplit in Hdef. apply Forall_app in Hdef as [Hdef _].
    destruct (for_each_legal_returns (NGFN s) pre Hdef Hpre) as [calls Hcalls].
    by destruct (AssembleK_stops s pre post y calls [] _ Hn Hsplit Hcalls
                   (AssembleK_item_illegal _ _ Hy)).
Qed.

(** An entry outside the element matrix. *)
Lemma Ke_at_None (e : Element) (j k : Z) :
  0 <= j -> 0 <= k ->
  (Z.of_nat (length (Ke e)) <= j
   \/ exists row, Ke e !! Z.to_nat j = Some row /\ Z.of_nat (length row) <= k) ->
  Ke_at e j k = None.
Proof.
  intros Hj Hk H. unfold Ke_at.
  destruct (vnl_get (Ke e) j) as [row |] eqn:Hrow; [| done]. simpl.
  apply vnl_get_None. right.
  unfold vnl_get in Hrow. destruct (Z.leb_spec 0 j) as [_ | ?]; [| lia].
  destruct H as [Hlen | (row' & Hrow' & Hlen)].
  - apply lookup_lt_Some in Hrow. lia.
  - rewrite Hrow in Hrow'. by injection Hrow' as ->.
Qed.

(** X2. AssembleK never compares the size of an element matrix with the
    number of DOFs of the element.  With NGFN > 0, at an entry (j,k) whose
    DOFs pass the test but which lies outside the matrix [Ke] returned (the
    matrix has too few rows, or row j too few columns), all passes before
    having returned, AssembleK ends in a read outside the matrix, after the
    calls of the passes before. *)
Theorem AssembleK_reads_outside_Ke (s : Solver) (pre post : list K_item)
    (e : Element) (j k : Z) (calls : list ls_call) :
  0 < NGFN s ->
  AssembleK_items s = pre ++ K_entry e j k :: post ->
  for_each (AssembleK_item (NGFN s)) pre = (calls, Returned tt) ->
  GetDegreeOfFreedom e j < NGFN s -> GetDegreeOfFreedom e k < NGFN s ->
  (Z.of_nat (length (Ke e)) <= j
   \/ exists row, Ke e !! Z.to_nat j = Some row /\ Z.of_nat (length row) <= k) ->
  (AssembleK s).2 = Undefined (vnl_matrix_out_of_range j k)
  /\ m_ls (AssembleK s).1
     = m_ls s ++ SetSystemOrder (NGFN s + (collect_MFC (load s) 0).2)
              :: InitializeMatrix :: calls.
Proof.
  intros Hn Hsplit Hpre Hj Hk Hout.
  assert (K_entry e j k ∈ AssembleK_items s) as Hin
    by (rewrite Hsplit; apply elem_of_app; right; left).
  apply elem_of_K_items_entry in Hin as (_ & Hjr & Hkr).
  assert (AssembleK_item (NGFN s) (K_entry e j k)
          = ([], Undefined (vnl_matrix_out_of_range j k))) as Hit.
  { simpl. unfold AssembleK_entry.
    destruct (Z.leb_spec (NGFN s) (GetDegreeOfFreedom e j)); [lia |].
    destruct (Z.leb_spec (NGFN s) (GetDegreeOfFreedom e k)); [lia |].
    simpl. rewrite Ke_at_None; [done | lia | lia | done]. }
  destruct (AssembleK_stops s pre post _ calls [] _ Hn Hsplit Hpre Hit) as [Hr Hm];
    [done |].
  split; [done |]. by rewrite app_nil_r in Hm.
Qed.

(** ** The calls of AssembleK and what they leave alone *)

Lemma AssembleK_item_calls_ok (s : Solver) :
  Forall (fun c => AssembleK_call_ok (NGFN s) (collect_MFC (load s) 0).2 c
                   /\ match c with SetSystemOrder _ => False | _ => True end)
    (for_each (AssembleK_item (NGFN s)) (AssembleK_items s)).1.
Proof.
  apply Forall_forall. intros c Hc.
  apply AssembleK_calls_from_items in Hc as (it & Hit & Hl & Hshape).
  destruct it as [e j k | c0 q].
  - destruct Hshape as (v & _ & _ & ->). simpl in *.
    apply orb_false_iff in Hl as [Hj%Z.leb_gt Hk%Z.leb_gt]. done.
  - apply elem_of_K_items_term in Hit as [Hc0%mfcLoads_Index_range _].
    simpl in Hl. apply Z.leb_gt in Hl.
    destruct Hshape as [-> | ->]; simpl; (split; [| done]); [left | right]; lia.
Qed.

Lemma ls_run_matrix_calls (L : LinearSystem) (calls : list ls_call) :
  Forall matrix_call calls ->
  ls_vector (ls_run L calls) = ls_vector L /\ ls_order (ls_run L calls) = ls_order L.
Proof.
  revert L. induction calls as [| c calls IH]; intros L H; [done |].
  inversion H as [| ? ? Hc Hcalls]; subst.
  change (ls_vector (ls_run (ls_apply L c) calls) = ls_vector L
          /\ ls_order (ls_run (ls_apply L c) calls) = ls_order L).
  destruct (IH (ls_apply L c) Hcalls) as [-> ->]. by destruct c.
Qed.

Lemma ls_run_vector_calls (L : LinearSystem) (calls : list ls_call) :
  Forall vector_call calls ->
  ls_matrix (ls_run L calls) = ls_matrix L /\ ls_order (ls_run L calls) = ls_order L.
Proof.
  revert L. induction calls as [| c calls IH]; intros L H; [done |].
  inversion H as [| ? ? Hc Hcalls]; subst.
  change (ls_matrix (ls_run (ls_apply L c) calls) = ls_matrix L
          /\ ls_order (ls_run (ls_apply L c) calls) = ls_order L).
  destruct (IH (ls_apply L c) Hcalls) as [-> ->]. by destruct c.
Qed.

(** The matrix after some calls depends on the matrix before only, and the
    vector on the vector before only. *)
Lemma ls_run_matrix_ext (L L' : LinearSystem) (calls : list ls_call) :
  ls_matrix L = ls_matrix L' ->
  ls_matrix (ls_run L calls) = ls_matrix (ls_run L' calls).
Proof.
  revert L L'. induction calls as [| c calls IH]; intros L L' H; [done |].
  change (ls_matrix (ls_run (ls_apply L c) calls)
          = ls_matrix (ls_run (ls_apply L' c) calls)).
  apply IH. destruct c; simpl; try done; unfold GetMatrixValue; by rewrite H.
Qed.

Lemma ls_run_vector_ext (L L' : LinearSystem) (calls : list ls_call) :
  ls_vector L = ls_vector L' ->
  ls_vector (ls_run L calls) = ls_vector (ls_run L' calls).
Proof.
  revert L L'. induction calls as [| c calls IH]; intros L L' H; [done |].
  change (ls_vector (ls_run (ls_apply L c) calls)
          = ls_vector (ls_run (ls_apply L' c) calls)).
  apply IH. destruct c; simpl; try done; unfold GetVectorValue; by rewrite H.
Qed.

(** X3. With NGFN > 0, however AssembleK ends, each call it made on the
    linear system is SetSystemOrder(NGFN+NMFC), InitializeMatrix, an
    AddMatrixValue with both indices below NGFN, or a SetMatrixValue that
    pairs an index below NGFN with the index NGFN+m of a multiplier,
    0 <= m < NMFC: nothing is written at or beyond the order the system was
    sized to, and no call concerns the vector. *)
Theorem AssembleK_calls_within_order (s : Solver) :
  0 < NGFN s ->
  Forall (AssembleK_call_ok (NGFN s) (NMFC (AssembleK s).1))
    (new_calls s (AssembleK s).1).
Proof.
  intros Hn. rewrite (new_calls_AssembleK s Hn).
  assert (NMFC (AssembleK s).1 = (collect_MFC (load s) 0).2) as ->
    by by rewrite (AssembleK_unfold s Hn).
  constructor; [done |]. constructor; [done |].
  eapply Forall_impl; [apply AssembleK_item_calls_ok |]. by intros c [Hc _].
Qed.

(** X4. With NGFN > 0, however AssembleK ends, the linear system has the
    order NGFN+NMFC afterwards, and its vector is what the call
    SetSystemOrder(NGFN+NMFC) made of the vector before, whatever that is:
    no other call of AssembleK touches the vector. *)
Theorem AssembleK_sizes_and_keeps_vector (s : Solver) (L : LinearSystem) :
  0 < NGFN s ->
  let sized :=
    ls_apply (ls_run L (m_ls s)) (SetSystemOrder (NGFN s + NMFC (AssembleK s).1)) in
  ls_order (ls_run L (m_ls (AssembleK s).1)) = NGFN s + NMFC (AssembleK s).1
  /\ ls_vector (ls_run L (m_ls (AssembleK s).1)) = ls_vector sized.
Proof.
  intros Hn sized. subst sized. pose proof (AssembleK_item_calls_ok s) as Hok.
  rewrite (AssembleK_unfold s Hn). cbn [fst m_ls NMFC].
  rewrite ls_run_app.
  set (L1 := ls_apply (ls_run L (m_ls s))
               (SetSystemOrder (NGFN s + (collect_MFC (load s) 0).2))).
  change (ls_order (ls_run L1 (InitializeMatrix
            :: (for_each (AssembleK_item (NGFN s)) (AssembleK_items s)).1))
          = ls_order L1
          /\ ls_vector (ls_run L1 (InitializeMatrix
                 :: (for_each (AssembleK_item (NGFN s)) (AssembleK_items s)).1))
             = ls_vector L1).
  destruct (ls_run_matrix_calls L1
              (InitializeMatrix
               :: (for_each (AssembleK_item (NGFN s)) (AssembleK_items s)).1))
    as [Hv Ho]; [| by split].
  constructor; [done |].
  eapply Forall_impl; [exact Hok |]. intros c [Hc Hs]. by destruct c.
Qed.

(** Searching the MFCs of a load array that has been searched changes
    nothing. *)
Lemma collect_MFC_again (loads : list Load) (n : Z) :
  collect_MFC (collect_MFC loads n).1.1 n = collect_MFC loads n.
Proof.
  revert n. induction loads as [| l loads IH]; intros n; [done |].
  destruct l as [l1 | l1 | l1 | name]; simpl.
  1, 2, 4: specialize (IH n); destruct (collect_MFC loads n) as [[rest' mfcs] n'];
    simpl in *; by rewrite IH.
  specialize (IH (n + 1)).
  destruct (collect_MFC loads (n + 1)) as [[rest' mfcs] n']. simpl in *.
  by rewrite IH.
Qed.

(** X5. With NGFN > 0, a second AssembleK right after the first ends as the
    first did, stores the same indices and the same NMFC, makes the same
    calls, and leaves the matrix as the first left it. *)
Theorem AssembleK_again (s : Solver) (L : LinearSystem) :
  0 < NGFN s ->
  let s1 := (AssembleK s).1 in
  (AssembleK s1).2 = (AssembleK s).2
  /\ load (AssembleK s1).1 = load s1
  /\ NMFC (AssembleK s1).1 = NMFC s1
  /\ new_calls s1 (AssembleK s1).1 = new_calls s (AssembleK s).1
  /\ ls_matrix (ls_run L (m_ls (AssembleK s1).1)) = ls_matrix (ls_run L (m_ls s1)).
Proof.
  intros Hn s1.
  assert (NGFN s1 = NGFN s) as HN by (subst s1; by rewrite (AssembleK_unfold s Hn)).
  assert (el s1 = el s) as He by (subst s1; by rewrite (AssembleK_unfold s Hn)).
  assert (load s1 = (collect_MFC (load s) 0).1.1) as Hl
    by (subst s1; by rewrite (AssembleK_unfold s Hn)).
  assert (NMFC s1 = (collect_MFC (load s) 0).2) as Hm
    by (subst s1; by rewrite (AssembleK_unfold s Hn)).
  assert (collect_MFC (load s1) 0 = collect_MFC (load s) 0) as Hc
    by (rewrite Hl; apply collect_MFC_again).
  assert (AssembleK_items s1 = AssembleK_items s) as Hi
    by (unfold AssembleK_items, mfcLoads; by rewrite Hc, He).
  assert (0 < NGFN s1) as Hn1 by lia.
  assert (new_calls s1 (AssembleK s1).1 = new_calls s (AssembleK s).1) as Hnew
    by (rewrite !new_calls_AssembleK by done; by rewrite Hc, Hi, HN).
  split; [| split; [| split; [| split]]]; try done.
  - rewrite (AssembleK_unfold s1 Hn1), (AssembleK_unfold s Hn). cbn [snd].
    by rewrite Hi, HN.
  - rewrite (AssembleK_unfold s1 Hn1). cbn [fst load]. by rewrite Hc.
  - rewrite (AssembleK_unfold s1 Hn1). cbn [fst NMFC]. by rewrite Hc.
  - assert (m_ls (AssembleK s1).1 = m_ls s1 ++ new_calls s (AssembleK s).1) as ->.
    { rewrite <- Hnew. rewrite (new_calls_AssembleK s1 Hn1).
      by rewrite (AssembleK_unfold s1 Hn1). }
    assert (m_ls s1 = m_ls s ++ new_calls s (AssembleK s).1) as ->.
    { subst s1. rewrite (new_calls_AssembleK s Hn).
      by rewrite (AssembleK_unfold s Hn). }
    rewrite (new_calls_AssembleK s Hn).
    rewrite ls_run_after_InitializeMatrix.
    rewrite (ls_run_after_InitializeMatrix L (m_ls s)).
    by apply ls_run_matrix_ext.
Qed.

(** ** The calls of AssembleF and what they leave alone *)

(** A call made for one load accumulates below NGFN, or is the overwrite of
    an MFC at its own index. *)
Lemma AssembleF_load_calls (ngfn dim : Z) (els : list Element) (l0 : Load)
    (c : ls_call) :
  c ∈ (AssembleF_load ngfn dim els l0).1 ->
  (exists i v, c = AddVectorValue i v /\ i < ngfn)
  \/ (exists l1 r, l0 = Load_LoadBCMFC l1 /\ c = SetVectorValue (ngfn + Index l1) r).
Proof.
  destruct l0 as [l1 | l1 | l1 | name]; simpl.
  - unfold AssembleF_LoadNode.
    destruct (GetNumberOfDegreesOfFreedomPerPoint (m_element l1) =? 0);
      [by intros H%elem_of_nil |].
    destruct (negb _); [by intros H%elem_of_nil |].
    intros (d & _ & Hc)%for_each_calls_elem. left.
    unfold AssembleF_LoadNode_dof in Hc.
    destruct (Z.leb_spec ngfn (GetDegreeOfFreedomAtPoint (m_element l1) (m_pt l1) d))
      as [_ | Hlt]; [by apply elem_of_nil in Hc |].
    destruct (vnl_get (F l1) _) as [v |]; [| by apply elem_of_nil in Hc].
    apply list_elem_of_singleton in Hc. eauto.
  - rewrite AssembleF_LoadElement_targets.
    intros (el0 & _ & Hc)%for_each_calls_elem. left.
    unfold AssembleF_LoadElement_on in Hc.
    apply for_each_calls_elem in Hc as (j & _ & Hc).
    unfold AssembleF_LoadElement_dof in Hc.
    destruct (Z.leb_spec ngfn (GetDegreeOfFreedom el0 j))
      as [_ | Hlt]; [by apply elem_of_nil in Hc |].
    destruct (vnl_get _ _) as [v |]; [| by apply elem_of_nil in Hc].
    apply list_elem_of_singleton in Hc. eauto.
  - unfold AssembleF_LoadBCMFC.
    destruct (vnl_get (rhs l1) (uint32 dim)) as [r |]; [| by intros H%elem_of_nil].
    intros Hc%list_elem_of_singleton. right. eauto.
  - by intros H%elem_of_nil.
Qed.

Lemma new_calls_AssembleF (dim : Z) (s : Solver) :
  0 < NGFN s ->
  new_calls s (AssembleF dim s).1
  = InitializeVector :: (for_each (AssembleF_load (NGFN s) dim (el s)) (load s)).1.
Proof.
  intros Hn. unfold new_calls. rewrite (AssembleF_unfold dim s Hn). cbn [fst m_ls with_m_ls].
  by rewrite drop_app_length.
Qed.

Lemma AssembleF_load_calls_vector (ngfn dim : Z) (els : list Element)
    (loads : list Load) :
  Forall vector_call (for_each (AssembleF_load ngfn dim els) loads).1.
Proof.
  apply Forall_forall. intros c (l0 & _ & Hc)%for_each_calls_elem.
  apply AssembleF_load_calls in Hc as [(i & v & -> & _) | (l1 & r & _ & ->)]; done.
Qed.

Lemma AssembleF_keeps_state (dim : Z) (s : Solver) :
  el (AssembleF dim s).1 = el s /\ load (AssembleF dim s).1 = load s
  /\ NGFN (AssembleF dim s).1 = NGFN s.
Proof.
  unfold AssembleF. destruct (NGFN s <=? 0); [done |].
  by destruct (AssembleF_body _ _ _ _).
Qed.

(** X6. AssembleF, for every [dim] and however it ends, makes no call that
    changes the matrix or the order of the linear system: whatever the
    linear system held, its matrix and its order are the same afterwards. *)
Theorem AssembleF_keeps_matrix (dim : Z) (s : Solver) (L : LinearSystem) :
  ls_matrix (ls_run L (m_ls (AssembleF dim s).1)) = ls_matrix (ls_run L (m_ls s))
  /\ ls_order (ls_run L (m_ls (AssembleF dim s).1)) = ls_order (ls_run L (m_ls s)).
Proof.
  destruct (Z.leb_spec (NGFN s) 0) as [Hle | Hn].
  - unfold AssembleF. destruct (Z.leb_spec (NGFN s) 0) as [_ | ?]; [done | lia].
  - rewrite (AssembleF_unfold dim s Hn). cbn [fst with_m_ls m_ls].
    rewrite ls_run_app.
    apply ls_run_vector_calls. constructor; [done |].
    apply AssembleF_load_calls_vector.
Qed.

(** X7. AssembleF starts from a vector of its own: called after an AssembleF
    for any dimension, it ends as it would have ended without that call and
    leaves the vector it would have left, so the right-hand sides of
    different dimensions never add up. *)
Theorem AssembleF_again (dim dim' : Z) (s : Solver) (L : LinearSystem) :
  (AssembleF dim (AssembleF dim' s).1).2 = (AssembleF dim s).2
  /\ ls_vector (ls_run L (m_ls (AssembleF dim (AssembleF dim' s).1).1))
     = ls_vector (ls_run L (m_ls (AssembleF dim s).1)).
Proof.
  destruct (Z.leb_spec (NGFN s) 0) as [Hle | Hn].
  - unfold AssembleF. destruct (Z.leb_spec (NGFN s) 0) as [_ | ?]; [| lia].
    cbn [fst]. by destruct (Z.leb_spec (NGFN s) 0) as [_ | ?]; [| lia].
  - destruct (AssembleF_keeps_state dim' s) as (He & Hl & HN).
    assert (0 < NGFN (AssembleF dim' s).1) as Hn' by lia.
    rewrite (AssembleF_unfold dim _ Hn'), (AssembleF_unfold dim s Hn).
    cbn [fst snd with_m_ls m_ls]. rewrite He, Hl, HN. split; [done |].
    rewrite !ls_run_app.
    change (ls_vector (ls_run (ls_apply (ls_run L (m_ls (AssembleF dim' s).1))
                                 InitializeVector)
              (for_each (AssembleF_load (NGFN s) dim (el s)) (load s)).1)
            = ls_vector (ls_run (ls_apply (ls_run L (m_ls s)) InitializeVector)
                (for_each (AssembleF_load (NGFN s) dim (el s)) (load s)).1)).
    by apply ls_run_vector_ext.
Qed.

(** The MFCs of the load array after AssembleK are [mfcLoads]. *)
Lemma MFC_after_AssembleK (s : Solver) (l1 : LoadBCMFC) :
  0 < NGFN s ->
  Load_LoadBCMFC l1 ∈ load (AssembleK s).1 ->
  0 <= Index l1 < NMFC (AssembleK s).1.
Proof.
  intros Hn Hin. rewrite (AssembleK_unfold s Hn) in *. cbn [fst load NMFC] in *.
  apply mfcLoads_Index_range. unfold mfcLoads.
  destruct (collect_MFC_spec (load s) 0) as (_ & -> & _).
  unfold the_MFCs. apply list_elem_of_omap. by exists (Load_LoadBCMFC l1).
Qed.

(** X8. With NGFN > 0, an AssembleF that follows AssembleK, however it ends,
    makes only these calls: InitializeVector, AddVectorValue at an index
    below NGFN, and SetVectorValue at the index NGFN+m of a multiplier,
    0 <= m < NMFC; so it writes nothing at or beyond the order AssembleK
    sized the system to, and changes neither the matrix nor the order. *)
Theorem AssembleF_calls_within_order (dim : Z) (s : Solver) :
  0 < NGFN s ->
  let s1 := (AssembleK s).1 in
  Forall (AssembleF_call_ok (NGFN s) (NMFC s1)) (new_calls s1 (AssembleF dim s1).1).
Proof.
  intros Hn s1.
  assert (NGFN s1 = NGFN s) as HN by (subst s1; by rewrite (AssembleK_unfold s Hn)).
  assert (0 < NGFN s1) as Hn1 by lia.
  rewrite (new_calls_AssembleF dim s1 Hn1). constructor; [done |].
  apply Forall_forall. intros c (l0 & Hl0 & Hc)%for_each_calls_elem.
  apply AssembleF_load_calls in Hc as [(i & v & -> & Hi) | (l1 & r & -> & ->)].
  - simpl. lia.
  - apply (MFC_after_AssembleK s l1 Hn) in Hl0. fold s1 in Hl0. simpl. lia.
Qed.

(** A loop skips the entries whose pass does nothing. *)
Lemma for_each_filter {A : Type} (body : A -> M unit) (p : A -> bool) (l : list A) :
  (forall x, p x = false -> body x = ret tt) ->
  for_each body (List.filter p l) = for_each body l.
Proof.
  intros Hskip. induction l as [| x l IH]; [done |]. cbn [List.filter for_each].
  destruct (p x) eqn:Hp.
  - cbn [for_each]. by rewrite IH.
  - by rewrite IH, (Hskip x Hp), bind_ret_l.
Qed.

(** X9. Loads that are neither nodal loads, element loads nor MFCs count
    for nothing in AssembleF: without them in the load array AssembleF ends
    in the same way after the same calls. *)
Theorem AssembleF_skips_other_loads (dim : Z) (s : Solver) :
  let s' := with_load s (List.filter (fun l => negb (is_other l)) (load s)) in
  (AssembleF dim s').2 = (AssembleF dim s).2
  /\ m_ls (AssembleF dim s').1 = m_ls (AssembleF dim s).1.
Proof.
  intros s'.
  assert (AssembleF_body (NGFN s) dim (el s) (load s')
          = AssembleF_body (NGFN s) dim (el s) (load s)) as Hbody.
  { unfold AssembleF_body. subst s'. cbn [load with_load].
    rewrite for_each_filter; [done |].
    by intros [l1 | l1 | l1 | name]. }
  unfold AssembleF. change (NGFN s') with (NGFN s). change (el s') with (el s).
  change (m_ls s') with (m_ls s). rewrite Hbody.
  destruct (NGFN s <=? 0); [done |].
  by destruct (AssembleF_body (NGFN s) dim (el s) (load s)).
Qed.

(** X10. Solve has no test of NGFN: for a system without DOF, where
    AssembleK and AssembleF do nothing, the calls InitializeSolution and
    Solve are made all the same, and they are the only calls made on the
    linear system, which was never sized. *)
Theorem Solve_without_DOF (dim : Z) (s : Solver) :
  NGFN s <= 0 ->
  m_ls (Solve (AssembleF dim (AssembleK s).1).1)
  = m_ls s ++ [InitializeSolution; ls_Solve].
Proof.
  intros Hle. unfold AssembleK.
  destruct (Z.leb_spec (NGFN s) 0) as [_ | ?]; [| lia]. cbn [fst].
  unfold AssembleF. by destruct (Z.leb_spec (NGFN s) 0) as [_ | ?]; [| lia].
Qed.

(** ** The slice of a force vector that a load adds *)

Lemma for_each_calls_zip {A : Type} (body : A -> M unit)
    (g : A -> Float -> ls_call) (ds : list A) (vs : list Float) :
  Forall2 (fun d v => body d = call (g d v)) ds vs ->
  for_each body ds = (zip_with g ds vs, Returned tt).
Proof.
  induction 1 as [| d v ds vs Hd _ IH]; [done |].
  cbn [for_each zip_with]. by rewrite Hd, IH.
Qed.

(** A loop over the DOFs 0, ..., m-1 whose passes add the entries
    off, ..., off+m-1 of a vector. *)
Lemma dof_loop_returns (body : Z -> M unit) (g : Z -> Float -> ls_call)
    (v : list Float) (off m : Z) :
  0 <= off -> 0 <= m -> off + m <= Z.of_nat (length v) ->
  (forall d x, 0 <= d < m -> v !! Z.to_nat (off + d) = Some x ->
               body d = call (g d x)) ->
  for_each body (seqZ 0 m)
  = (zip_with g (seqZ 0 m) (take (Z.to_nat m) (drop (Z.to_nat off) v)), Returned tt).
Proof.
  intros Hoff Hm Hlen Hbody. apply for_each_calls_zip.
  apply Forall2_same_length_lookup_2.
  - rewrite length_seqZ, length_take, length_drop. lia.
  - intros i d x Hd Hx. apply lookup_seqZ in Hd as [-> Hi].
    apply lookup_take_Some in Hx as [Hx _]. rewrite lookup_drop in Hx.
    apply Hbody; [lia |].
    by replace (Z.to_nat (off + (0 + Z.of_nat i))) with (Z.to_nat off + i)%nat by lia.
Qed.

(** The same loop when the pass of DOF [d] does not return. *)
Lemma dof_loop_stops (body : Z -> M unit) (g : Z -> Float -> ls_call)
    (v : list Float) (off n d : Z) (r : result unit) :
  0 <= off -> 0 <= d < n -> off + d <= Z.of_nat (length v) ->
  (forall d' x, 0 <= d' < d -> v !! Z.to_nat (off + d') = Some x ->
                body d' = call (g d' x)) ->
  body d = ([], r) -> (forall u, r <> Returned u) ->
  for_each body (seqZ 0 n)
  = (zip_with g (seqZ 0 d) (take (Z.to_nat d) (drop (Z.to_nat off) v)), r).
Proof.
  intros Hoff Hd Hlen Hbody Hstop Hr.
  replace n with (d + (n - d)) by lia.
  rewrite seqZ_app by lia. rewrite (seqZ_cons (0 + d)) by lia.
  rewrite Z.add_0_l.
  rewrite (for_each_stop body (seqZ 0 d) _ d _ [] r
             (dof_loop_returns body g v off d Hoff (proj1 Hd) Hlen Hbody) Hstop Hr).
  by rewrite app_nil_r.
Qed.

(** The pass of a DOF of a nodal load whose DOF and index are in range. *)
Lemma AssembleF_LoadNode_dof_in_range (ngfn dim : Z) (l1 : LoadNode) (d : Z)
    (x : Float) :
  let P := GetNumberOfDegreesOfFreedomPerPoint (m_element l1) in
  0 <= dim -> 0 <= P -> 0 <= d -> Z.of_nat (length (F l1)) < 2 ^ 32 ->
  GetDegreeOfFreedomAtPoint (m_element l1) (m_pt l1) d < ngfn ->
  F l1 !! Z.to_nat (P * dim + d) = Some x ->
  AssembleF_LoadNode_dof ngfn dim l1 d
  = call (AddVectorValue (GetDegreeOfFreedomAtPoint (m_element l1) (m_pt l1) d) x).
Proof.
  intros P Hdim HP Hd Hlen Hgfn Hx. unfold AssembleF_LoadNode_dof. fold P.
  destruct (Z.leb_spec ngfn (GetDegreeOfFreedomAtPoint (m_element l1) (m_pt l1) d));
    [lia |].
  pose proof (lookup_lt_Some _ _ _ Hx) as Hlt.
  assert (0 <= P * dim) by by apply Z.mul_nonneg_nonneg.
  rewrite LoadNode_index_exact by lia.
  unfold vnl_get. destruct (Z.leb_spec 0 (d + P * dim)); [| lia].
  by rewrite (Z.add_comm d), Hx.
Qed.

Lemma AssembleF_LoadElement_dof_in_range (ngfn dim : Z) (el0 : Element)
    (Fe0 : list Float) (j : Z) (x : Float) :
  let Ne := GetNumberOfDegreesOfFreedom el0 in
  0 <= dim -> 0 <= Ne -> 0 <= j -> Z.of_nat (length Fe0) < 2 ^ 32 ->
  GetDegreeOfFreedom el0 j < ngfn ->
  Fe0 !! Z.to_nat (dim * Ne + j) = Some x ->
  AssembleF_LoadElement_dof ngfn dim el0 Fe0 j
  = call (AddVectorValue (GetDegreeOfFreedom el0 j) x).
Proof.
  intros Ne Hdim HNe Hj Hlen Hgfn Hx. unfold AssembleF_LoadElement_dof. fold Ne.
  destruct (Z.leb_spec ngfn (GetDegreeOfFreedom el0 j)); [lia |].
  pose proof (lookup_lt_Some _ _ _ Hx) as Hlt.
  assert (0 <= dim * Ne) by by apply Z.mul_nonneg_nonneg.
  rewrite LoadElement_index_exact by lia.
  unfold vnl_get. destruct (Z.leb_spec 0 (j + dim * Ne)); [| lia].
  by rewrite (Z.add_comm j), Hx.
Qed.

(** X11. In AssembleF with NGFN > 0 and dim >= 0, at a nodal load with P > 0
    DOFs per point whose force vector (shorter than 2^32) has a length that
    is a multiple of P and holds the slice of [dim], all the DOFs of the
    point being below NGFN and the loads before handled: the load makes
    exactly P calls, AddVectorValue of entry P*dim + d of [F] at the DOF d of
    the point, for d = 0, ..., P-1 in this order, and AssembleF goes on with
    the loads after it. *)
Theorem AssembleF_LoadNode_adds_slice (dim : Z) (s : Solver) (pre post : list Load)
    (l1 : LoadNode) (calls : list ls_call) :
  0 < NGFN s ->
  load s = pre ++ Load_LoadNode l1 :: post ->
  for_each (AssembleF_load (NGFN s) dim (el s)) pre = (calls, Returned tt) ->
  let P := GetNumberOfDegreesOfFreedomPerPoint (m_element l1) in
  let size := Z.of_nat (length (F l1)) in
  0 <= dim -> 0 < P -> size `mod` P = 0 -> (dim + 1) * P <= size -> size < 2 ^ 32 ->
  (forall d, 0 <= d < P ->
             GetDegreeOfFreedomAtPoint (m_element l1) (m_pt l1) d < NGFN s) ->
  AssembleF_load (NGFN s) dim (el s) (Load_LoadNode l1)
  = (LoadNode_calls dim l1, Returned tt)
  /\ length (LoadNode_calls dim l1) = Z.to_nat P
  /\ let rest := for_each (AssembleF_load (NGFN s) dim (el s)) post in
     AssembleF dim s
     = (with_m_ls s
          (m_ls s ++ InitializeVector :: (calls ++ LoadNode_calls dim l1) ++ rest.1),
        rest.2).
Proof.
  intros Hn Hload Hpre P size Hdim HP Hmod Hslice Hsize Hgfn.
  assert (AssembleF_load (NGFN s) dim (el s) (Load_LoadNode l1)
          = (LoadNode_calls dim l1, Returned tt)) as Hl.
  { simpl. unfold AssembleF_LoadNode. fold P size.
    destruct (Z.eqb_spec P 0); [lia |]. rewrite Hmod. simpl.
    apply dof_loop_returns; [nia | lia | fold size; nia |].
    intros d x Hd Hx. apply AssembleF_LoadNode_dof_in_range; try done; try lia.
    by apply Hgfn. }
  split; [done |]. split.
  - unfold LoadNode_calls, LoadNode_calls_before. fold P.
    rewrite length_zip_with, length_seqZ, length_take, length_drop. fold size. nia.
  - intros rest. rewrite (AssembleF_unfold dim s Hn). cbn zeta.
    by rewrite Hload, (for_each_continue _ pre post _ calls _ Hpre Hl).
Qed.

Lemma for_each_all_return {A : Type} (body : A -> M unit) (f : A -> list ls_call)
    (l : list A) :
  (forall x, x ∈ l -> body x = (f x, Returned tt)) ->
  for_each body l = (flat_map f l, Returned tt).
Proof.
  induction l as [| x l IH]; intros H; [done |]. cbn [for_each flat_map].
  rewrite (H x) by by left. simpl. rewrite IH; [done |].
  intros y Hy. apply H. by right.
Qed.

(** X12. In AssembleF with NGFN > 0 and dim >= 0, at an element load whose
    targets (the elements listed in the load or, when it lists none, all the
    elements of the system) each have their DOFs below NGFN and return a
    vector [Fe] (shorter than 2^32) that holds the slice of [dim], the loads
    before handled: the load makes, target after target, the calls
    AddVectorValue of entry dim*Ne + j of [Fe] at DOF j of the target,
    j = 0, ..., Ne-1, and AssembleF goes on with the loads after it. *)
Theorem AssembleF_LoadElement_adds_slices (dim : Z) (s : Solver)
    (pre post : list Load) (l1 : LoadElement) (calls : list ls_call) :
  0 < NGFN s ->
  load s = pre ++ Load_LoadElement l1 :: post ->
  for_each (AssembleF_load (NGFN s) dim (el s)) pre = (calls, Returned tt) ->
  0 <= dim ->
  (forall el0, el0 ∈ LoadElement_targets (el s) l1 ->
     let Ne := GetNumberOfDegreesOfFreedom el0 in
     let size := Z.of_nat (length (Fe el0 (LoadElement_data l1))) in
     0 <= Ne /\ (dim + 1) * Ne <= size /\ size < 2 ^ 32
     /\ forall j, 0 <= j < Ne -> GetDegreeOfFreedom el0 j < NGFN s) ->
  let added := flat_map (LoadElement_calls dim l1) (LoadElement_targets (el s) l1) in
  AssembleF_load (NGFN s) dim (el s) (Load_LoadElement l1) = (added, Returned tt)
  /\ let rest := for_each (AssembleF_load (NGFN s) dim (el s)) post in
     AssembleF dim s
     = (with_m_ls s (m_ls s ++ InitializeVector :: (calls ++ added) ++ rest.1),
        rest.2).
Proof.
  intros Hn Hload Hpre Hdim Hok added.
  assert (AssembleF_load (NGFN s) dim (el s) (Load_LoadElement l1)
          = (added, Returned tt)) as Hl.
  { simpl. rewrite AssembleF_LoadElement_targets. apply for_each_all_return.
    intros el0 Hel0. destruct (Hok el0 Hel0) as (HNe & Hslice & Hsize & Hgfn).
    unfold AssembleF_LoadElement_on.
    apply dof_loop_returns; [nia | lia | nia |].
    intros j x Hj Hx. apply AssembleF_LoadElement_dof_in_range; try done; try lia.
    by apply Hgfn. }
  split; [done |].
  intros rest. rewrite (AssembleF_unfold dim s Hn). cbn zeta.
  by rewrite Hload, (for_each_continue _ pre post _ calls _ Hpre Hl).
Qed.

(** X13. In AssembleF with NGFN > 0 and dim >= 0, at a nodal load that
    passes the length test, whose DOF d of the point is the first that is
    not below NGFN, the entries of [F] for the DOFs before d being there and
    the loads before handled: AssembleF throws the Illegal GFN exception
    after it has added the entries of the DOFs 0, ..., d-1 of this load, so
    a part of the load stays in the vector. *)
Theorem AssembleF_LoadNode_illegal_GFN (dim : Z) (s : Solver) (pre post : list Load)
    (l1 : LoadNode) (calls : list ls_call) (d : Z) :
  0 < NGFN s ->
  load s = pre ++ Load_LoadNode l1 :: post ->
  for_each (AssembleF_load (NGFN s) dim (el s)) pre = (calls, Returned tt) ->
  let P := GetNumberOfDegreesOfFreedomPerPoint (m_element l1) in
  let size := Z.of_nat (length (F l1)) in
  0 <= dim -> 0 <= d < P -> size `mod` P = 0 -> P * dim + d <= size -> size < 2 ^ 32 ->
  (forall d', 0 <= d' < d ->
              GetDegreeOfFreedomAtPoint (m_element l1) (m_pt l1) d' < NGFN s) ->
  NGFN s <= GetDegreeOfFreedomAtPoint (m_element l1) (m_pt l1) d ->
  AssembleF dim s
  = (with_m_ls s (m_ls s ++ InitializeVector :: calls ++ LoadNode_calls_before dim l1 d),
     Thrown AssembleF_IllegalGFN)
  /\ length (LoadNode_calls_before dim l1 d) = Z.to_nat d.
Proof.
  intros Hn Hload Hpre P size Hdim Hd Hmod Hslice Hsize Hgfn Hbad.
  assert (AssembleF_load (NGFN s) dim (el s) (Load_LoadNode l1)
          = (LoadNode_calls_before dim l1 d, Thrown AssembleF_IllegalGFN)) as Hl.
  { simpl. unfold AssembleF_LoadNode. fold P size.
    destruct (Z.eqb_spec P 0); [lia |]. rewrite Hmod. simpl.
    apply dof_loop_stops; [nia | lia | fold size; nia | | | done].
    - intros d' x Hd' Hx. apply AssembleF_LoadNode_dof_in_range; try done; try lia.
      by apply Hgfn.
    - unfold AssembleF_LoadNode_dof.
      by destruct (Z.leb_spec (NGFN s)
                     (GetDegreeOfFreedomAtPoint (m_element l1) (m_pt l1) d)); [| lia]. }
  split.
  - by rewrite (AssembleF_stops dim s pre post _ calls _ _ Hn Hload Hpre Hl).
  - unfold LoadNode_calls_before. fold P.
    rewrite length_zip_with, length_seqZ, length_take, length_drop. fold size. nia.
Qed.

(** X14. The same at an element load: with NGFN > 0 and dim >= 0, at a
    target element reached whose DOF j is the first that is not below NGFN,
    the entries of [Fe] for the DOFs before j being there, AssembleF throws
    the Illegal GFN exception after it has added the entries of the DOFs
    0, ..., j-1 of this element (and those of the targets before it). *)
Theorem AssembleF_LoadElement_illegal_GFN (dim : Z) (s : Solver)
    (pre post : list Load) (l1 : LoadElement) (calls : list ls_call)
    (tpre tpost : list Element) (el0 : Element) (calls' : list ls_call) (j : Z) :
  0 < NGFN s ->
  load s = pre ++ Load_LoadElement l1 :: post ->
  for_each (AssembleF_load (NGFN s) dim (el s)) pre = (calls, Returned tt) ->
  LoadElement_targets (el s) l1 = tpre ++ el0 :: tpost ->
  for_each (AssembleF_LoadElement_on (NGFN s) dim l1) tpre = (calls', Returned tt) ->
  let Ne := GetNumberOfDegreesOfFreedom el0 in
  let size := Z.of_nat (length (Fe el0 (LoadElement_data l1))) in
  0 <= dim -> 0 <= j < Ne -> dim * Ne + j <= size -> size < 2 ^ 32 ->
  (forall j', 0 <= j' < j -> GetDegreeOfFreedom el0 j' < NGFN s) ->
  NGFN s <= GetDegreeOfFreedom el0 j ->
  AssembleF dim s
  = (with_m_ls s
       (m_ls s ++ InitializeVector
               :: calls ++ calls' ++ LoadElement_calls_before dim l1 el0 j),
     Thrown AssembleF_IllegalGFN)
  /\ length (LoadElement_calls_before dim l1 el0 j) = Z.to_nat j.
Proof.
  intros Hn Hload Hpre Ht Htpre Ne size Hdim Hj Hslice Hsize Hgfn Hbad.
  assert (AssembleF_LoadElement_on (NGFN s) dim l1 el0
          = (LoadElement_calls_before dim l1 el0 j, Thrown AssembleF_IllegalGFN)) as He.
  { unfold AssembleF_LoadElement_on. fold Ne.
    apply dof_loop_stops; [nia | lia | fold size; nia | | | done].
    - intros j' x Hj' Hx. apply AssembleF_LoadElement_dof_in_range; try done; try lia.
      by apply Hgfn.
    - unfold AssembleF_LoadElement_dof.
      by destruct (Z.leb_spec (NGFN s) (GetDegreeOfFreedom el0 j)); [| lia]. }
  assert (AssembleF_load (NGFN s) dim (el s) (Load_LoadElement l1)
          = (calls' ++ LoadElement_calls_before dim l1 el0 j,
             Thrown AssembleF_IllegalGFN)) as Hl.
  { simpl. rewrite AssembleF_LoadElement_targets, Ht. by apply for_each_stop. }
  split.
  - by rewrite (AssembleF_stops dim s pre post _ calls _ _ Hn Hload Hpre Hl).
  - unfold LoadElement_calls_before. fold Ne.
    rewrite length_zip_with, length_seqZ, length_take, length_drop. fold size. nia.
Qed.

End AssemblerProperties.

(** * Further properties of the reader *)

Section ReaderProperties.
Context `{PS : Persistence}.

(** ** getline and the token *)

Lemma getline_scan_delim (room : nat) (delim : ascii) (tok rest : list ascii) :
  Forall (fun c => c <> delim) tok -> (length tok <= room)%nat ->
  getline_scan room delim (tok ++ delim :: rest)
  = (tok, Datatypes.S (length tok), false, false).
Proof.
  revert room. induction tok as [| c tok IH]; intros room Hne Hlen.
  - destruct room; cbn [getline_scan app length]; by rewrite Ascii.eqb_refl.
  - inversion Hne as [| ? ? Hc Htok]; subst.
    destruct room as [| room]; [simpl in Hlen; lia |].
    cbn [getline_scan app length]. apply Ascii.eqb_neq in Hc as ->.
    rewrite (IH room Htok) by (simpl in Hlen; lia). done.
Qed.

Lemma getline_scan_full (delim : ascii) (long rest : list ascii) (c : ascii) :
  Forall (fun c => c <> delim) long -> c <> delim ->
  getline_scan (length long) delim (long ++ c :: rest)
  = (long, length long, false, true).
Proof.
  intros Hne Hc. induction long as [| a long IH]; cbn [getline_scan app length].
  - by apply Ascii.eqb_neq in Hc as ->.
  - inversion Hne as [| ? ? Ha Hlong]; subst.
    apply Ascii.eqb_neq in Ha as ->. by rewrite (IH Hlong).
Qed.

Lemma drop_cons_inv {A : Type} (l : list A) (n : nat) (x : A) (t : list A) :
  drop n l = x :: t -> l !! n = Some x /\ drop (Datatypes.S n) l = t.
Proof.
  intros H.
  assert (l !! n = Some x) as Hx.
  { rewrite <- (Nat.add_0_r n), <- lookup_drop. by rewrite H. }
  split; [done |]. rewrite (drop_S l x n Hx) in H. by injection H.
Qed.

(** A stream without state bits set is its own [setstate false false]. *)
Lemma setstate_good (p : nat) (f : istream) :
  eofbit f = false -> failbit f = false ->
  setstate false false (set_gpos p f) = set_gpos p f.
Proof. destruct f as [c g e fl]. simpl. by intros -> ->. Qed.

(** [getline] at a token that ends with the delimiter within the buffer. *)
Lemma getline_delim (f : istream) (tok rest : list ascii) :
  eofbit f = false -> failbit f = false ->
  drop (gpos f) (content f) = tok ++ ">"%char :: rest ->
  Forall (fun c => c <> ">"%char) tok -> (length tok <= 255)%nat ->
  getline 256 ">" f = (tok, set_gpos (gpos f + Datatypes.S (length tok)) f).
Proof.
  intros He Hf Hdrop Hne Hlen. unfold getline, good. rewrite He, Hf, Hdrop.
  cbn [negb andb Nat.sub]. rewrite (getline_scan_delim 255 ">" tok rest Hne Hlen).
  cbn [orb Nat.eqb]. by rewrite setstate_good.
Qed.

(** [getline] at 255 characters without the delimiter and one more. *)
Lemma getline_full (f : istream) (long rest : list ascii) (c : ascii) :
  eofbit f = false -> failbit f = false ->
  drop (gpos f) (content f) = long ++ c :: rest ->
  Forall (fun c => c <> ">"%char) long -> length long = 255%nat -> c <> ">"%char ->
  getline 256 ">" f = (long, setstate false true (set_gpos (gpos f + 255) f)).
Proof.
  intros He Hf Hdrop Hne Hlen Hc. unfold getline, good. rewrite He, Hf, Hdrop.
  cbn [negb andb Nat.sub]. rewrite <- Hlen at 1.
  rewrite (getline_scan_full ">" long rest c Hne Hc), Hlen. done.
Qed.

Lemma c_str_no_NUL (s : list ascii) :
  Forall (fun c => c <> zero) s -> c_str s = s.
Proof.
  induction 1 as [| c s Hc _ IH]; [done |]. cbn [c_str].
  apply Ascii.eqb_neq in Hc as ->. by rewrite IH.
Qed.

Lemma find_if_skip (p : ascii -> bool) (l1 l2 : list ascii) (c : ascii) (i : Z) :
  Forall (fun x => p x = false) l1 -> p c = true ->
  find_if p (l1 ++ c :: l2) i = i + Z.of_nat (length l1).
Proof.
  intros H Hc. revert i. induction H as [| x l1 Hx _ IH]; intros i; simpl.
  - rewrite Hc. lia.
  - rewrite Hx, IH. lia.
Qed.

Lemma find_if_none (p : ascii -> bool) (l : list ascii) (i : Z) :
  Forall (fun x => p x = false) l -> find_if p l i = npos.
Proof.
  intros H. revert i. induction H as [| x l Hx _ IH]; intros i; simpl; [done |].
  by rewrite Hx, IH.
Qed.

(** The token of the characters between the brackets: whitespace in front
    is dropped and the token ends at the first whitespace after it. *)
Lemma token_trims (ws lead name trail : list ascii) :
  Forall (fun c => is_one_of ws c = true) lead ->
  name <> [] -> Forall (fun c => is_one_of ws c = false) name ->
  (trail = [] \/ exists c t, trail = c :: t /\ is_one_of ws c = true) ->
  Forall (fun c => c <> zero) (lead ++ name ++ trail) ->
  (length (lead ++ name ++ trail) <= 255)%nat ->
  token ws (lead ++ name ++ trail) = Some name.
Proof.
  intros Hlead Hne Hname Htrail Hnul Hlen. unfold token.
  rewrite (c_str_no_NUL _ Hnul).
  destruct name as [| n0 name]; [done |]. clear Hne.
  inversion Hname as [| ? ? Hn0 Hname']; subst.
  rewrite !length_app in Hlen. cbn [length] in Hlen.
  assert (find_first_not_of (lead ++ (n0 :: name) ++ trail) ws 0
          = Z.of_nat (length lead)) as ->.
  { unfold find_first_not_of, string_size. rewrite !length_app. cbn [length].
    destruct (Z.ltb_spec 0 (Z.of_nat (length lead + (Datatypes.S (length name) + length trail))));
      [| lia].
    change (Z.to_nat 0) with 0%nat. rewrite drop_0.
    change ((n0 :: name) ++ trail) with (n0 :: (name ++ trail)).
    rewrite find_if_skip; [lia | | by rewrite Hn0].
    eapply Forall_impl; [exact Hlead |]. by intros c ->. }
  assert (find_first_of (lead ++ (n0 :: name) ++ trail) ws (Z.of_nat (length lead))
          = if decide (trail = []) then npos
            else Z.of_nat (length lead) + Z.of_nat (Datatypes.S (length name))) as ->.
  { unfold find_first_of, string_size. rewrite !length_app. cbn [length].
    destruct (Z.ltb_spec (Z.of_nat (length lead))
                (Z.of_nat (length lead + (Datatypes.S (length name) + length trail))));
      [| lia].
    rewrite Nat2Z.id, drop_app_length.
    destruct Htrail as [-> | (c & t & -> & Hc)].
    - rewrite decide_True by done. rewrite app_nil_r. by apply find_if_none.
    - rewrite decide_False by done.
      by rewrite (find_if_skip _ (n0 :: name) t c _ Hname Hc). }
  assert ((if (if decide (trail = []) then npos
               else Z.of_nat (length lead) + Z.of_nat (Datatypes.S (length name)))
              =? npos
           then string_size (lead ++ (n0 :: name) ++ trail)
           else if decide (trail = []) then npos
                else Z.of_nat (length lead) + Z.of_nat (Datatypes.S (length name)))
          = Z.of_nat (length lead) + Z.of_nat (Datatypes.S (length name))) as ->.
  { unfold npos. destruct (decide (trail = [])) as [-> | _].
    - rewrite Z.eqb_refl. unfold string_size. rewrite !length_app.
      cbn [length]. lia.
    - destruct (Z.eqb_spec (Z.of_nat (length lead) + Z.of_nat (Datatypes.S (length name)))
                  (2 ^ 64 - 1)); [lia | done]. }
  unfold substr, string_size, size_type. rewrite !length_app. cbn [length].
  destruct (Z.ltb_spec (Z.of_nat (length lead + (Datatypes.S (length name) + length trail)))
              (Z.of_nat (length lead))); [lia |].
  f_equal. rewrite Nat2Z.id, drop_app_length.
  replace (Z.to_nat ((Z.of_nat (length lead) + Z.of_nat (Datatypes.S (length name))
                      - Z.of_nat (length lead)) `mod` 2 ^ 64))
    with (length (n0 :: name)).
  - by rewrite take_app_length.
  - rewrite Z.mod_small by lia. cbn [length]. lia.
Qed.

(** No token in characters that are all whitespace: [substr] throws. *)
Lemma token_blank (ws blank : list ascii) :
  Forall (fun c => is_one_of ws c = true) blank ->
  Forall (fun c => c <> zero) blank ->
  (length blank <= 255)%nat ->
  token ws blank = None.
Proof.
  intros Hws Hnul Hlen. unfold token. rewrite (c_str_no_NUL _ Hnul).
  assert (find_first_not_of blank ws 0 = npos) as ->.
  { unfold find_first_not_of. destruct (0 <? string_size blank); [| done].
    change (Z.to_nat 0) with 0%nat. rewrite drop_0. apply find_if_none.
    eapply Forall_impl; [exact Hws |]. by intros c ->. }
  assert (find_first_of blank ws npos = npos) as ->.
  { unfold find_first_of, string_size, npos.
    destruct (Z.ltb_spec (2 ^ 64 - 1) (Z.of_nat (length blank))); [lia | done]. }
  rewrite Z.eqb_refl. unfold substr, string_size, npos.
  destruct (Z.ltb_spec (Z.of_nat (length blank)) (2 ^ 64 - 1)); [done | lia].
Qed.

(** ** Records *)

(** The pass at a bracketed token: [get] takes the opening bracket and
    [getline] the token and the closing bracket. *)
Lemma pass_at_bracket (S : SolverArrays) (f : istream) (tok rest s : list ascii) :
  bracket_at (SkipWhiteSpace f) tok rest ->
  token whitespaces tok = Some s ->
  ReadAnyObjectFromStream_pass S f
  = let f2 := behind_bracket (SkipWhiteSpace f) tok in
    let name := string_of_list_ascii s in
    if String.eqb name "END" then inr f2
    else if ClassName2ID name <? 0
    then inl (ReadAnyObjectFromStream_out (tellg f) f2)
    else
      match Create (ClassName2ID name) with
      | None => inl (ReadAnyObjectFromStream_out (tellg f) f2)
      | Some a => inl (object_read (Read a f2 (read_info S a)))
      end.
Proof.
  intros (He & Hf & Hdrop & Htok & Hlen) Hs.
  apply drop_cons_inv in Hdrop as [Hc Hdrop].
  assert (getline 256 ">" (set_gpos (Datatypes.S (gpos (SkipWhiteSpace f)))
                             (SkipWhiteSpace f))
          = (tok, behind_bracket (SkipWhiteSpace f) tok)) as Hgl.
  { rewrite (getline_delim _ tok rest); [| done | done | exact Hdrop | | done].
    - unfold behind_bracket, set_gpos. simpl. do 2 f_equal. lia.
    - eapply Forall_impl; [exact Htok |]. by intros c [? _]. }
  rewrite (pass_at_token S f _ tok s He Hf Hc Hgl Hs). cbn zeta.
  destruct (String.eqb (string_of_list_ascii s) "END"); [done |].
  destruct (ClassName2ID (string_of_list_ascii s) <? 0); [done |].
  destruct (Create (ClassName2ID (string_of_list_ascii s))) as [a |]; [| done].
  unfold object_read.
  by destruct (Read a (behind_bracket (SkipWhiteSpace f) tok) (read_info S a))
    as [f3 [a' | e | u]].
Qed.

Lemma token_between (lead name trail rest : list ascii) (f : istream) :
  bracket_at f (lead ++ name ++ trail) rest ->
  name_between lead name trail ->
  token whitespaces (lead ++ name ++ trail) = Some name.
Proof.
  intros (_ & _ & _ & Htok & Hlen) (Hlead & Hne & Hname & Htrail).
  apply token_trims; try done.
  eapply Forall_impl; [exact Htok |]. by intros c [_ ?].
Qed.

(** X15. A record is read from its characters.  When, after SkipWhiteSpace,
    a good stream stands at an opening bracket, followed by whitespace, a
    name other than END that the factory knows and can create, anything that
    begins with whitespace, and the closing bracket, at most 255 characters
    in all, then the object's Read is given the stream right behind the
    closing bracket, and ReadAnyObjectFromStream ends as Read does: with the
    object read, or with the exception of Read, the stream where Read left
    it. *)
Theorem ReadAnyObjectFromStream_reads_record (S : SolverArrays) (f : istream)
    (lead name trail rest : list ascii) (a : FEMLightObject) :
  let f1 := SkipWhiteSpace f in
  let tok := lead ++ name ++ trail in
  bracket_at f1 tok rest ->
  name_between lead name trail ->
  string_of_list_ascii name <> "END"%string ->
  0 <= ClassName2ID (string_of_list_ascii name) ->
  Create (ClassName2ID (string_of_list_ascii name)) = Some a ->
  ReadAnyObjectFromStream S f
  = Some (object_read (Read a (behind_bracket f1 tok) (read_info S a))).
Proof.
  intros f1 tok Hb Hn Hend Hid Hcreate.
  apply ReadAnyObjectFromStream_leave.
  rewrite (pass_at_bracket S f tok rest name Hb (token_between _ _ _ _ _ Hb Hn)).
  cbn zeta. apply String.eqb_neq in Hend as ->.
  destruct (Z.ltb_spec (ClassName2ID (string_of_list_ascii name)) 0); [lia |].
  by rewrite Hcreate.
Qed.

(** X16. A bracket whose first word is END is passed over, whatever follows
    the word inside the bracket: ReadAnyObjectFromStream goes on as if it had
    been called on the stream right behind the closing bracket. *)
Theorem ReadAnyObjectFromStream_skips_END (S : SolverArrays) (f : istream)
    (lead trail rest : list ascii) :
  let f1 := SkipWhiteSpace f in
  let tok := lead ++ list_ascii_of_string "END" ++ trail in
  bracket_at f1 tok rest ->
  name_between lead (list_ascii_of_string "END") trail ->
  ReadAnyObjectFromStream S f = ReadAnyObjectFromStream S (behind_bracket f1 tok).
Proof.
  intros f1 tok Hb Hn. apply ReadAnyObjectFromStream_again.
  by rewrite (pass_at_bracket S f tok rest _ Hb (token_between _ _ _ _ _ Hb Hn)).
Qed.

(** X17. A bracket with nothing but whitespace in it, or with nothing at
    all, has no token: std::out_of_range leaves the function, not the read
    error, and the stream stays behind the closing bracket. *)
Theorem ReadAnyObjectFromStream_blank_token (S : SolverArrays) (f : istream)
    (blank rest : list ascii) :
  let f1 := SkipWhiteSpace f in
  bracket_at f1 blank rest ->
  Forall (fun c => is_one_of whitespaces c = true) blank ->
  ReadAnyObjectFromStream S f
  = Some (behind_bracket f1 blank, Thrown std_out_of_range).
Proof.
  intros f1 (He & Hf & Hdrop & Htok & Hlen) Hws.
  apply ReadAnyObjectFromStream_leave.
  apply drop_cons_inv in Hdrop as [Hc Hdrop].
  unfold ReadAnyObjectFromStream_pass. fold f1.
  rewrite He, (get_good f1 "<" He Hf Hc), Z.eqb_refl. cbn [negb].
  rewrite (getline_delim _ blank rest); [| done | done | exact Hdrop | | done].
  - rewrite token_blank; [| done | | done].
    + unfold behind_bracket, set_gpos. simpl. do 3 f_equal. lia.
    + eapply Forall_impl; [exact Htok |]. by intros c [_ ?].
  - eapply Forall_impl; [exact Htok |]. by intros c [? _].
Qed.

(** X18. A bracket that is not closed within 255 characters fails the
    stream.  When the name found in those characters is not END and the
    factory does not know it or cannot create it, the read error is thrown,
    but seekg does nothing on the failed stream: it stays 256 characters
    behind where SkipWhiteSpace left it, with failbit set. *)
Theorem ReadAnyObjectFromStream_long_token (S : SolverArrays) (f : istream)
    (long rest s : list ascii) (c : ascii) :
  let f1 := SkipWhiteSpace f in
  let name := string_of_list_ascii s in
  eofbit f1 = false -> failbit f1 = false ->
  drop (gpos f1) (content f1) = "<"%char :: long ++ c :: rest ->
  length long = 255%nat ->
  Forall (fun c => c <> ">"%char) long -> c <> ">"%char ->
  token whitespaces long = Some s ->
  name <> "END"%string ->
  ClassName2ID name < 0 \/ Create (ClassName2ID name) = None ->
  ReadAnyObjectFromStream S f
  = Some (setstate false true (set_gpos (gpos f1 + 256) f1),
          Thrown ReadAnyObjectFromStream_error).
Proof.
  intros f1 name He Hf Hdrop Hlen Hlong Hc Hs Hend Hbad.
  apply ReadAnyObjectFromStream_leave.
  apply drop_cons_inv in Hdrop as [Hlt Hdrop].
  assert (getline 256 ">" (set_gpos (Datatypes.S (gpos f1)) f1)
          = (long, setstate false true (set_gpos (gpos f1 + 256) f1))) as Hgl.
  { rewrite (getline_full _ long rest c); [| done | done | exact Hdrop | done..].
    unfold setstate, set_gpos. simpl. do 2 f_equal. lia. }
  rewrite (pass_at_token S f _ long s He Hf Hlt Hgl Hs). cbn zeta. fold name.
  apply String.eqb_neq in Hend as ->.
  assert (forall l, ReadAnyObjectFromStream_out l
                      (setstate false true (set_gpos (gpos f1 + 256) f1))
                    = (setstate false true (set_gpos (gpos f1 + 256) f1),
                       Thrown ReadAnyObjectFromStream_error)) as Hout.
  { intros l. unfold ReadAnyObjectFromStream_out, seekg. simpl.
    by rewrite orb_true_r. }
  destruct (Z.ltb_spec (ClassName2ID name) 0) as [_ | Hge]; [by rewrite Hout |].
  destruct Hbad as [? | ->]; [lia | by rewrite Hout].
Qed.

End ReaderProperties.

(** * Properties of Solver::Read *)

Section SolverReadProperties.
Context `{OK : ObjectKinds}.

Lemma get_content_gpos (f f' : istream) (c : Z) :
  get f = (c, f') -> content f' = content f /\ (gpos f <= gpos f')%nat.
Proof.
  unfold get. destruct (good f); [destruct (content f !! gpos f) |];
    intros [= <- <-]; simpl; split; (done || lia).
Qed.

Lemma seekg_content (l : Z) (f : istream) : content (seekg l f) = content f.
Proof. unfold seekg. by destruct (failbit f), (l <? 0). Qed.

(** The code at [out] never moves the stream to before the place where the
    attempt began. *)
Lemma seekg_tellg_gpos (f f' : istream) :
  (gpos f <= gpos f')%nat -> (gpos f <= gpos (seekg (tellg f) f'))%nat.
Proof.
  intros Hle. unfold seekg, tellg. destruct (failbit f').
  - done.
  - destruct (failbit f); [done |].
    destruct (Z.ltb_spec (Z.of_nat (gpos f)) 0); simpl; lia.
Qed.

(** A pass that leaves the function: the characters are the same and the
    stream has not moved backwards; no object means the end of the stream,
    and an object means that the stream has moved on. *)
Lemma pass_leave_result (S : SolverArrays) (f f' : istream)
    (r : result (option FEMLightObject)) :
  ReadAnyObjectFromStream_pass S f = inl (f', r) ->
  content f' = content f /\ (gpos f <= gpos f')%nat
  /\ (r = Returned None -> eofbit f' = true)
  /\ (forall o, r = Returned (Some o) ->
         (gpos f < gpos f')%nat /\ (gpos f < length (content f))%nat).
Proof.
  unfold ReadAnyObjectFromStream_pass.
  pose proof (SkipWhiteSpace_content f) as Hc.
  pose proof (SkipWhiteSpace_gpos f) as Hp.
  destruct (eofbit (SkipWhiteSpace f)) eqn:He.
  { intros [= <- <-]. by repeat split. }
  destruct (get (SkipWhiteSpace f)) as [c f1] eqn:Hget.
  pose proof (get_content_gpos _ _ _ Hget) as [Hc1 Hp1].
  assert (forall f2, content f2 = content f -> (gpos f <= gpos f2)%nat ->
            inl (ReadAnyObjectFromStream_out (tellg f) f2)
            = (inl (f', r) : _ + istream) ->
            content f' = content f /\ (gpos f <= gpos f')%nat
            /\ (r = Returned None -> eofbit f' = true)
            /\ (forall o, r = Returned (Some o) ->
         (gpos f < gpos f')%nat /\ (gpos f < length (content f))%nat)) as Hout.
  { intros f2 Hc2 Hp2 [= <- <-]. rewrite seekg_content.
    split; [done |]. split; [by apply seekg_tellg_gpos |]. by split. }
  destruct (Z.eqb_spec c (Z.of_nat (nat_of_ascii "<"))) as [-> | _]; cbn [negb].
  2: { apply (Hout f1); [congruence | lia]. }
  apply get_char in Hget as (_ & Hp1' & Hlt); [| lia]. rewrite Hc in Hlt.
  destruct (getline 256 ">" f1) as [buf f2] eqn:Hgl.
  apply getline_content_gpos in Hgl as [Hc2 Hp2].
  destruct (token whitespaces buf) as [s |].
  2: { intros [= <- <-]. split; [congruence |]. split; [lia |]. by split. }
  destruct (String.eqb (string_of_list_ascii s) "END"); [done |].
  destruct (ClassName2ID (string_of_list_ascii s) <? 0).
  { apply (Hout f2); [congruence | lia]. }
  destruct (Create (ClassName2ID (string_of_list_ascii s))) as [a |].
  2: { apply (Hout f2); [congruence | lia]. }
  pose proof (Read_content a f2 (read_info S a)) as Hc3.
  pose proof (Read_gpos a f2 (read_info S a)) as Hp3.
  destruct (Read a f2 (read_info S a)) as [f3 [a' | e | u]]; simpl in Hc3, Hp3;
    intros [= <- <-]; (split; [congruence |]); (split; [lia |]);
    (split; [done |]); intros o; [intros _; lia | done..].
Qed.

Lemma ReadAnyObjectFromStream_fuel_result (n : nat) (S : SolverArrays)
    (f f' : istream) (r : result (option FEMLightObject)) :
  ReadAnyObjectFromStream_fuel n S f = Some (f', r) ->
  content f' = content f /\ (gpos f <= gpos f')%nat
  /\ (r = Returned None -> eofbit f' = true)
  /\ (forall o, r = Returned (Some o) ->
         (gpos f < gpos f')%nat /\ (gpos f < length (content f))%nat).
Proof.
  revert f. induction n as [| n IH]; intros f; [done |]. simpl.
  destruct (ReadAnyObjectFromStream_pass S f) as [[f1 r1] | f1] eqn:Hpass.
  - intros [= <- <-]. by apply (pass_leave_result S).
  - intros H. apply IH in H as (Hc & Hp & He & Ho).
    apply pass_again_progress in Hpass as (Hc1 & Hp1 & Hlt).
    split; [congruence |]. split; [lia |]. split; [done |].
    intros o Hr. specialize (Ho o Hr). lia.
Qed.

Lemma Solver_Read_store_sorted (S S' : SolverArrays) (o : FEMLightObject) :
  Solver_Read_store S o = Some S' ->
  (sorted_by_kind S -> sorted_by_kind S') /\ extends S S'.
Proof.
  unfold Solver_Read_store, sorted_by_kind, extends.
  destruct (is_Node o) eqn:H1; [| destruct (is_Material o) eqn:H2;
    [| destruct (is_Element o) eqn:H3; [| destruct (is_Load o) eqn:H4; [| done]]]];
    intros [= <-]; simpl; (split; [intros (Hn & Hm & He & Hl) |]);
    repeat split; try done; try (by apply prefix_app_r);
    apply Forall_app; (split; [done |]); by repeat constructor.
Qed.

Lemma extends_refl (S : SolverArrays) : extends S S.
Proof. by repeat split. Qed.

Lemma extends_trans (S1 S2 S3 : SolverArrays) :
  extends S1 S2 -> extends S2 S3 -> extends S1 S3.
Proof.
  intros (? & ? & ? & ?) (? & ? & ? & ?).
  repeat split; by etrans.
Qed.

(** With a unit of fuel more than the characters that are left the loop of
    Solver::Read comes to an end, and more fuel changes nothing.  The arrays
    stay sorted and keep what they held; the characters of the stream are
    the same; and the loop ends without an exception only at the end of the
    stream. *)
Lemma Solver_Read_loop_enough (n m : nat) (S : SolverArrays) (f : istream) :
  (length (content f) - gpos f < n)%nat ->
  (length (content f) - gpos f < m)%nat ->
  Solver_Read_loop n S f = Solver_Read_loop m S f
  /\ exists S' f' r,
       Solver_Read_loop n S f = Some (S', f', r)
       /\ (sorted_by_kind S -> sorted_by_kind S')
       /\ extends S S'
       /\ content f' = content f
       /\ (r = Returned tt -> eofbit f' = true).
Proof.
  revert m S f. induction n as [| n IH]; intros m S f Hn Hm; [lia |].
  destruct m as [| m]; [lia |]. cbn [Solver_Read_loop].
  destruct (ReadAnyObjectFromStream_total S f) as [[f1 r1] Hany].
  rewrite Hany. unfold ReadAnyObjectFromStream in Hany.
  apply ReadAnyObjectFromStream_fuel_result in Hany as (Hc & Hp & He & Ho).
  destruct r1 as [[o |] | e | u].
  - destruct (Ho o eq_refl) as [Hlt Hlen].
    destruct (Solver_Read_store S o) as [S1 |] eqn:Hstore.
    + apply Solver_Read_store_sorted in Hstore as [Hsorted Hext].
      destruct (IH m S1 f1) as (Heq & S' & f' & r & Hloop & Hs & Hx & Hc' & He');
        [rewrite Hc; lia | rewrite Hc; lia |].
      split; [done |]. exists S', f', r.
      split; [done |]. split; [by intros ?; apply Hs, Hsorted |].
      split; [by eapply extends_trans |]. split; [congruence | done].
    + split; [done |]. exists S, f1, (Thrown Solver_Read_error).
      split; [done |]. split; [done |]. split; [apply extends_refl |]. by split.
  - split; [done |]. exists S, f1, (Returned tt).
    split; [done |]. split; [done |]. split; [apply extends_refl |].
    split; [done |]. intros _. by apply He.
  - split; [done |]. exists S, f1, (Thrown e).
    split; [done |]. split; [done |]. split; [apply extends_refl |]. by split.
  - split; [done |]. exists S, f1, (Undefined u).
    split; [done |]. split; [done |]. split; [apply extends_refl |]. by split.
Qed.

Lemma cleared_sorted : sorted_by_kind cleared.
Proof. by repeat split. Qed.

(** X19. Solver::Read comes to an end on every stream, whatever the arrays
    held before.  However it ends, each array holds objects of its kind only,
    a Node before a Material before an Element before a Load where an
    object can be cast to more than one; the characters of the stream are
    the same; and when no exception leaves it, the stream is at its end. *)
Theorem Solver_Read_ends_sorted (S : SolverArrays) (f : istream) :
  exists S' f' r,
    Solver_Read S f = Some (S', f', r)
    /\ sorted_by_kind S'
    /\ content f' = content f
    /\ (r = Returned tt -> eofbit f' = true).
Proof.
  destruct (Solver_Read_loop_enough
              (Datatypes.S (length (content f) - gpos f))
              (Datatypes.S (length (content f) - gpos f)) cleared f)
    as (_ & S' & f' & r & Hloop & Hs & _ & Hc & He); [lia | lia |].
  exists S', f', r. split; [exact Hloop |].
  split; [apply Hs, cleared_sorted |]. by split.
Qed.

(** The loop after an object that was stored. *)
Lemma Solver_Read_from_stored (S S1 : SolverArrays) (f f1 : istream)
    (o : FEMLightObject) :
  ReadAnyObjectFromStream S f = Some (f1, Returned (Some o)) ->
  Solver_Read_store S o = Some S1 ->
  Solver_Read_from S f = Solver_Read_from S1 f1.
Proof.
  intros Hany Hstore. unfold Solver_Read_from at 1.
  cbn [Solver_Read_loop]. rewrite Hany, Hstore.
  unfold ReadAnyObjectFromStream in Hany.
  apply ReadAnyObjectFromStream_fuel_result in Hany as (Hc & _ & _ & Ho).
  destruct (Ho o eq_refl) as [Hlt Hlen].
  apply Solver_Read_loop_enough; rewrite Hc; lia.
Qed.

(** X20. The loop of Solver::Read after an object.  When
    ReadAnyObjectFromStream returns an object, the object is added at the
    end of one array, the others staying as they are, and the loop goes on
    from the stream behind the object: the array of the nodes when the
    object is a Node; otherwise that of the materials when it is a Material;
    otherwise that of the elements when it is an Element; otherwise that of
    the loads when it is a Load.  An object of none of these kinds is added
    nowhere: the loop ends with the read error of Solver::Read, the arrays
    as they were and the stream behind the object. *)
Theorem Solver_Read_next_object (S : SolverArrays) (f f1 : istream)
    (o : FEMLightObject) :
  ReadAnyObjectFromStream S f = Some (f1, Returned (Some o)) ->
  (is_Node o = true ->
   Solver_Read_from S f
   = Solver_Read_from
       {| node := node S ++ [o]; mat := mat S; el_array := el_array S;
          load_array := load_array S |} f1)
  /\ (is_Node o = false -> is_Material o = true ->
      Solver_Read_from S f
      = Solver_Read_from
          {| node := node S; mat := mat S ++ [o]; el_array := el_array S;
             load_array := load_array S |} f1)
  /\ (is_Node o = false -> is_Material o = false -> is_Element o = true ->
      Solver_Read_from S f
      = Solver_Read_from
          {| node := node S; mat := mat S; el_array := el_array S ++ [o];
             load_array := load_array S |} f1)
  /\ (is_Node o = false -> is_Material o = false -> is_Element o = false ->
      is_Load o = true ->
      Solver_Read_from S f
      = Solver_Read_from
          {| node := node S; mat := mat S; el_array := el_array S;
             load_array := load_array S ++ [o] |} f1)
  /\ (is_Node o = false -> is_Material o = false -> is_Element o = false ->
      is_Load o = false ->
      Solver_Read_from S f = Some (S, f1, Thrown Solver_Read_error)).
Proof.
  intros Hany. split; [| split; [| split; [| split]]].
  - intros H1. apply (Solver_Read_from_stored S _ f f1 o Hany).
    unfold Solver_Read_store. by rewrite H1.
  - intros H1 H2. apply (Solver_Read_from_stored S _ f f1 o Hany).
    unfold Solver_Read_store. by rewrite H1, H2.
  - intros H1 H2 H3. apply (Solver_Read_from_stored S _ f f1 o Hany).
    unfold Solver_Read_store. by rewrite H1, H2, H3.
  - intros H1 H2 H3 H4. apply (Solver_Read_from_stored S _ f f1 o Hany).
    unfold Solver_Read_store. by rewrite H1, H2, H3, H4.
  - intros H1 H2 H3 H4. unfold Solver_Read_from.
    cbn [Solver_Read_loop]. rewrite Hany.
    unfold Solver_Read_store. by rewrite H1, H2, H3, H4.
Qed.

(** X21. Whatever the loop of Solver::Read does and however it ends, the
    arrays keep the objects they held, in their places: objects are only
    added at the end of an array. *)
Theorem Solver_Read_keeps_objects (S S' : SolverArrays) (f f' : istream)
    (r : result unit) :
  Solver_Read_from S f = Some (S', f', r) -> extends S S'.
Proof.
  intros H.
  destruct (Solver_Read_loop_enough
              (Datatypes.S (length (content f) - gpos f))
              (Datatypes.S (length (content f) - gpos f)) S f)
    as (_ & S2 & f2 & r2 & Hloop & _ & Hx & _); [lia | lia |].
  unfold Solver_Read_from in H. rewrite Hloop in H. by injection H as <- <- <-.
Qed.

End SolverReadProperties.

(** * The properties on the examples *)

Section Examples.
#[local] Existing Instance Z_FEMTypes.

(** The first scenario of the spec: K is the element matrix. *)
Example AssembleK_bar :
  m_ls (AssembleK (solver_of [bar] [] 2)).1
  = [SetSystemOrder 2; InitializeMatrix; AddMatrixValue 0 0 1;
     AddMatrixValue 0 1 (-1); AddMatrixValue 1 0 (-1); AddMatrixValue 1 1 1].
Proof. reflexivity. Qed.

(** The second scenario: order 3, the entries (0,2) and (2,0) are 1, and
    the force vector gets 5 at DOF 1 and 0 at the multiplier. *)
Example AssembleF_bar_system :
  (AssembleF 0 (AssembleK bar_system).1).2 = Returned tt
  /\ new_calls bar_system (AssembleF 0 (AssembleK bar_system).1).1
     = [SetSystemOrder 3; InitializeMatrix; AddMatrixValue 0 0 1;
        AddMatrixValue 0 1 (-1); AddMatrixValue 1 0 (-1); AddMatrixValue 1 1 1;
        SetMatrixValue 0 2 1; SetMatrixValue 2 0 1;
        InitializeVector; AddVectorValue 1 5; SetVectorValue 2 0].
Proof. split; reflexivity. Qed.

Lemma AssembleK_illegal_GFN_aborts_witness :
  ((AssembleK bad_system).2 = Thrown AssembleK_IllegalGFN
   /\ m_ls (AssembleK bad_system).1
      = [] ++ [SetSystemOrder (2 + 1); InitializeMatrix; AddMatrixValue 0 0 1])
  /\ (AssembleK bad_system).2 = Thrown AssembleK_IllegalGFN.
Proof.
  assert (0 < NGFN bad_system) as Hn by reflexivity.
  destruct (AssembleK_illegal_GFN_aborts bad_system Hn) as [A B]. split.
  - exact (A [K_entry bad_bar 0 0] (K_entry bad_bar 0 1)
             [K_entry bad_bar 1 0; K_entry bad_bar 1 1; K_term fix_node0 fix_term]
             [AddMatrixValue 0 0 1] eq_refl eq_refl eq_refl).
  - apply B.
    + intros e He j k Hj Hk. apply list_elem_of_singleton in He. subst e.
      simpl in Hj, Hk.
      assert (j = 0 \/ j = 1) as [-> | ->] by lia;
        assert (k = 0 \/ k = 1) as [-> | ->] by lia; by eexists.
    + left. exists bad_bar, 0, 1.
      split; [by apply list_elem_of_singleton |].
      split; [simpl; lia |]. split; [simpl; lia |]. right. simpl. lia.
Defined.

Lemma AssembleK_collects_MFCs_witness :
  map Index (mfcLoads bar_system) = [0]
  /\ NMFC (AssembleK bar_system).1 = 1
  /\ exists rest,
       m_ls (AssembleK bar_system).1
       = [] ++ SetSystemOrder (2 + 1) :: InitializeMatrix :: rest.
Proof.
  destruct (AssembleK_collects_MFCs bar_system) as (_ & _ & Hi & _ & _ & Hk).
  split; [exact Hi |].
  assert (0 < NGFN bar_system) as Hn by reflexivity.
  destruct (Hk Hn) as (_ & Hnmfc & Hcalls). split; [exact Hnmfc | exact Hcalls].
Defined.

Lemma AssembleK_MFC_terms_symmetric_witness :
  AssembleK_term 2 fix_node0 fix_term
  = ([SetMatrixValue 0 2 1; SetMatrixValue 2 0 1], Returned tt)
  /\ GetMatrixValue (ls_run ls_empty (m_ls (AssembleK bar_system).1)) 0 2 = 1
  /\ GetMatrixValue (ls_run ls_empty (m_ls (AssembleK bar_system).1)) 2 0 = 1
  /\ ls_matrix (ls_run ls_empty (m_ls (AssembleK bar_system).1)) !! (2, 2) = None.
Proof.
  assert (0 < NGFN bar_system) as Hn by reflexivity.
  destruct (AssembleK_MFC_terms_symmetric bar_system Hn)
    as (Hterm & _ & _ & _ & Hblock & Hfinal).
  split; [| split; [| split]].
  - apply (Hterm fix_node0 fix_term).
    reflexivity.
  - apply (Hfinal eq_refl ls_empty [] fix_node0 [] []
             fix_term []);
      [reflexivity | reflexivity |].
    intros q' Hq'. by apply elem_of_nil in Hq'.
  - apply (Hfinal eq_refl ls_empty [] fix_node0 [] []
             fix_term []);
      [reflexivity | reflexivity |].
    intros q' Hq'. by apply elem_of_nil in Hq'.
  - apply Hblock; simpl; lia.
Defined.

Lemma AssembleK_accumulates_nonzero_entries_witness :
  AssembleK_entry 2 plane_bar 0 1 = ([], Returned tt)
  /\ AssembleK_entry 2 plane_bar 1 1 = ([AddMatrixValue 1 1 1], Returned tt)
  /\ ls_matrix (ls_run ls_empty (m_ls (AssembleK (solver_of [plane_bar] [] 2)).1))
       !! (0, 1) = None
  /\ AddMatrixValue 0 0 1
       ∈ new_calls (solver_of [plane_bar] [] 2)
           (AssembleK (solver_of [plane_bar] [] 2)).1
  /\ AddMatrixValue 1 1 1
       ∈ new_calls (solver_of [plane_bar] [] 2)
           (AssembleK (solver_of [plane_bar] [] 2)).1.
Proof.
  assert (0 < NGFN (solver_of [plane_bar] [] 2)) as Hn by reflexivity.
  destruct (AssembleK_accumulates_nonzero_entries (solver_of [plane_bar] [] 2) Hn)
    as (Hentry & _ & Hsparse & Hall).
  split; [| split; [| split; [| split]]].
  - refine (proj1 (Hentry plane_bar 0 1 0 eq_refl eq_refl) eq_refl).
  - refine (proj1 (proj2 (Hentry plane_bar 1 1 1 eq_refl eq_refl) eq_refl)).
  - apply Hsparse; [reflexivity | reflexivity |].
    intros e j k v He Hj Hk Ej Ek Hv.
    apply list_elem_of_singleton in He. subst e. simpl in *. subst j k.
    by injection Hv as <-.
  - refine (proj2 (proj2 (Hall eq_refl plane_bar 0 0 1 _ _ _ eq_refl eq_refl)));
      [by apply list_elem_of_singleton | simpl; lia | simpl; lia].
  - refine (proj2 (proj2 (Hall eq_refl plane_bar 1 1 1 _ _ _ eq_refl eq_refl)));
      [by apply list_elem_of_singleton | simpl; lia | simpl; lia].
Defined.

Lemma assemblers_no_op_without_DOF_witness :
  AssembleK (solver_of [] [force5] 0) = (solver_of [] [force5] 0, Returned tt)
  /\ AssembleF 1 (solver_of [] [force5] 0) = (solver_of [] [force5] 0, Returned tt).
Proof.
  apply (assemblers_no_op_without_DOF (solver_of [] [force5] 0) 1).
  simpl. lia.
Defined.

Lemma AssembleF_MFC_sets_rhs_witness :
  AssembleF_load 2 0 [bar] (Load_LoadBCMFC fix_node0)
  = ([SetVectorValue (2 + 0) 0], Returned tt)
  /\ (forall L, GetVectorValue (ls_apply L (SetVectorValue (2 + 0) 0)) (2 + 0) = 0)
  /\ AssembleF 0 (solver_of [bar] [force5; Load_LoadBCMFC fix_node0; force5] 2)
     = (with_m_ls (solver_of [bar] [force5; Load_LoadBCMFC fix_node0; force5] 2)
          ([] ++ InitializeVector
              :: ([AddVectorValue 1 5] ++ [SetVectorValue (2 + 0) 0])
                 ++ [AddVectorValue 1 5]),
        Returned tt).
Proof.
  exact (AssembleF_MFC_sets_rhs 0
           (solver_of [bar] [force5; Load_LoadBCMFC fix_node0; force5] 2)
           [force5] [force5] fix_node0 [AddVectorValue 1 5] 0
           eq_refl eq_refl eq_refl eq_refl).
Defined.

Lemma AssembleF_illegal_size_witness :
  AssembleF_load 2 0 [bar; plane_bar] short_force = ([], Thrown AssembleF_IllegalSize)
  /\ AssembleF 0 short_force_system
     = (with_m_ls short_force_system
          ([] ++ InitializeVector :: [AddVectorValue 1 5]),
        Thrown AssembleF_IllegalSize).
Proof.
  refine (AssembleF_illegal_size 0 short_force_system [force5] []
            short_LoadNode [AddVectorValue 1 5] eq_refl eq_refl eq_refl _ _);
    by vm_compute.
Defined.

(** C7 as the spec has it fails: when AssembleF throws the size exception
    for the second load, it has initialised the vector and added the force
    of the first load, so entry 1 of the vector is no longer what it was. *)
Lemma vector_calls_before_size_exception :
  (AssembleF 0 short_force_system).2 = Thrown AssembleF_IllegalSize
  /\ m_ls short_force_system = []
  /\ m_ls (AssembleF 0 short_force_system).1 = [InitializeVector; AddVectorValue 1 5]
  /\ GetVectorValue ls_empty 1 = 0
  /\ GetVectorValue (ls_run ls_empty (m_ls (AssembleF 0 short_force_system).1)) 1 = 5.
Proof. repeat split. Qed.

Lemma AssembleF_reads_past_the_end_witness :
  past_the_end 1 (AssembleF 1 (solver_of [bar] [force5] 2)).2
  /\ past_the_end 2 (AssembleF 1 (solver_of [bar] [gravity] 2)).2.
Proof.
  split.
  - assert (0 < NGFN (solver_of [bar] [force5] 2)) as Hn by reflexivity.
    apply (proj1 (AssembleF_reads_past_the_end 1 (solver_of [bar] [force5] 2) Hn)
             [] force5_LoadNode [] []);
      try reflexivity.
    + simpl. lia.
    + intros d Hd. simpl in *. lia.
    + exists 0. simpl. split; [lia | by vm_compute].
  - assert (0 < NGFN (solver_of [bar] [gravity] 2)) as Hn by reflexivity.
    apply (proj2 (AssembleF_reads_past_the_end 1 (solver_of [bar] [gravity] 2) Hn)
             [] gravity_LoadElement [] []
             [] bar [] []);
      try reflexivity.
    + intros j Hj. simpl in *. lia.
    + exists 0. simpl. split; [lia | by vm_compute].
Defined.

End Examples.

Section ReadingExamples.
#[local] Existing Instance example_Persistence.

(** C8 as the spec has it fails.  The object's own Read throws at the
    character after the token: the exception that leaves the function is
    the one Read threw, and the stream stays behind that character, at 7,
    not at 0 where the attempt began.  An empty token makes substr throw
    std::out_of_range, and the stream stays behind the token. *)
Lemma ReadAnyObjectFromStream_not_rewound :
  tellg (stream_of "<Node>x") = 0
  /\ ReadAnyObjectFromStream no_arrays (stream_of "<Node>x")
     = Some (set_gpos 7 (stream_of "<Node>x"),
             Thrown (FEMExceptionIO "FEMLightObject::Read()" "not a digit"))
  /\ ReadAnyObjectFromStream no_arrays (stream_of "<>")
     = Some (set_gpos 2 (stream_of "<>"), Thrown std_out_of_range).
Proof. repeat split. Qed.

Lemma ReadAnyObjectFromStream_outcomes_witness :
  ReadAnyObjectFromStream no_arrays (stream_of "   ")
  = Some (SkipWhiteSpace (stream_of "   "), Returned None)
  /\ (exists f',
        ReadAnyObjectFromStream no_arrays (stream_of "  x")
        = Some (f', Thrown ReadAnyObjectFromStream_error)
        /\ gpos f' = gpos (stream_of "  x"))
  /\ ReadAnyObjectFromStream no_arrays (stream_of "<END> <Node>7")
     = ReadAnyObjectFromStream no_arrays (set_gpos 5 (stream_of "<END> <Node>7"))
  /\ (exists f',
        ReadAnyObjectFromStream no_arrays (stream_of " <Foo>")
        = Some (f', Thrown ReadAnyObjectFromStream_error)
        /\ gpos f' = gpos (stream_of " <Foo>"))
  /\ ReadAnyObjectFromStream no_arrays (stream_of "<Node>x")
     = Some (set_gpos 7 (stream_of "<Node>x"),
             Thrown (FEMExceptionIO "FEMLightObject::Read()" "not a digit"))
  /\ ReadAnyObjectFromStream no_arrays (stream_of "<Node>7")
     = Some (set_gpos 7 (stream_of "<Node>7"), Returned (Some ("Node"%string, 7))).
Proof.
  split; [| split; [| split; [| split; [| split]]]].
  - exact (proj1 (ReadAnyObjectFromStream_outcomes no_arrays (stream_of "   ")
                    eq_refl) eq_refl).
  - refine (proj1 (proj2 (ReadAnyObjectFromStream_outcomes no_arrays
                            (stream_of "  x") eq_refl))
              "x"%char eq_refl eq_refl eq_refl _).
    discriminate.
  - refine (proj1 (proj1 (proj2 (proj2 (ReadAnyObjectFromStream_outcomes no_arrays
                                   (stream_of "<END> <Node>7") eq_refl))
                     (list_ascii_of_string "END")
                     (set_gpos 5 (stream_of "<END> <Node>7"))
                     (list_ascii_of_string "END")
                     eq_refl eq_refl eq_refl eq_refl eq_refl) eq_refl)).
  - refine (proj1 (proj2 (proj2 (proj2 (ReadAnyObjectFromStream_outcomes no_arrays
                                          (stream_of " <Foo>") eq_refl))
                            (list_ascii_of_string "Foo")
                            (set_gpos 6 (stream_of " <Foo>"))
                            (list_ascii_of_string "Foo")
                            eq_refl eq_refl eq_refl eq_refl eq_refl)) _ eq_refl _).
    + discriminate.
    + left. simpl. lia.
  - refine (proj1 (proj2 (proj2 (proj2 (proj2
              (ReadAnyObjectFromStream_outcomes no_arrays (stream_of "<Node>x") eq_refl))
              (list_ascii_of_string "Node") (set_gpos 6 (stream_of "<Node>x"))
              (list_ascii_of_string "Node")
              eq_refl eq_refl eq_refl eq_refl eq_refl)))
              ("Node"%string, 0) _ _ _ _ eq_refl eq_refl).
    + discriminate.
    + simpl. lia.
  - refine (proj2 (proj2 (proj2 (proj2 (proj2
              (ReadAnyObjectFromStream_outcomes no_arrays (stream_of "<Node>7") eq_refl))
              (list_ascii_of_string "Node") (set_gpos 6 (stream_of "<Node>7"))
              (list_ascii_of_string "Node")
              eq_refl eq_refl eq_refl eq_refl eq_refl)))
              ("Node"%string, 0) _ _ _ _ eq_refl eq_refl).
    + discriminate.
    + simpl. lia.
Defined.

End ReadingExamples.

Section AssemblerExamples.
#[local] Existing Instance Z_FEMTypes.

Lemma bar_Ke_covers (e : Element) : e ∈ [bar] -> Ke_covers e.
Proof.
  intros He%list_elem_of_singleton j k Hj Hk. subst e. simpl in Hj, Hk.
  assert (j = 0 \/ j = 1) as [-> | ->] by lia;
    assert (k = 0 \/ k = 1) as [-> | ->] by lia; by eexists.
Defined.

Lemma AssembleK_returns_iff_legal_witness :
  ((AssembleK bar_system).2 = Returned tt
   <-> (forall e j, e ∈ [bar] -> 0 <= j < GetNumberOfDegreesOfFreedom e ->
                    GetDegreeOfFreedom e j < 2)
       /\ (forall c q, c ∈ mfcLoads bar_system -> q ∈ lhs c -> term_gfn q < 2))
  /\ ((AssembleK bar_system).2 = Returned tt
      \/ (AssembleK bar_system).2 = Thrown AssembleK_IllegalGFN).
Proof.
  exact (AssembleK_returns_iff_legal bar_system eq_refl bar_Ke_covers).
Defined.

Lemma AssembleK_reads_outside_Ke_witness :
  (AssembleK (solver_of [short_Ke_bar] [] 2)).2
  = Undefined (vnl_matrix_out_of_range 1 0)
  /\ m_ls (AssembleK (solver_of [short_Ke_bar] [] 2)).1
     = [] ++ SetSystemOrder (2 + 0) :: InitializeMatrix
          :: [AddMatrixValue 0 0 1; AddMatrixValue 0 1 (-1)].
Proof.
  refine (AssembleK_reads_outside_Ke (solver_of [short_Ke_bar] [] 2)
            [K_entry short_Ke_bar 0 0; K_entry short_Ke_bar 0 1]
            [K_entry short_Ke_bar 1 1] short_Ke_bar 1 0
            [AddMatrixValue 0 0 1; AddMatrixValue 0 1 (-1)]
            eq_refl eq_refl eq_refl eq_refl eq_refl _).
  left. simpl. lia.
Defined.

Lemma AssembleK_calls_within_order_witness :
  Forall (AssembleK_call_ok 2 1)
    [SetSystemOrder 3; InitializeMatrix; AddMatrixValue 0 0 1;
     AddMatrixValue 0 1 (-1); AddMatrixValue 1 0 (-1); AddMatrixValue 1 1 1;
     SetMatrixValue 0 2 1; SetMatrixValue 2 0 1].
Proof.
  exact (AssembleK_calls_within_order bar_system eq_refl).
Defined.

Lemma AssembleK_sizes_and_keeps_vector_witness :
  ls_order (ls_run ls_empty (m_ls (AssembleK bar_system).1)) = 2 + 1
  /\ ls_vector (ls_run ls_empty (m_ls (AssembleK bar_system).1))
     = ls_vector (ls_apply (ls_run ls_empty []) (SetSystemOrder (2 + 1))).
Proof.
  exact (AssembleK_sizes_and_keeps_vector bar_system ls_empty eq_refl).
Defined.

Lemma AssembleK_again_witness :
  (AssembleK (AssembleK bad_system).1).2 = Thrown AssembleK_IllegalGFN
  /\ load (AssembleK (AssembleK bad_system).1).1 = load (AssembleK bad_system).1
  /\ NMFC (AssembleK (AssembleK bad_system).1).1 = 1
  /\ new_calls (AssembleK bad_system).1 (AssembleK (AssembleK bad_system).1).1
     = [SetSystemOrder 3; InitializeMatrix; AddMatrixValue 0 0 1]
  /\ ls_matrix (ls_run ls_empty (m_ls (AssembleK (AssembleK bad_system).1).1))
     = ls_matrix (ls_run ls_empty (m_ls (AssembleK bad_system).1)).
Proof.
  exact (AssembleK_again bad_system ls_empty eq_refl).
Defined.

Lemma AssembleF_calls_within_order_witness :
  Forall (AssembleF_call_ok 2 1)
    [InitializeVector; AddVectorValue 1 5; SetVectorValue 2 0].
Proof.
  exact (AssembleF_calls_within_order 0 bar_system eq_refl).
Defined.

Lemma Solve_without_DOF_witness :
  m_ls (Solve (AssembleF 0 (AssembleK (solver_of [] [force5] 0)).1).1)
  = [] ++ [InitializeSolution; ls_Solve].
Proof.
  apply (Solve_without_DOF 0 (solver_of [] [force5] 0)). simpl. lia.
Defined.

Lemma AssembleF_LoadNode_adds_slice_witness :
  AssembleF_load 2 0 [bar] force5 = ([AddVectorValue 1 5], Returned tt)
  /\ length [AddVectorValue 1 5] = 1%nat
  /\ AssembleF 0 (solver_of [bar] [gravity; force5; Load_LoadBCMFC fix_node0] 2)
     = (with_m_ls (solver_of [bar] [gravity; force5; Load_LoadBCMFC fix_node0] 2)
          ([] ++ InitializeVector
              :: ([AddVectorValue 0 3; AddVectorValue 1 4] ++ [AddVectorValue 1 5])
                 ++ [SetVectorValue 2 0]),
        Returned tt).
Proof.
  refine (AssembleF_LoadNode_adds_slice 0
            (solver_of [bar] [gravity; force5; Load_LoadBCMFC fix_node0] 2)
            [gravity] [Load_LoadBCMFC fix_node0] force5_LoadNode
            [AddVectorValue 0 3; AddVectorValue 1 4]
            eq_refl eq_refl eq_refl _ eq_refl eq_refl _ eq_refl _).
  - simpl. lia.
  - simpl. lia.
  - intros d Hd. simpl in *. lia.
Defined.

Lemma AssembleF_LoadElement_adds_slices_witness :
  AssembleF_load 2 0 [bar] gravity
  = ([AddVectorValue 0 3; AddVectorValue 1 4], Returned tt)
  /\ AssembleF 0 (solver_of [bar] [force5; gravity] 2)
     = (with_m_ls (solver_of [bar] [force5; gravity] 2)
          ([] ++ InitializeVector
              :: ([AddVectorValue 1 5] ++ [AddVectorValue 0 3; AddVectorValue 1 4])
                 ++ []),
        Returned tt).
Proof.
  refine (AssembleF_LoadElement_adds_slices 0 (solver_of [bar] [force5; gravity] 2)
            [force5] [] gravity_LoadElement [AddVectorValue 1 5]
            eq_refl eq_refl eq_refl _ _).
  - simpl. lia.
  - intros el0 He%list_elem_of_singleton. subst el0. simpl.
    split; [lia |]. split; [lia |]. split; [lia |]. intros j Hj. lia.
Defined.

Lemma AssembleF_LoadNode_illegal_GFN_witness :
  AssembleF 0 (solver_of [bad_plane_bar] [Load_LoadNode force56_LoadNode] 2)
  = (with_m_ls (solver_of [bad_plane_bar] [Load_LoadNode force56_LoadNode] 2)
       ([] ++ InitializeVector :: [] ++ [AddVectorValue 0 5]),
     Thrown AssembleF_IllegalGFN)
  /\ length [AddVectorValue 0 5] = 1%nat.
Proof.
  refine (AssembleF_LoadNode_illegal_GFN 0
            (solver_of [bad_plane_bar] [Load_LoadNode force56_LoadNode] 2)
            [] [] force56_LoadNode [] 1
            eq_refl eq_refl eq_refl _ _ eq_refl _ eq_refl _ _).
  - simpl. lia.
  - simpl. lia.
  - simpl. lia.
  - intros d' Hd'. assert (d' = 0) as -> by lia. simpl. lia.
  - simpl. lia.
Defined.

Lemma AssembleF_LoadElement_illegal_GFN_witness :
  AssembleF 0 (solver_of [bad_bar] [force5; gravity] 2)
  = (with_m_ls (solver_of [bad_bar] [force5; gravity] 2)
       ([] ++ InitializeVector
           :: [AddVectorValue 1 5] ++ [] ++ [AddVectorValue 0 3]),
     Thrown AssembleF_IllegalGFN)
  /\ length [AddVectorValue 0 3] = 1%nat.
Proof.
  refine (AssembleF_LoadElement_illegal_GFN 0 (solver_of [bad_bar] [force5; gravity] 2)
            [force5] [] gravity_LoadElement [AddVectorValue 1 5]
            [] [] bad_bar [] 1
            eq_refl eq_refl eq_refl eq_refl eq_refl _ _ _ eq_refl _ _).
  - simpl. lia.
  - simpl. lia.
  - simpl. lia.
  - intros j' Hj'. assert (j' = 0) as -> by lia. simpl. lia.
  - simpl. lia.
Defined.

End AssemblerExamples.

Section ReaderExamples.
#[local] Existing Instance example_Persistence.
#[local] Existing Instance example_ObjectKinds.

Lemma ReadAnyObjectFromStream_reads_record_witness :
  ReadAnyObjectFromStream no_arrays (stream_of " < Node x>7")
  = Some (set_gpos 11 (stream_of " < Node x>7"), Returned (Some ("Node"%string, 7))).
Proof.
  refine (ReadAnyObjectFromStream_reads_record no_arrays (stream_of " < Node x>7")
            [" "%char] (list_ascii_of_string "Node") (list_ascii_of_string " x")
            ["7"%char] ("Node"%string, 0) _ _ _ _ eq_refl).
  - split; [reflexivity |]. split; [reflexivity |]. split; [reflexivity |].
    split; [| simpl; lia]. simpl. repeat constructor; discriminate.
  - split; [by repeat constructor |]. split; [discriminate |].
    split; [by repeat constructor |]. right. by eexists _, _.
  - discriminate.
  - simpl. lia.
Defined.

Lemma ReadAnyObjectFromStream_skips_END_witness :
  ReadAnyObjectFromStream no_arrays (stream_of "<END of nodes> <Node>7")
  = ReadAnyObjectFromStream no_arrays
      (set_gpos 14 (stream_of "<END of nodes> <Node>7")).
Proof.
  refine (ReadAnyObjectFromStream_skips_END no_arrays
            (stream_of "<END of nodes> <Node>7")
            [] (list_ascii_of_string " of nodes") (list_ascii_of_string " <Node>7")
            _ _).
  - split; [reflexivity |]. split; [reflexivity |]. split; [reflexivity |].
    split; [| simpl; lia]. simpl. repeat constructor; discriminate.
  - split; [by constructor |]. split; [discriminate |].
    split; [by repeat constructor |]. right. by eexists _, _.
Defined.

Lemma ReadAnyObjectFromStream_blank_token_witness :
  ReadAnyObjectFromStream no_arrays (stream_of "< >x")
  = Some (set_gpos 3 (stream_of "< >x"), Thrown std_out_of_range).
Proof.
  refine (ReadAnyObjectFromStream_blank_token no_arrays (stream_of "< >x")
            [" "%char] ["x"%char] _ _).
  - split; [reflexivity |]. split; [reflexivity |]. split; [reflexivity |].
    split; [| simpl; lia]. repeat constructor; discriminate.
  - by repeat constructor.
Defined.

Lemma ReadAnyObjectFromStream_long_token_witness :
  ReadAnyObjectFromStream no_arrays unclosed_stream
  = Some (setstate false true (set_gpos 256 unclosed_stream),
          Thrown ReadAnyObjectFromStream_error).
Proof.
  refine (ReadAnyObjectFromStream_long_token no_arrays unclosed_stream
            (list_ascii_of_string "Foo" ++ repeat " "%char 252) []
            (list_ascii_of_string "Foo") " "%char
            eq_refl eq_refl eq_refl eq_refl _ _ _ _ _).
  - apply Forall_app. split; [repeat constructor; discriminate |].
    apply Forall_forall. intros c Hc%list_elem_of_In%repeat_spec. subst c. discriminate.
  - discriminate.
  - by vm_compute.
  - discriminate.
  - left. simpl. lia.
Defined.

Lemma Solver_Read_next_object_witness :
  Solver_Read_from cleared (stream_of "<Node>7<Foo>")
  = Solver_Read_from
      {| node := [("Node"%string, 7)]; mat := []; el_array := []; load_array := [] |}
      (set_gpos 7 (stream_of "<Node>7<Foo>"))
  /\ Solver_Read_from one_node (stream_of "<Load>3")
     = Solver_Read_from
         {| node := [("Node"%string, 1)]; mat := []; el_array := [];
            load_array := [("Load"%string, 3)] |}
         (set_gpos 7 (stream_of "<Load>3")).
Proof.
  split.
  - exact (proj1 (Solver_Read_next_object cleared (stream_of "<Node>7<Foo>") _
                    ("Node"%string, 7) eq_refl) eq_refl).
  - exact (proj1 (proj2 (proj2 (proj2
             (Solver_Read_next_object one_node (stream_of "<Load>3") _
                ("Load"%string, 3) eq_refl))))
             eq_refl eq_refl eq_refl eq_refl).
Defined.

Lemma Solver_Read_keeps_objects_witness :
  extends one_node
    {| node := [("Node"%string, 1); ("Node"%string, 7)];
       mat := []; el_array := []; load_array := [] |}.
Proof.
  exact (Solver_Read_keeps_objects one_node _ (stream_of "<Node>7x")
           (set_gpos 7 (stream_of "<Node>7x"))
           (Thrown ReadAnyObjectFromStream_error) eq_refl).
Defined.

End ReaderExamples.
